(** * Phala Cloud SDK: secret codec, retrying transport, submitter, status poller

    A shallow embedding of the TypeScript sources
      - [src/utils/crypto.ts]      (hexToUint8Array, uint8ArrayToHex, encryptSecrets)
      - [src/core/api-client.ts]   (ApiClient.executeWithRetry)
      - [src/core/phala-cloud.ts]  (deploy, upgrade, updateCompose, parseEnv,
                                    listTeepods, monitorDeploymentStatus)

    Conventions of the embedding.
      - JavaScript strings are [string]s of 8-bit code units.
      - JavaScript integers are [Z]; a product with the literal 0.5 is a [Q].
      - The remote service, the file system and the clock are oracles: a
        scripted answer per call, indexed by the number of the call.
      - A notification sink is either absent or a recorder that returns
        normally; every invocation is appended to a trace of events.
      - An object used as a map is the list of its own properties, in the
        order of their creation.
      - A loop is a [Fixpoint] on fuel that re-tests the source's loop
        condition; running out of fuel is a separate, visible outcome. *)

From Stdlib Require Import ZArith QArith Qminmax Lia Ascii String.
From Stdlib.Strings Require Byte.
From stdpp Require Import strings list.

Local Open Scope Z_scope.

(** ** JavaScript values shared by the modules *)

Module Js.

(** Errors by the place that raises them. A wrapper error keeps the error
    whose [message] it interpolates. *)
Inductive JsError :=
| NotHexString                         (* crypto.ts, hexToUint8Array *)
| EncryptFailed (cause : JsError)      (* crypto.ts, catch of encryptSecrets *)
| TypeRequired                         (* deploy: "The type option is required..." *)
| ModeRequired                         (* deploy: "The mode option is required..." *)
| NameRequired                         (* deploy, upgrade: "The name option is required." *)
| ComposeRequired                      (* deploy, upgrade, updateCompose *)
| IdentifierRequired                   (* updateCompose *)
| NoTeepodsFound                       (* deploy: empty teepod list *)
| NoTeepodsAvailable                   (* deploy: no available and online teepod *)
| TeepodQueryFailed (cause : JsError)  (* deploy: catch around the resolution *)
| ListTeepodsFailed (cause : JsError)  (* listTeepods: catch *)
| NoPubkey                             (* deploy: "Failed to get encryption pubkey from CVM" *)
| RangeError                           (* TypedArray.prototype.set out of bounds *)
| External (message : string).         (* platform, file system, transport *)

(** A computation that returns or throws. *)
Inductive Result (A : Type) :=
| Ok (value : A)
| Throw (error : JsError).
Arguments Ok {A} value.
Arguments Throw {A} error.

Definition bind {A B} (r : Result A) (k : A -> Result B) : Result B :=
  match r with
  | Ok a => k a
  | Throw e => Throw e
  end.

(** [try { body } catch (error) { throw wrap(error) }] *)
Definition rethrow {A} (wrap : JsError -> JsError) (body : Result A) : Result A :=
  match body with
  | Ok a => Ok a
  | Throw e => Throw (wrap e)
  end.

(** The code unit of a character. *)
Definition code (c : ascii) : Z := Z.of_N (Ascii.N_of_ascii c).

Definition unit_of (z : Z) : ascii := Ascii.ascii_of_N (Z.to_N z).

(** [String.prototype.startsWith] *)
Definition startsWith (s p : string) : bool := String.prefix p s.

(** [String.prototype.includes] *)
Fixpoint includes (s sub : string) : bool :=
  String.prefix sub s ||
  match s with
  | EmptyString => false
  | String _ s' => includes s' sub
  end.

(** [String.prototype.toLowerCase] on code units below 256: A-Z and the
    Latin-1 capitals U+00C0..U+00DE, the sign U+00D7 excepted. *)
Definition lowerUnit (c : ascii) : ascii :=
  let n := code c in
  if ((65 <=? n) && (n <=? 90)) || ((192 <=? n) && (n <=? 222) && negb (n =? 215))
  then unit_of (n + 32)
  else c.

Fixpoint toLowerCase (s : string) : string :=
  match s with
  | EmptyString => EmptyString
  | String c s' => String (lowerUnit c) (toLowerCase s')
  end.

(** Truthiness of a string, of a number, of an optional value. *)
Definition truthyString (s : string) : bool := negb (String.eqb s "").
Definition truthyNumber (z : Z) : bool := negb (z =? 0).

(** [a || b] on optional numbers: [a] when it is defined and truthy. *)
Definition orNumber (a : option Z) (b : Z) : Z :=
  match a with
  | Some z => if truthyNumber z then z else b
  | None => b
  end.

(** [a || b] on optional strings. *)
Definition orString (a : option string) (b : string) : string :=
  match a with
  | Some s => if truthyString s then s else b
  | None => b
  end.

End Js.

(** ** src/utils/crypto.ts: the hexadecimal codec *)

Module Hex.
Import Js.

Abbreviation byte := Byte.byte.

#[global] Instance byte_eq_dec : EqDecision byte := Byte.byte_eq_dec.

(** StrWhiteSpaceChar among the code units below 256. *)
Definition isStrWhiteSpace (c : ascii) : bool :=
  let n := code c in
  ((9 <=? n) && (n <=? 13)) || (n =? 32) || (n =? 160).

Definition hexDigit (c : ascii) : option Z :=
  let n := code c in
  if (48 <=? n) && (n <=? 57) then Some (n - 48)
  else if (97 <=? n) && (n <=? 102) then Some (n - 87)
  else if (65 <=? n) && (n <=? 70) then Some (n - 55)
  else None.

Fixpoint trimStart (s : string) : string :=
  match s with
  | String c s' => if isStrWhiteSpace c then trimStart s' else s
  | EmptyString => s
  end.

(** The value of the longest prefix of radix-16 digits; [acc] is [None]
    until a digit has been read. *)
Fixpoint digits16 (s : string) (acc : option Z) : option Z :=
  match s with
  | String c s' =>
    match hexDigit c with
    | Some d => digits16 s' (Some (16 * default 0 acc + d))
    | None => acc
    end
  | EmptyString => acc
  end.

Definition stripSign (s : string) : Z * string :=
  match s with
  | String "-"%char r => (-1, r)
  | String "+"%char r => (1, r)
  | _ => (1, s)
  end.

Definition strip0x (s : string) : string :=
  match s with
  | String "0"%char (String "x"%char r) => r
  | String "0"%char (String "X"%char r) => r
  | _ => s
  end.

(** [parseInt(s, 16)]; [None] is NaN. *)
Definition parseInt16 (s : string) : option Z :=
  let '(sign, s') := stripSign (trimStart s) in
  match digits16 (strip0x s') None with
  | Some v => Some (sign * v)
  | None => None
  end.

Definition byte_of_Z (z : Z) : byte :=
  default Byte.x00 (Byte.of_N (Z.to_N (z mod 256))).

Definition Z_of_byte (b : byte) : Z := Z.of_N (Byte.to_N b).

(** Storing a number into a Uint8Array element: NaN becomes 0, an integer
    is reduced modulo 256. *)
Definition toUint8 (v : option Z) : byte :=
  match v with
  | Some z => byte_of_Z z
  | None => Byte.x00
  end.

(** The loop [for (i = 0; i < hex.length; i += 2)
      array[i / 2] = parseInt(hex.substring(i, i + 2), 16)]
    on a string of even length. *)
Fixpoint decodePairs (hex : string) : list byte :=
  match hex with
  | String a (String b rest) =>
    toUint8 (parseInt16 (String a (String b EmptyString))) :: decodePairs rest
  | _ => []
  end.

Definition hexToUint8Array (hex : string) : Result (list byte) :=
  let hex := if startsWith hex "0x" then String.substring 2 (String.length hex - 2)%nat hex else hex in
  if negb (Nat.even (String.length hex))
  then Throw NotHexString
  else Ok (decodePairs hex).

Definition digitChar (d : Z) : ascii :=
  if d <? 10 then unit_of (48 + d) else unit_of (87 + d).

(** [b.toString(16)] for an element of a Uint8Array. *)
Definition toString16 (b : byte) : string :=
  let n := Z_of_byte b in
  if n <? 16 then String (digitChar n) EmptyString
  else String (digitChar (n / 16)) (String (digitChar (n mod 16)) EmptyString).

(** [s.padStart(2, '0')] *)
Definition padStart2 (s : string) : string :=
  match s with
  | EmptyString => "00"
  | String c EmptyString => String "0"%char s
  | _ => s
  end.

(** [Array.from(bytes).map(b => b.toString(16).padStart(2, '0')).join('')] *)
Definition uint8ArrayToHex (bytes : list byte) : string :=
  foldr (fun b acc => String.append (padStart2 (toString16 b)) acc) EmptyString bytes.

(** The check that the encoding of [b] has two characters, the second of
    which is not [x], and that the decoder reads [b] back from them. *)
Definition encodesBack (b : byte) : bool :=
  match padStart2 (toString16 b) with
  | String c1 (String c2 EmptyString) =>
    negb (Ascii.eqb c2 "x") &&
    bool_decide (toUint8 (parseInt16 (String c1 (String c2 EmptyString))) = b)
  | _ => false
  end.

(** Two 64-character keys: the first starts with two characters that are
    not hexadecimal digits, the second has [00] in their place. *)
Definition nonHexKey : string :=
  "zz01010101010101010101010101010101010101010101010101010101010101".
Definition zeroLedKey : string :=
  "0001010101010101010101010101010101010101010101010101010101010101".

End Hex.

(** ** src/utils/crypto.ts: encryptSecrets *)

Module SecretCodec.
Import Js Hex.

(** [Env] of src/types/index.ts *)
Record Env := { key : string; value : string }.

(** The primitives the module calls and does not define: the JSON and
    UTF-8 encoders of the runtime, X25519 of @noble/curves and AES-GCM of
    WebCrypto. The last two fields and [parse] serve the decoder only. *)
Record Platform := {
  (* new TextEncoder().encode(JSON.stringify({ env: envs })) *)
  serialize : list Env -> list byte;
  (* x25519.getPublicKey(privateKey) *)
  getPublicKey : list byte -> list byte;
  (* x25519.getSharedSecret(privateKey, publicKey) *)
  getSharedSecret : list byte -> list byte -> Result (list byte);
  (* importKey('raw', key, AES-GCM) then encrypt({ name: 'AES-GCM', iv }, ..) *)
  aesGcmEncrypt : list byte -> list byte -> list byte -> Result (list byte);
  aesGcmDecrypt : list byte -> list byte -> list byte -> Result (list byte);
  (* JSON.parse(new TextDecoder().decode(bytes)).env *)
  parse : list byte -> Result (list Env)
}.

(** The randomness of one call: the key that
    [x25519.utils.randomPrivateKey()] returns, and the bytes that
    [crypto.getRandomValues] writes, by position in the array it fills. *)
Record Entropy := {
  privateKey : list byte;
  randomByte : nat -> byte
}.

(** [new Uint8Array(n)] *)
Definition newUint8Array (n : nat) : list byte := replicate n Byte.x00.

(** [crypto.getRandomValues(array)]: every element of the array is
    overwritten, and the array, which keeps its length, is returned. *)
Definition getRandomValues (rnd : Entropy) (array : list byte) : list byte :=
  imap (fun i _ => randomByte rnd i) array.

(** [const iv = crypto.getRandomValues(new Uint8Array(12))] *)
Definition iv (rnd : Entropy) : list byte := getRandomValues rnd (newUint8Array 12).
Arguments iv : simpl never.

(** [target.set(source, offset)] *)
Definition set (target source : list byte) (offset : nat) : Result (list byte) :=
  if (length target <? offset + length source)%nat
  then Throw RangeError
  else Ok (take offset target ++ source ++ drop (offset + length source) target).

Definition encryptSecrets (P : Platform) (rnd : Entropy)
    (envs : list Env) (pubkey : string) : Result string :=
  rethrow EncryptFailed (
    let envsJson := serialize P envs in
    let publicKey := getPublicKey P (privateKey rnd) in
    bind (hexToUint8Array pubkey) (fun remotePubkey =>
    bind (getSharedSecret P (privateKey rnd) remotePubkey) (fun shared =>
    bind (aesGcmEncrypt P shared (iv rnd) envsJson) (fun encrypted =>
    let result := newUint8Array (length publicKey + length (iv rnd) + length encrypted) in
    bind (set result publicKey 0) (fun result =>
    bind (set result (iv rnd) (length publicKey)) (fun result =>
    bind (set result encrypted (length publicKey + length (iv rnd))) (fun result =>
    Ok (uint8ArrayToHex result)))))))).

(** Modelled from the spec: the test-only decrypt helper, which is not in
    the sources. It slices the wire format
    [ephemeral_public_key(32) || nonce(12) || ciphertext_with_tag] at
    exactly these boundaries, derives the shared secret from the matching
    private key and opens the AEAD. *)
Definition decryptSecrets (P : Platform) (remotePrivateKey : list byte)
    (payload : string) : Result (list Env) :=
  bind (hexToUint8Array payload) (fun bytes =>
  let ephemeral := take 32 bytes in
  let nonce := take 12 (drop 32 bytes) in
  let ciphertext := drop 44 bytes in
  bind (getSharedSecret P remotePrivateKey ephemeral) (fun shared =>
  bind (aesGcmDecrypt P shared nonce ciphertext) (fun plain =>
  parse P plain))).

(** A small platform on which the definitions can be run: the public key
    is the private key padded or cut to 32 bytes, the shared secret is the
    bytewise exclusive or of the two keys, the cipher adds the key stream
    byte by byte and appends a 16-byte tag made of the first nonce byte,
    the serialisation ends every key and every value with a zero byte. *)
Module Toy.

Definition pad32 (k : list byte) : list byte := take 32 (k ++ replicate 32 Byte.x00).

Definition xorByte (a b : byte) : byte :=
  byte_of_Z (Z.lxor (Z_of_byte a) (Z_of_byte b)).

Definition xorBytes (a b : list byte) : list byte := zip_with xorByte a b.

Definition keyStream (k : list byte) (n : nat) : list byte :=
  take n (concat (replicate (S n) (Byte.x01 :: k))).

Definition tag (nonce : list byte) : list byte :=
  replicate 16 (default Byte.x00 (head nonce)).

Definition seal (k nonce plain : list byte) : Result (list byte) :=
  if negb (length k =? 32)%nat then Throw (External "key length")
  else Ok (xorBytes plain (keyStream k (length plain)) ++ tag nonce).

Definition open (k nonce sealed : list byte) : Result (list byte) :=
  let n := (length sealed - 16)%nat in
  if (length sealed <? 16)%nat then Throw (External "too short")
  else if negb (bool_decide (drop n sealed = tag nonce)) then Throw (External "tag")
  else Ok (xorBytes (take n sealed) (keyStream k n)).

Definition bytesOf (s : string) : list byte :=
  map (fun c => byte_of_Z (code c)) (list_ascii_of_string s).

Definition stringOf (bs : list byte) : string :=
  string_of_list_ascii (map (fun b => unit_of (Z_of_byte b)) bs).

Definition encodeEnvs (envs : list Env) : list byte :=
  flat_map (fun e => bytesOf (key e) ++ [Byte.x00] ++ bytesOf (value e) ++ [Byte.x00]) envs.

(** Splits at every zero byte; [cur] is the field being read, reversed. *)
Fixpoint fields (bs : list byte) (cur : list byte) : list (list byte) :=
  match bs with
  | [] => []
  | b :: bs' =>
    if bool_decide (b = Byte.x00) then rev cur :: fields bs' []
    else fields bs' (b :: cur)
  end.

Fixpoint pairUp (fs : list (list byte)) : list Env :=
  match fs with
  | k :: v :: rest => {| key := stringOf k; value := stringOf v |} :: pairUp rest
  | _ => []
  end.

Definition decodeEnvs (bs : list byte) : Result (list Env) := Ok (pairUp (fields bs [])).

Definition platform : Platform := {|
  serialize := encodeEnvs;
  getPublicKey := pad32;
  getSharedSecret := fun sk pk =>
    if negb (length pk =? 32)%nat then Throw (External "public key length")
    else Ok (xorBytes (pad32 sk) pk);
  aesGcmEncrypt := seal;
  aesGcmDecrypt := open;
  parse := decodeEnvs
|}.

(** Sample inputs. *)
Definition remotePrivateKey : list byte := bytesOf "remote-private-key".
Definition entropy : Entropy :=
  {| privateKey := bytesOf "ephemeral";
     randomByte := fun i => default Byte.x00 (bytesOf "123456789012" !! i) |}.
Definition secrets : list Env :=
  [ {| key := "API_KEY"; value := "s3cr3t" |}; {| key := "MODE"; value := "prod" |} ].
Definition sharedSecret : list byte :=
  xorBytes (pad32 (privateKey entropy)) (pad32 remotePrivateKey).
Definition sealedSecrets : list byte :=
  xorBytes (encodeEnvs secrets) (keyStream sharedSecret (length (encodeEnvs secrets)))
  ++ tag (iv entropy).

End Toy.

End SecretCodec.

(** ** PhalaCloud.parseEnv *)

Module EnvParser.
Import Js.
Export SecretCodec (Env, key, value, Build_Env).

(** What parseEnv and the callers of [fs.readFile] see of fs-extra. *)
Record FileSystem := {
  existsSync : string -> bool;
  readFileSync : string -> Result string;
  readFile : string -> Result string
}.

(** [s.split(sep)] for a separator of one code unit. *)
Fixpoint split (sep : ascii) (s : string) : list string :=
  match s with
  | EmptyString => [EmptyString]
  | String c s' =>
    if Ascii.eqb c sep then EmptyString :: split sep s'
    else match split sep s' with
         | piece :: pieces => String c piece :: pieces
         | [] => [String c EmptyString]
         end
  end.

(** [const [key, value] = env.split("=")]: a missing element is undefined. *)
Definition destructure2 (pieces : list string) : option string * option string :=
  (pieces !! 0%nat, pieces !! 1%nat).

Definition truthy (v : option string) : bool :=
  match v with
  | Some s => truthyString s
  | None => false
  end.

(** The pair that one entry assigns, if it assigns one:
    [if (env.includes("=")) { const [key, value] = env.split("=");
       if (key && value) ... }] *)
Definition binding (env : string) : option (string * string) :=
  if includes env "=" then
    match destructure2 (split "=" env) with
    | (Some k, Some v) => if truthyString k && truthyString v then Some (k, v) else None
    | _ => None
    end
  else None.

(** The object [envVars], created by the literal [{}]: its own properties
    with their values, in the order in which they were created. *)
Definition JsObject : Type := list (string * string).

(** The value of the own property [k]. *)
Fixpoint get (envVars : JsObject) (k : string) : option string :=
  match envVars with
  | [] => None
  | (k', v) :: rest => if String.eqb k' k then Some v else get rest k
  end.

(** Creates the own property [k], after the ones that exist, or overwrites
    its value where it stands. *)
Fixpoint put (envVars : JsObject) (k v : string) : JsObject :=
  match envVars with
  | [] => [(k, v)]
  | (k', v') :: rest =>
    if String.eqb k' k then (k', v) :: rest else (k', v') :: put rest k v
  end.

(** [envVars[key] = value]. The object inherits the accessor [__proto__]
    of Object.prototype, whose setter ignores a string, so that this one
    name is never stored; every other name becomes or overwrites an own
    property. *)
Definition assign (envVars : JsObject) (k v : string) : JsObject :=
  if String.eqb k "__proto__" then envVars else put envVars k v.

Definition parseLines (lines : list string) (envVars : JsObject) : JsObject :=
  foldl (fun acc env =>
           match binding env with
           | Some (k, v) => assign acc k v
           | None => acc
           end) envVars lines.

(** The line feed, the separator of [envFileContent.split("\n")]. *)
Definition lineFeed : ascii := Ascii.ascii_of_nat 10.

(** The object [envVars] at the end of parseEnv. *)
Definition parseEnvVars (fs : FileSystem) (envs : list string) (envFile : string)
    : Result JsObject :=
  let envVars := parseLines envs [] in
  if truthyString envFile && existsSync fs envFile then
    bind (readFileSync fs envFile) (fun envFileContent =>
    Ok (parseLines (split lineFeed envFileContent) envVars))
  else Ok envVars.

(** The array index that a property name denotes, if it denotes one: the
    name is the decimal numeral, without sign and without leading zero, of
    an integer from 0 to 2^32 - 2. *)
Definition digit (c : ascii) : option N :=
  let n := Ascii.N_of_ascii c in
  if ((48 <=? n) && (n <=? 57))%N then Some (n - 48)%N else None.

Fixpoint decimal (s : string) (acc : N) : option N :=
  match s with
  | EmptyString => Some acc
  | String c s' =>
    match digit c with
    | Some d => decimal s' (10 * acc + d)%N
    | None => None
    end
  end.

Definition arrayIndex (k : string) : option N :=
  match k with
  | EmptyString => None
  | String c rest =>
    if Ascii.eqb c "0" then (if String.eqb rest "" then Some 0%N else None)
    else match decimal k 0 with
         | Some n => if (n <=? 4294967294)%N then Some n else None
         | None => None
         end
  end.

(** The order of the own properties of an ordinary object: the names that
    are array indices, by ascending index, then the other names, in the
    order of their creation. *)
Fixpoint insertByIndex (x : N * (string * string)) (sorted : list (N * (string * string)))
    : list (N * (string * string)) :=
  match sorted with
  | [] => [x]
  | y :: rest => if (x.1 <=? y.1)%N then x :: sorted else y :: insertByIndex x rest
  end.

Definition indexed (envVars : JsObject) : list (N * (string * string)) :=
  omap (fun kv => (fun n => (n, kv)) <$> arrayIndex kv.1) envVars.

Definition named (envVars : JsObject) : list (string * string) :=
  List.filter (fun kv => match arrayIndex kv.1 with Some _ => false | None => true end)
    envVars.

Definition ownProperties (envVars : JsObject) : list (string * string) :=
  (foldr insertByIndex [] (indexed envVars)).*2 ++ named envVars.

(** [Object.entries(envVars).map(([key, value]) => ({ key, value }))] *)
Definition entries (envVars : JsObject) : list Env :=
  (fun kv => {| key := kv.1; value := kv.2 |}) <$> ownProperties envVars.

Definition parseEnv (fs : FileSystem) (envs : list string) (envFile : string)
    : Result (list Env) :=
  bind (parseEnvVars fs envs envFile) (fun envVars => Ok (entries envVars)).

(** The shapes of an entry that assigns nothing: no separator, nothing
    before the first separator, nothing between the first separator and
    the second or the end. *)
Inductive Dropped : string -> Prop :=
| NoSeparator (e : string) : includes e "=" = false -> Dropped e
| EmptyKey (rest : string) : Dropped (String "=" rest)
| EmptyValueLast (K : string) : includes K "=" = false -> Dropped (K +:+ "=")
| EmptyValue (K rest : string) :
    includes K "=" = false -> Dropped (K +:+ String "=" (String "=" rest)).

(** The shapes of an entry that assigns [V] to [K]: K=V and K=V=rest, where
    neither K nor V is empty or holds a separator. *)
Inductive Assigns : string -> string -> string -> Prop :=
| AssignsWhole (K V : string) :
    K <> "" -> V <> "" -> includes K "=" = false -> includes V "=" = false ->
    Assigns (K +:+ String "=" V) K V
| AssignsCut (K V rest : string) :
    K <> "" -> V <> "" -> includes K "=" = false -> includes V "=" = false ->
    Assigns (K +:+ String "=" (V +:+ String "=" rest)) K V.

(** No entry of the list starts with [K=]. *)
Definition unbound (K : string) (lines : list string) : Prop :=
  Forall (fun line => startsWith line (K +:+ "=") = false) lines.

(** The content of a file made of these lines. *)
Fixpoint joinLines (lines : list string) : string :=
  match lines with
  | [] => EmptyString
  | [line] => line
  | line :: rest => line +:+ String lineFeed (joinLines rest)
  end.

(** There is a file at the path [envFile] and it is made of these lines,
    none of which holds a line feed. *)
Definition holdsLines (fs : FileSystem) (envFile : string) (lines : list string) : Prop :=
  envFile <> "" /\ existsSync fs envFile = true /\
  readFileSync fs envFile = Ok (joinLines lines) /\
  Forall (fun line => includes line (String lineFeed "") = false) lines.

(** parseEnv reads no file: no path is given, or nothing is at the path. *)
Definition noFile (fs : FileSystem) (envFile : string) : Prop :=
  envFile = "" \/ existsSync fs envFile = false.

(** A file system with one file, [.env], that binds [A]. *)
Definition sampleFs : FileSystem := {|
  existsSync := fun path => String.eqb path ".env";
  readFileSync := fun path =>
    if String.eqb path ".env" then Ok "A=file" else Throw (External "ENOENT");
  readFile := fun path => Ok "services: {}"
|}.

(** A file system whose [.env] has six lines. *)
Definition layeredLines : list string :=
  ["# staging"; "A=file"; "B=1=2"; "C="; "=x"; "D=last"].

Definition layeredFs : FileSystem := {|
  existsSync := fun path => String.eqb path ".env";
  readFileSync := fun path =>
    if String.eqb path ".env" then Ok (joinLines layeredLines)
    else Throw (External "ENOENT");
  readFile := fun path => Ok "services: {}"
|}.

End EnvParser.

(** ** PhalaCloud.monitorDeploymentStatus *)

Module Monitor.
Import Js.

(** [GetCvmByAppIdResponse], with the fields the SDK reads or writes. *)
Record Cvm := {
  id : string;
  status : string;
  app_url : option string;
  encrypted_env_pubkey : option string
}.

(** The answer of [/network]: [public_urls[i].app]. *)
Record NetworkInfo := {
  public_urls : option (list (option string))
}.

Record Options := {
  interval : option Z;
  maxRetries : option Z;
  queryTimeout : option Z;
  onStatusChange : bool;
  onSuccess : bool;
  onFailure : bool;
  onTimeout : bool;
  onError : bool
}.

(** The environment of one run: the [n]-th status query (from 0) settles
    as [getCvmByAppId n], the network query as [getCvmNetwork], and the
    [n]-th reading of [Date.now()] is [now n]. *)
Record Remote := {
  getCvmByAppId : nat -> Result Cvm;
  getCvmNetwork : Result (option NetworkInfo);
  now : nat -> Z
}.

Inductive Event :=
| StatusQuery (timeout : Z)
| NetworkQuery
| StatusChange (status : string) (cvm : Cvm)
| Success (cvm : Cvm)
| Failure (status : string) (cvm : Cvm)
| Timeout (cvm : option Cvm)
| Error (error : JsError)
| Sleep (ms : Q).

(** The variables of the function body, the counters of the oracles and
    the events so far, oldest first. *)
Record PollingSession := {
  retryCount : Z;
  deploymentSuccessful : bool;
  lastStatus : string;
  finalCvm : option Cvm;
  consecutiveErrors : Z;
  queries : nat;
  clockReads : nat;
  trace : list Event
}.

Definition maxConsecutiveErrors : Z := 3.

Definition initial : PollingSession := {|
  retryCount := 0;
  deploymentSuccessful := false;
  lastStatus := "";
  finalCvm := None;
  consecutiveErrors := 0;
  queries := 0;
  clockReads := 0;
  trace := []
|}.

Definition emit (present : bool) (e : Event) (t : list Event) : list Event :=
  if present then t ++ [e] else t.

(** [finalCvm.app_url = networkInfo.public_urls[0].app] under its guard. *)
Definition enrich (cvm : Cvm) (net : Result (option NetworkInfo)) : Cvm :=
  match net with
  | Ok (Some {| public_urls := Some (app :: _) |}) =>
    {| id := id cvm; status := status cvm; app_url := app;
       encrypted_env_pubkey := encrypted_env_pubkey cvm |}
  | _ => cvm
  end.

Inductive Exit := Falls | Breaks.

Section Run.
Variable options : Options.
Variable remote : Remote.

Definition interval' : Z := default 5000 (interval options).
Definition maxRetries' : Z := default 36 (maxRetries options).
Definition queryTimeout' : Z := default 8000 (queryTimeout options).

(** [interval * waitMultiplier] *)
Definition targetWaitTime (thisLoopHadError : bool) : Q :=
  inject_Z interval' * (if thisLoopHadError then 1 # 2 else 1).

(** [Math.max(0, targetWaitTime - elapsedTime)] *)
Definition remainingWaitTime (thisLoopHadError : bool) (elapsedTime : Z) : Q :=
  Qmax 0 (targetWaitTime thisLoopHadError - inject_Z elapsedTime).

(** The [try] block after a query that resolved with [cvm]. *)
Definition onResolved (s : PollingSession) (cvm : Cvm) : PollingSession * Exit :=
  let changed := negb (String.eqb (lastStatus s) (status cvm)) in
  let lastStatus1 := if changed then status cvm else lastStatus s in
  let trace1 := if changed
                then emit (onStatusChange options) (StatusChange (status cvm) cvm) (trace s)
                else trace s in
  if String.eqb (toLowerCase (status cvm)) "running" then
    let final := enrich cvm (getCvmNetwork remote) in
    ({| retryCount := retryCount s; deploymentSuccessful := true;
        lastStatus := lastStatus1; finalCvm := Some final;
        consecutiveErrors := 0; queries := queries s; clockReads := clockReads s;
        trace := emit (onSuccess options) (Success final) (trace1 ++ [NetworkQuery]) |},
     Breaks)
  else if includes (toLowerCase (status cvm)) "error"
          || includes (toLowerCase (status cvm)) "fail" then
    ({| retryCount := retryCount s; deploymentSuccessful := deploymentSuccessful s;
        lastStatus := lastStatus1; finalCvm := Some cvm;
        consecutiveErrors := 0; queries := queries s; clockReads := clockReads s;
        trace := emit (onFailure options) (Failure (status cvm) cvm) trace1 |},
     Breaks)
  else
    ({| retryCount := retryCount s; deploymentSuccessful := deploymentSuccessful s;
        lastStatus := lastStatus1; finalCvm := Some cvm;
        consecutiveErrors := 0; queries := queries s; clockReads := clockReads s;
        trace := trace1 |},
     Falls).

(** The [catch] block after a query that rejected with [error]. *)
Definition onRejected (s : PollingSession) (error : JsError) : PollingSession :=
  let errors1 := consecutiveErrors s + 1 in
  let trace1 := emit (onError options) (Error error) (trace s) in
  let pause := maxConsecutiveErrors <=? errors1 in
  {| retryCount := retryCount s; deploymentSuccessful := deploymentSuccessful s;
     lastStatus := lastStatus s; finalCvm := finalCvm s;
     consecutiveErrors := if pause then Z.max 0 (errors1 - 1) else errors1;
     queries := queries s; clockReads := clockReads s;
     trace := if pause then trace1 ++ [Sleep (inject_Z (interval' * 2))] else trace1 |}.

(** The statements after the [try] statement. *)
Definition afterTry (s : PollingSession) (startTime : Z) (thisLoopHadError : bool)
    : PollingSession :=
  let retryCount1 := retryCount s + 1 in
  let elapsedTime := now remote (clockReads s) - startTime in
  let wait := (retryCount1 <? maxRetries') && negb (deploymentSuccessful s) in
  {| retryCount := retryCount1; deploymentSuccessful := deploymentSuccessful s;
     lastStatus := lastStatus s; finalCvm := finalCvm s;
     consecutiveErrors := consecutiveErrors s;
     queries := queries s; clockReads := S (clockReads s);
     trace := if wait
              then trace s ++ [Sleep (remainingWaitTime thisLoopHadError elapsedTime)]
              else trace s |}.

(** One execution of the loop body. *)
Definition iteration (s : PollingSession) : PollingSession * Exit :=
  let startTime := now remote (clockReads s) in
  let s1 := {| retryCount := retryCount s; deploymentSuccessful := deploymentSuccessful s;
               lastStatus := lastStatus s; finalCvm := finalCvm s;
               consecutiveErrors := consecutiveErrors s;
               queries := S (queries s); clockReads := S (clockReads s);
               trace := trace s ++ [StatusQuery queryTimeout'] |} in
  match getCvmByAppId remote (queries s) with
  | Ok cvm =>
    match onResolved s1 cvm with
    | (s2, Breaks) => (s2, Breaks)
    | (s2, Falls) => (afterTry s2 startTime false, Falls)
    end
  | Throw error => (afterTry (onRejected s1 error) startTime true, Falls)
  end.

(** [while (retryCount < maxRetries && !deploymentSuccessful) { ... }];
    [None] when the fuel runs out. *)
Fixpoint loop (fuel : nat) (s : PollingSession) : option PollingSession :=
  if (retryCount s <? maxRetries') && negb (deploymentSuccessful s) then
    match fuel with
    | O => None
    | S fuel' =>
      match iteration s with
      | (s', Breaks) => Some s'
      | (s', Falls) => loop fuel' s'
      end
    end
  else Some s.

(** The statements after the loop: the timeout sink, then the value
    returned. *)
Definition finish (s : PollingSession) : option Cvm * list Event :=
  (finalCvm s,
   if (maxRetries' <=? retryCount s) && negb (deploymentSuccessful s)
   then emit (onTimeout options) (Timeout (finalCvm s)) (trace s)
   else trace s).

Definition monitorDeploymentStatus : option (option Cvm * list Event) :=
  finish <$> loop (Z.to_nat maxRetries') initial.

(** The sessions at which the loop condition is tested in the run. *)
Inductive Reachable : PollingSession -> Prop :=
| ReachInitial : Reachable initial
| ReachNext (s s' : PollingSession) :
    Reachable s ->
    (retryCount s <? maxRetries') && negb (deploymentSuccessful s) = true ->
    iteration s = (s', Falls) ->
    Reachable s'.
End Run.

(** The wait that ends an iteration begun in [s] when the loop goes on:
    [if (retryCount < maxRetries && !deploymentSuccessful) await
    setTimeout(remainingWaitTime)], after the increment of [retryCount]. *)
Definition waitOf (options : Options) (remote : Remote) (s : PollingSession)
    (thisLoopHadError : bool) : list Event :=
  if (retryCount s + 1 <? maxRetries' options) && negb (deploymentSuccessful s)
  then [Sleep (remainingWaitTime options thisLoopHadError
                 (now remote (S (clockReads s)) - now remote (clockReads s)))]
  else [].

(** The report of a status that differs from the last one seen:
    [if (lastStatus !== cvm.status) { ...; if (onStatusChange)
    onStatusChange(cvm.status, cvm) }]. *)
Definition changeOf (options : Options) (s : PollingSession) (cvm : Cvm) : list Event :=
  if negb (String.eqb (lastStatus s) (status cvm)) && onStatusChange options
  then [StatusChange (status cvm) cvm]
  else [].

(** The three kinds of status the loop tells apart. *)
Definition isRunning (cvm : Cvm) : bool :=
  String.eqb (toLowerCase (status cvm)) "running".
Definition isFailed (cvm : Cvm) : bool :=
  includes (toLowerCase (status cvm)) "error" || includes (toLowerCase (status cvm)) "fail".

(** Projections of a trace: the arguments of each sink, in order. *)
Definition statusChangesOf (t : list Event) : list (string * Cvm) :=
  omap (fun e => match e with StatusChange st cvm => Some (st, cvm) | _ => None end) t.
Definition successesOf (t : list Event) : list Cvm :=
  omap (fun e => match e with Success cvm => Some cvm | _ => None end) t.
Definition failuresOf (t : list Event) : list (string * Cvm) :=
  omap (fun e => match e with Failure st cvm => Some (st, cvm) | _ => None end) t.
Definition timeoutsOf (t : list Event) : list (option Cvm) :=
  omap (fun e => match e with Timeout cvm => Some cvm | _ => None end) t.
Definition errorsOf (t : list Event) : list JsError :=
  omap (fun e => match e with Error err => Some err | _ => None end) t.
Definition queriesOf (t : list Event) : list Z :=
  omap (fun e => match e with StatusQuery timeout => Some timeout | _ => None end) t.

(** The invocations of the sinks, in order: the trace without the queries
    and the waits. *)
Definition sinkCallsOf (t : list Event) : list Event :=
  omap (fun e => match e with
                 | StatusQuery _ | NetworkQuery | Sleep _ => None
                 | _ => Some e
                 end) t.

(** The scripted scenarios of the specification: every sink records, the
    clock stands still, the network query yields nothing. *)
Definition recording (maxRetries : Z) : Options := {|
  interval := None; maxRetries := Some maxRetries; queryTimeout := None;
  onStatusChange := true; onSuccess := true; onFailure := true;
  onTimeout := true; onError := true
|}.

Definition snapshot (id status : string) : Cvm :=
  {| id := id; status := status; app_url := None; encrypted_env_pubkey := None |}.

Definition scripted (answers : nat -> Result Cvm) : Remote :=
  {| getCvmByAppId := answers; getCvmNetwork := Ok None; now := fun _ => 0 |}.

(** Statuses starting, starting, running. *)
Definition startingStartingRunning (n : nat) : Result Cvm :=
  match n with
  | 0%nat => Ok (snapshot "poll-1" "starting")
  | 1%nat => Ok (snapshot "poll-2" "starting")
  | _ => Ok (snapshot "poll-3" "running")
  end.

(** A status query that always fails in the transport. *)
Definition alwaysFails (n : nat) : Result Cvm := Throw (External "ECONNABORTED").

(** The same scenarios with an interval given by the caller, with a network
    query that publishes the URL of the application, and with a clock that
    advances by 300 ms from one reading to the next. *)
Definition every (interval maxRetries : Z) : Options := {|
  interval := Some interval; maxRetries := Some maxRetries; queryTimeout := None;
  onStatusChange := true; onSuccess := true; onFailure := true;
  onTimeout := true; onError := true
|}.

Definition published (answers : nat -> Result Cvm) : Remote :=
  {| getCvmByAppId := answers;
     getCvmNetwork := Ok (Some {| public_urls := Some [Some "https://app.example"] |});
     now := fun _ => 0 |}.

Definition ticking (answers : nat -> Result Cvm) : Remote :=
  {| getCvmByAppId := answers; getCvmNetwork := Ok None;
     now := fun n => 300 * Z.of_nat n |}.

(** A first query that fails in the transport, then the status starting. *)
Definition failsThenStarting (n : nat) : Result Cvm :=
  match n with
  | 0%nat => Throw (External "ECONNABORTED")
  | _ => Ok (snapshot "poll" "starting")
  end.

End Monitor.

(** ** PhalaCloud.deploy, listTeepods, upgrade, updateCompose *)

Module Submitter.
Import Js EnvParser.
Export Monitor (Cvm, Build_Cvm, encrypted_env_pubkey).

Record Teepod := {
  teepod_id : Z;            (* teepod.id *)
  available : bool;         (* truthiness of teepod.available *)
  teepod_status : string    (* teepod.status *)
}.

(** The body answered by [/api/v1/teepods]. *)
Record TeepodsResponse := { data : option (list Teepod) }.

Record DeployOptions := {
  type : string;
  mode : string;
  name : string;
  compose : string;
  env : option (list string);
  envFile : option string;
  vcpu : option Z;
  memory : option Z;
  diskSize : option Z;
  teepodId : option Z;
  image : option string
}.

(** [vm_config]; the constant members of [compose_manifest] are left out. *)
Record VmConfig := {
  cfg_teepod_id : Z;
  cfg_name : string;
  cfg_image : string;
  cfg_vcpu : Z;
  cfg_memory : Z;
  cfg_disk_size : Z;
  cfg_docker_compose_file : string
}.

Record PubkeyResponse := {
  app_env_encrypt_pubkey : option string;
  app_id_salt : option string
}.

(** [final_payload] of deploy. *)
Record DeployPayload := {
  vm_config : VmConfig;
  encrypted_env : string;
  payload_pubkey : string;
  payload_salt : option string
}.

Record CreateCvmResponse := { app_id : string; created_url : string }.

Record UpgradeOptions := {
  up_name : string;
  up_compose : string;
  up_env : option (list string);
  up_envFile : option string
}.

(** [final_payload] of upgrade and [payload] of updateCompose. *)
Record ComposePayload := {
  manifest_name : string;
  docker_compose_file : string;
  compose_encrypted_env : string;
  allow_restart : Z
}.

Record UpdateComposeOptions := {
  identifier : string;
  uc_compose : string;
  uc_env : option (list string);
  uc_envFile : option string;
  allowRestart : option bool
}.

(** Every effect of the three operations that leaves the process or calls
    the codec. *)
Inductive Call :=
| ReadFile (path : string)
| GetTeepods
| PostPubkey (config : VmConfig)
| Encrypt (envs : list Env) (pubkey : string)
| PostCreate (payload : DeployPayload)
| GetCvm (appId : string)
| PostCompose (appId : string) (payload : ComposePayload)
| PutCompose (identifier : string) (payload : ComposePayload).

(** The remote service seen through ApiClient: the settlement of each
    request after the transport's retries. *)
Record Cloud := {
  getTeepods : Result (option TeepodsResponse);
  postPubkey : VmConfig -> Result (option PubkeyResponse);
  postCreate : DeployPayload -> Result CreateCvmResponse;
  getCvm : string -> Result Cvm;
  postCompose : string -> ComposePayload -> Result string;
  putCompose : string -> ComposePayload -> Result string
}.

(** A computation that appends to the list of calls and returns or throws. *)
Definition Eff (A : Type) : Type := list Call -> Result A * list Call.

Definition ret {A} (a : A) : Eff A := fun t => (Ok a, t).
Definition throw {A} (e : JsError) : Eff A := fun t => (Throw e, t).
Definition lift {A} (r : Result A) : Eff A := fun t => (r, t).
Definition call {A} (c : Call) (r : Result A) : Eff A := fun t => (r, t ++ [c]).
Definition bindE {A B} (m : Eff A) (k : A -> Eff B) : Eff B :=
  fun t => match m t with
           | (Ok a, t') => k a t'
           | (Throw e, t') => (Throw e, t')
           end.
Definition catch {A} (m : Eff A) (wrap : JsError -> JsError) : Eff A :=
  fun t => match m t with
           | (Throw e, t') => (Throw (wrap e), t')
           | r => r
           end.

Notation "x <- m ;; k" := (bindE m (fun x => k))
  (at level 100, m at next level, right associativity).

Definition run {A} (m : Eff A) : Result A * list Call := m [].

(** [s.replace(pattern, '')]: the first occurrence only. *)
Fixpoint removeFirst (pattern s : string) : string :=
  if String.prefix pattern s
  then String.substring (String.length pattern) (String.length s - String.length pattern)%nat s
  else match s with
       | EmptyString => EmptyString
       | String c s' => String c (removeFirst pattern s')
       end.

Section Operations.
Variable fs : FileSystem.
Variable cloud : Cloud.
(** [encryptSecrets] with its platform and its random draws fixed. *)
Variable encryptSecrets : list Env -> string -> Result string.

Definition listTeepods : Eff (list Teepod) :=
  catch (response <- call GetTeepods (getTeepods cloud) ;;
         match response with
         | Some r => ret (default [] (data r))
         | None => throw (External "Cannot read properties of null")
         end)
        ListTeepodsFailed.

(** [teepods.filter(teepod => teepod.available && teepod.status === 'online')] *)
Definition availableTeepods (teepods : list Teepod) : list Teepod :=
  List.filter (fun t => available t && String.eqb (teepod_status t) "online") teepods.

(** The block guarded by [if (!teepodId)]. *)
Definition resolveTeepod : Eff Z :=
  catch (teepods <- listTeepods ;;
         if (length teepods =? 0)%nat then throw NoTeepodsFound
         else match availableTeepods teepods with
              | [] => throw NoTeepodsAvailable
              | first :: _ => ret (teepod_id first)
              end)
        TeepodQueryFailed.

(** [if (options.envs && options.envs.length > 0) encrypted_env = await
    encryptSecrets(...)], with the further condition of the callers. *)
Definition encryptIf (condition : bool) (envs : list Env) (pubkey : string) : Eff string :=
  if (0 <? length envs)%nat && condition
  then call (Encrypt envs pubkey) (encryptSecrets envs pubkey)
  else ret EmptyString.

Definition deploy (options : DeployOptions) : Eff CreateCvmResponse :=
  if negb (truthyString (type options)) || negb (String.eqb (type options) "phala")
  then throw TypeRequired
  else if negb (truthyString (mode options))
          || negb (String.eqb (mode options) "docker-compose")
  then throw ModeRequired
  else if negb (truthyString (name options)) then throw NameRequired
  else if negb (truthyString (compose options)) then throw ComposeRequired
  else
    envs <- lift (parseEnv fs (default [] (env options)) (orString (envFile options) "")) ;;
    composeContent <- call (ReadFile (compose options)) (readFile fs (compose options)) ;;
    let teepodId := orNumber (teepodId options) 3 in
    teepodId <- (if negb (truthyNumber teepodId) then resolveTeepod else ret teepodId) ;;
    let vm_config := {|
      cfg_teepod_id := teepodId;
      cfg_name := name options;
      cfg_image := orString (image options) "dstack-dev-0.3.5";
      cfg_vcpu := orNumber (vcpu options) 1;
      cfg_memory := orNumber (memory options) 2048;
      cfg_disk_size := orNumber (diskSize options) 40;
      cfg_docker_compose_file := composeContent |} in
    pubkeyResponse <- call (PostPubkey vm_config) (postPubkey cloud vm_config) ;;
    match pubkeyResponse with
    | Some {| app_env_encrypt_pubkey := Some pubkey; app_id_salt := salt |} =>
      if truthyString pubkey then
        encrypted_env <- encryptIf true envs pubkey ;;
        let final_payload := {|
          vm_config := vm_config;
          encrypted_env := encrypted_env;
          payload_pubkey := pubkey;
          payload_salt := salt |} in
        call (PostCreate final_payload) (postCreate cloud final_payload)
      else throw NoPubkey
    | _ => throw NoPubkey
    end.

(** [cvm.encrypted_env_pubkey] as a condition. *)
Definition hasPubkey (cvm : Cvm) : bool := truthy (encrypted_env_pubkey cvm).

Definition upgrade (options : UpgradeOptions) : Eff string :=
  if negb (truthyString (up_name options)) then throw NameRequired
  else if negb (truthyString (up_compose options)) then throw ComposeRequired
  else
    envs <- lift (parseEnv fs (default [] (up_env options))
                    (orString (up_envFile options) "")) ;;
    composeContent <- call (ReadFile (up_compose options))
                           (readFile fs (up_compose options)) ;;
    cvm <- call (GetCvm (up_name options)) (getCvm cloud (up_name options)) ;;
    encrypted_env <- encryptIf (hasPubkey cvm) envs
                       (default EmptyString (encrypted_env_pubkey cvm)) ;;
    let final_payload := {|
      manifest_name := String.append "app_" (up_name options);
      docker_compose_file := composeContent;
      compose_encrypted_env := encrypted_env;
      allow_restart := 1 |} in
    call (PostCompose (up_name options) final_payload)
         (postCompose cloud (up_name options) final_payload).

Definition updateCompose (options : UpdateComposeOptions) : Eff string :=
  if negb (truthyString (identifier options)) then throw IdentifierRequired
  else if negb (truthyString (uc_compose options)) then throw ComposeRequired
  else
    envs <- lift (parseEnv fs (default [] (uc_env options))
                    (orString (uc_envFile options) "")) ;;
    composeContent <- call (ReadFile (uc_compose options))
                           (readFile fs (uc_compose options)) ;;
    let identifier' :=
      if startsWith (identifier options) "app_" then identifier options
      else String.append "app_" (identifier options) in
    let appId := removeFirst "app_" (identifier options) in
    cvm <- call (GetCvm appId) (getCvm cloud appId) ;;
    encrypted_env <- encryptIf (hasPubkey cvm) envs
                       (default EmptyString (encrypted_env_pubkey cvm)) ;;
    let payload := {|
      manifest_name := identifier';
      docker_compose_file := composeContent;
      compose_encrypted_env := encrypted_env;
      allow_restart := match allowRestart options with
                       | Some false => 0
                       | _ => 1
                       end |} in
    call (PutCompose identifier' payload) (putCompose cloud identifier' payload).
End Operations.

(** Sample inputs: a service with one teepod, number 7, available and
    online, and with one deployment that has no encryption key; a service
    whose only teepod is offline; a deployment request that pins no
    teepod; an upgrade with one secret. *)
Definition sampleCloud (teepods : list Teepod) : Cloud := {|
  getTeepods := Ok (Some {| data := Some teepods |});
  postPubkey := fun _ =>
    Ok (Some {| app_env_encrypt_pubkey := Some Hex.zeroLedKey; app_id_salt := Some "salt" |});
  postCreate := fun payload =>
    Ok {| app_id := cfg_name (vm_config payload); created_url := "https://example" |};
  getCvm := fun appId => Ok (Monitor.snapshot appId "running");
  postCompose := fun _ _ => Ok "accepted";
  putCompose := fun _ _ => Ok "accepted"
|}.

Definition oneOnline : list Teepod :=
  [ {| teepod_id := 7; available := true; teepod_status := "online" |} ].
Definition noneOnline : list Teepod :=
  [ {| teepod_id := 7; available := false; teepod_status := "offline" |} ].

Definition unpinned : DeployOptions := {|
  type := "phala"; mode := "docker-compose"; name := "my-app";
  compose := "docker-compose.yml"; env := None; envFile := None;
  vcpu := None; memory := None; diskSize := None; teepodId := None; image := None
|}.

Definition unpinnedConfig : VmConfig := {|
  cfg_teepod_id := 3; cfg_name := "my-app"; cfg_image := "dstack-dev-0.3.5";
  cfg_vcpu := 1; cfg_memory := 2048; cfg_disk_size := 40;
  cfg_docker_compose_file := "services: {}"
|}.

Definition unpinnedPayload : DeployPayload := {|
  vm_config := unpinnedConfig; encrypted_env := "";
  payload_pubkey := Hex.zeroLedKey; payload_salt := Some "salt"
|}.

Definition noEncryption : list Env -> string -> Result string :=
  fun _ _ => Throw (External "not called").

Definition sampleUpgrade : UpgradeOptions := {|
  up_name := "my-app"; up_compose := "docker-compose.yml";
  up_env := Some ["KEY=new"]; up_envFile := None
|}.

Definition sampleUpdate : UpdateComposeOptions := {|
  identifier := "app_my-app"; uc_compose := "docker-compose.yml";
  uc_env := Some ["KEY=new"]; uc_envFile := None; allowRestart := None
|}.

End Submitter.

(** ** ApiClient.executeWithRetry *)

Module Retry.

(** What axios rejects with: [err.response] is undefined for a network
    failure and carries the HTTP status otherwise. *)
Record AxiosError := {
  response : option Z;   (* err.response.status, when a response exists *)
  message : string
}.

(** One settlement of [reqFunction()]. *)
Inductive Settled (T : Type) :=
| Resolved (data : T)
| Rejected (err : AxiosError).
Arguments Resolved {T} data.
Arguments Rejected {T} err.

(** What the caller of [executeWithRetry] observes. [lastError] starts out
    undefined, hence the [option]. *)
Inductive Outcome (T : Type) :=
| Returned (data : T)
| Thrown (lastError : option AxiosError)
| OutOfFuel.
Arguments Returned {T} data.
Arguments Thrown {T} lastError.
Arguments OutOfFuel {T}.

(** Observable effects of one run: how often [reqFunction] was invoked and
    the [setTimeout] delays, oldest first. *)
Record Effects := {
  calls : nat;
  delays : list Z
}.

(** [!err.response || (err.response && err.response.status >= 500)] *)
Definition shouldRetry (err : AxiosError) : bool :=
  match response err with
  | None => true
  | Some status => 500 <=? status
  end.

(** [Math.pow(2, retryCount) * 1000] *)
Definition delay (retryCount : Z) : Z := 2 ^ retryCount * 1000.

Section Loop.
Context {T : Type}.
Variable maxRetries : Z.
(** The [n]-th invocation of [reqFunction] (from 0) settles as
    [reqFunction n]. *)
Variable reqFunction : nat -> Settled T.

Fixpoint loop (fuel : nat) (retryCount : Z) (lastError : option AxiosError)
    (eff : Effects) : Outcome T * Effects :=
  match fuel with
  | O => (OutOfFuel, eff)
  | S fuel' =>
    if retryCount <=? maxRetries then
      let eff1 :=
        if 0 <? retryCount
        then {| calls := calls eff; delays := delays eff ++ [delay retryCount] |}
        else eff in
      let eff2 := {| calls := S (calls eff1); delays := delays eff1 |} in
      match reqFunction (calls eff1) with
      | Resolved data => (Returned data, eff2)
      | Rejected err =>
        if shouldRetry err && (retryCount <? maxRetries)
        then loop fuel' (retryCount + 1) (Some err) eff2
        else (Thrown (Some err), eff2)
      end
    else (Thrown lastError, eff)
  end.

Definition executeWithRetry : Outcome T * Effects :=
  loop (S (Z.to_nat (maxRetries + 1))) 0 None {| calls := 0; delays := [] |}.
End Loop.

(** Vocabulary of the statements about a run. *)

(** What the caller observes when the run ends with the settlement [s]. *)
Definition settle {T} (s : Settled T) : Outcome T :=
  match s with
  | Resolved data => Returned data
  | Rejected err => Thrown (Some err)
  end.

(** The delay slept before attempt number [j]: none before the first. *)
Definition delayBefore (j : nat) : list Z :=
  if 0 <? Z.of_nat j then [delay (Z.of_nat j)] else [].

(** The delays of a run with [k] retries: [delay 1], ..., [delay k]. *)
Definition backoff (k : nat) : list Z :=
  map (fun j => delay (Z.of_nat j)) (seq 1 k).

(** A rejection the policy retries: no response, or a status of 500 or more. *)
Definition transient {T} (s : Settled T) : Prop :=
  exists err, s = Rejected err /\
    (response err = None \/ exists status, response err = Some status /\ 500 <= status).

(** Scripts of the two examples of the specification. *)
Definition err404 : AxiosError := {| response := Some 404; message := "Not Found" |}.
Definition err503 : AxiosError := {| response := Some 503; message := "Service Unavailable" |}.
Definition always {T} (err : AxiosError) : nat -> Settled T := fun _ => Rejected err.

End Retry.

(** ** src/utils/crypto.ts: the alphabet of the codec *)

Module HexText.
Import Js Hex.

(** The digits that [b.toString(16)] writes. *)
Definition isLowerHex (c : ascii) : bool :=
  let n := code c in
  ((48 <=? n) && (n <=? 57)) || ((97 <=? n) && (n <=? 102)).

(** The digits that [parseInt(_, 16)] reads. *)
Definition isHexDigit (c : ascii) : bool :=
  match hexDigit c with
  | Some _ => true
  | None => false
  end.

Fixpoint allChars (p : ascii -> bool) (s : string) : bool :=
  match s with
  | EmptyString => true
  | String c s' => p c && allChars p s'
  end.

Definition hexChars : list ascii := list_ascii_of_string "0123456789abcdefABCDEF".

(** The check that the encoding of [b] is written in lower-case digits. *)
Definition encodesLower (b : byte) : bool := allChars isLowerHex (padStart2 (toString16 b)).

(** The check that a pair of digits, decoded and encoded again, comes back
    in lower case. *)
Definition pairNormalises (c1 c2 : ascii) : bool :=
  String.eqb
    (padStart2 (toString16 (toUint8 (parseInt16 (String c1 (String c2 EmptyString))))))
    (String (lowerUnit c1) (String (lowerUnit c2) EmptyString)).

End HexText.

(** ** ApiClient.executeWithRetry: the time spent waiting *)

Module RetryBudget.

(** The sum of the delays of a run, in milliseconds. *)
Definition totalDelay (delays : list Z) : Z := foldr Z.add 0 delays.

End RetryBudget.

(** ** ApiClient.get, post, put and the requests PhalaCloud builds *)

Module ApiClient.
Import Js.

Inductive Method := GET | POST | PUT.

(** What reaches axios: the method, the path and the [timeout] member of the
    config, [None] when the config sets none (the default of the instance
    then applies). *)
Record Request := {
  method : Method;
  path : string;
  timeout : option Z
}.

(** [get(path, config)]: [timeout: config?.timeout || defaultTimeout] *)
Definition get (path : string) (config : option Z) : Request :=
  let defaultTimeout := if includes path "/api/v1/cvms/app_" then 15000 else 30000 in
  {| method := GET; path := path; timeout := Some (orNumber config defaultTimeout) |}.

(** [post(path, data, config)] *)
Definition post (path : string) (config : option Z) : Request :=
  let defaultTimeout :=
    if includes path "/api/v1/cvms/from_cvm_configuration" || includes path "/compose"
    then 60000 else 30000 in
  {| method := POST; path := path; timeout := Some (orNumber config defaultTimeout) |}.

(** [put(path, data, config)]: the config goes to axios as it is. *)
Definition put (path : string) (config : option Z) : Request :=
  {| method := PUT; path := path; timeout := config |}.

(** [const config = timeout ? { timeout } : undefined] *)
Definition timeoutConfig (timeout : option Z) : option Z :=
  match timeout with
  | Some t => if truthyNumber t then Some t else None
  | None => None
  end.

(** [identifier.startsWith('app_') ? identifier : `app_${identifier}`] *)
Definition normalizeId (identifier : string) : string :=
  if startsWith identifier "app_" then identifier else "app_" +:+ identifier.

(** The request of each wrapper of PhalaCloud. *)
Definition getCvmByAppId (appId : string) (timeout : option Z) : Request :=
  get ("/api/v1/cvms/app_" +:+ appId) (timeoutConfig timeout).
Definition getPubkeyFromCvm (appId : string) : Request :=
  get ("/api/v1/cvms/app_" +:+ appId +:+ "/pubkey") None.
Definition getCvmNetwork (appId : string) : Request :=
  get ("/api/v1/cvms/app_" +:+ appId +:+ "/network") None.
Definition getCvmAttestation (identifier : string) : Request :=
  get ("/api/v1/cvms/" +:+ normalizeId identifier +:+ "/attestation") None.
Definition getCvmStats (identifier : string) (timeout : option Z) : Request :=
  get ("/api/v1/cvms/" +:+ normalizeId identifier +:+ "/stats") (timeoutConfig timeout).
Definition getCvmComposition (identifier : string) (timeout : option Z) : Request :=
  get ("/api/v1/cvms/" +:+ normalizeId identifier +:+ "/composition") (timeoutConfig timeout).
Definition startCvm (identifier : string) (timeout : option Z) : Request :=
  post ("/api/v1/cvms/" +:+ normalizeId identifier +:+ "/start") (timeoutConfig timeout).
Definition stopCvm (identifier : string) (timeout : option Z) : Request :=
  post ("/api/v1/cvms/" +:+ normalizeId identifier +:+ "/stop") (timeoutConfig timeout).

(** The requests of deploy, upgrade and updateCompose. *)
Definition requestPubkey : Request := post "/api/v1/cvms/pubkey/from_cvm_configuration" None.
Definition requestCreate : Request := post "/api/v1/cvms/from_cvm_configuration" None.
Definition requestUpgrade (name : string) : Request :=
  post ("/api/v1/cvms/app_" +:+ name +:+ "/compose") None.
Definition requestUpdateCompose (identifier : string) : Request :=
  put ("/api/v1/cvms/" +:+ normalizeId identifier +:+ "/compose") None.

(** The timeout a caller ends up with when the default is [d]. *)
Definition effective (timeout : option Z) (d : Z) : Z :=
  match timeout with
  | Some t => if t =? 0 then d else t
  | None => d
  end.

End ApiClient.

(** ** PhalaCloud.monitorDeploymentStatus: vocabulary for whole runs *)

Module MonitorRuns.
Import Js Monitor.

(** A poll after which the loop does not break: a rejected query, or a
    status that is neither running nor failed. *)
Definition nonTerminal (answer : Result Cvm) : bool :=
  match answer with
  | Ok cvm => negb (isRunning cvm) && negb (isFailed cvm)
  | Throw _ => true
  end.

(** The snapshot of the last of the first [n] queries that resolved. *)
Fixpoint lastSnapshot (answers : nat -> Result Cvm) (n : nat) : option Cvm :=
  match n with
  | O => None
  | S n' =>
    match answers n' with
    | Ok cvm => Some cvm
    | Throw _ => lastSnapshot answers n'
    end
  end.

(** The statuses handed to onStatusChange, in order. *)
Definition reported (t : list Event) : list string := (statusChangesOf t).*1.

(** No element equals the one before it, [previous] standing before the
    first. *)
Fixpoint noRepeat (previous : string) (l : list string) : bool :=
  match l with
  | [] => true
  | x :: l' => negb (String.eqb previous x) && noRepeat x l'
  end.

(** The loop condition. *)
Definition looping (options : Options) (s : PollingSession) : bool :=
  (retryCount s <? maxRetries' options) && negb (deploymentSuccessful s).

(** What holds of the session each time the loop condition is tested. *)
Record Tracked (options : Options) (remote : Remote) (s : PollingSession) : Prop := {
  tracked_flag : deploymentSuccessful s = false;
  tracked_count : Z.of_nat (queries s) = retryCount s;
  tracked_final : finalCvm s = lastSnapshot (getCvmByAppId remote) (queries s);
  tracked_successes : successesOf (trace s) = [];
  tracked_failures : failuresOf (trace s) = [];
  tracked_timeouts : timeoutsOf (trace s) = [];
  tracked_queries : queriesOf (trace s) = replicate (queries s) (queryTimeout' options);
  tracked_norepeat : noRepeat "" (reported (trace s)) = true;
  tracked_last : onStatusChange options = true -> List.last (reported (trace s)) "" = lastStatus s;
  tracked_pairs : Forall (fun p => p.1 = status p.2) (statusChangesOf (trace s))
}.

(** The three ways a run ends. *)
Inductive Ending (options : Options) (remote : Remote)
    (final : option Cvm) (events : list Event) : Prop :=
| EndsRunning (k : nat) (cvm : Cvm) :
    Z.of_nat k < maxRetries' options ->
    (forall j, (j < k)%nat -> nonTerminal (getCvmByAppId remote j) = true) ->
    getCvmByAppId remote k = Ok cvm -> isRunning cvm = true ->
    final = Some (enrich cvm (getCvmNetwork remote)) ->
    successesOf events = (if onSuccess options then [enrich cvm (getCvmNetwork remote)] else []) ->
    failuresOf events = [] -> timeoutsOf events = [] ->
    queriesOf events = replicate (S k) (queryTimeout' options) ->
    Ending options remote final events
| EndsFailed (k : nat) (cvm : Cvm) :
    Z.of_nat k < maxRetries' options ->
    (forall j, (j < k)%nat -> nonTerminal (getCvmByAppId remote j) = true) ->
    getCvmByAppId remote k = Ok cvm -> isRunning cvm = false -> isFailed cvm = true ->
    final = Some cvm ->
    failuresOf events = (if onFailure options then [(status cvm, cvm)] else []) ->
    successesOf events = [] -> timeoutsOf events = [] ->
    queriesOf events = replicate (S k) (queryTimeout' options) ->
    Ending options remote final events
| EndsTimedOut (before : list Event) :
    (forall j, (j < Z.to_nat (maxRetries' options))%nat ->
               nonTerminal (getCvmByAppId remote j) = true) ->
    final = lastSnapshot (getCvmByAppId remote) (Z.to_nat (maxRetries' options)) ->
    events = before ++ (if onTimeout options then [Timeout final] else []) ->
    successesOf before = [] -> failuresOf before = [] -> timeoutsOf before = [] ->
    queriesOf before = replicate (Z.to_nat (maxRetries' options)) (queryTimeout' options) ->
    Ending options remote final events.

(** Scripts: statuses starting, failed; and a service that answers every
    second query only, always with the status starting. *)
Definition startingFailed (n : nat) : Result Cvm :=
  match n with
  | 0%nat => Ok (snapshot "poll-1" "starting")
  | _ => Ok (snapshot "poll-2" "failed")
  end.

Definition flaky (n : nat) : Result Cvm :=
  if Nat.even n then Throw (External "ECONNABORTED") else Ok (snapshot "poll" "starting").

End MonitorRuns.

(** ** PhalaCloud.parseEnv: what a stored pair looks like *)

Module EnvShape.
Import Js EnvParser.

(** Key and value are not empty and hold no separator. *)
Definition wellFormed (k v : string) : Prop :=
  k <> "" /\ v <> "" /\ includes k "=" = false /\ includes v "=" = false.

End EnvShape.

(** ** PhalaCloud.deploy: the configuration it assembles *)

Module SubmitterShape.
Import Js EnvParser Submitter.

(** [vm_config] of deploy for given options and compose file content; the
    teepod is [options.teepodId || 3]. *)
Definition vmConfigOf (options : DeployOptions) (composeContent : string) : VmConfig := {|
  cfg_teepod_id := orNumber (teepodId options) 3;
  cfg_name := name options;
  cfg_image := orString (image options) "dstack-dev-0.3.5";
  cfg_vcpu := orNumber (vcpu options) 1;
  cfg_memory := orNumber (memory options) 2048;
  cfg_disk_size := orNumber (diskSize options) 40;
  cfg_docker_compose_file := composeContent
|}.

(** An upgrade of a deployment that has a key. *)
Definition keyedCloud (pubkey : string) : Cloud := {|
  getTeepods := Ok None;
  postPubkey := fun _ => Ok None;
  postCreate := fun _ => Throw (External "unused");
  getCvm := fun appId =>
    Ok {| Monitor.id := appId; Monitor.status := "running"; Monitor.app_url := None;
          encrypted_env_pubkey := Some pubkey |};
  postCompose := fun _ _ => Ok "accepted";
  putCompose := fun _ _ => Ok "accepted"
|}.

Definition sampleEncryption : list Env -> string -> Result string :=
  fun _ _ => Ok "c0ffee".

End SubmitterShape.

(** * Properties *)

(** ** Strings *)

Module StringFacts.

Lemma append_cons (c : ascii) (s t : string) : String c s +:+ t = String c (s +:+ t).
Proof. reflexivity. Qed.

Lemma append_nil (t : string) : "" +:+ t = t.
Proof. reflexivity. Qed.

Lemma prefix_empty (s : string) : String.prefix "" s = true.
Proof. now destruct s. Qed.

End StringFacts.

(** ** Texts: prefixes, inclusion, lengths *)

Module TextFacts.
Import Js StringFacts.

Lemma append_assoc (a b c : string) : (a +:+ b) +:+ c = a +:+ (b +:+ c).
Proof. induction a as [|x a IH]; [reflexivity|]. now rewrite !append_cons, IH. Qed.

Lemma prefix_append (p t : string) : String.prefix p (p +:+ t) = true.
Proof.
  induction p as [|c p IH]; [apply prefix_empty|].
  rewrite append_cons. cbn [String.prefix]. destruct (ascii_dec c c); [exact IH | congruence].
Qed.

Lemma includes_prefix (s sub : string) : String.prefix sub s = true -> includes s sub = true.
Proof. intros H. destruct s; cbn [includes]; now rewrite H. Qed.

Lemma includes_append_l (a s sub : string) :
  includes s sub = true -> includes (a +:+ s) sub = true.
Proof.
  intros H. induction a as [|c a IH]; [exact H|].
  rewrite append_cons. cbn [includes]. rewrite IH. apply orb_true_r.
Qed.

(** A text that starts with the pattern, after any text, includes it. *)
Lemma includes_middle (a sub t : string) : includes (a +:+ sub +:+ t) sub = true.
Proof. apply includes_append_l, includes_prefix, prefix_append. Qed.

Lemma startsWith_split (s p : string) :
  startsWith s p = true -> exists rest, s = p +:+ rest.
Proof.
  unfold startsWith. revert s. induction p as [|c p IH]; intros s H; [now exists s|].
  destruct s as [|c' s]; [discriminate|]. cbn [String.prefix] in H.
  destruct (ascii_dec c c') as [<- |]; [|discriminate].
  destruct (IH s H) as (rest & ->). now exists rest.
Qed.

Lemma substring_all (s : string) : String.substring 0 (String.length s) s = s.
Proof.
  induction s as [|c s IH]; [reflexivity|].
  cbn [String.length String.substring]. now rewrite IH.
Qed.

Lemma length_append (a b : string) :
  String.length (a +:+ b) = (String.length a + String.length b)%nat.
Proof.
  induction a as [|c a IH]; [reflexivity|].
  rewrite append_cons. cbn [String.length]. now rewrite IH.
Qed.

Lemma truthyString_false (s : string) : truthyString s = false <-> s = "".
Proof. unfold truthyString. destruct (String.eqb_spec s ""); cbn; split; congruence. Qed.

Lemma truthyString_nonempty (s : string) : truthyString s = true -> s <> "".
Proof. unfold truthyString. intros H ->. discriminate. Qed.

Lemma eqb_false (s t : string) : s <> t -> String.eqb s t = false.
Proof. intros H. now destruct (String.eqb_spec s t). Qed.
End TextFacts.

(** ** The hexadecimal codec *)

Module HexFacts.
Import Js Hex StringFacts.

Lemma encodesBack_all (b : byte) : encodesBack b = true.
Proof. destruct b; vm_compute; reflexivity. Qed.

Lemma encode_byte_shape (b : byte) :
  exists c1 c2, padStart2 (toString16 b) = String c1 (String c2 EmptyString) /\
    c2 <> "x"%char /\
    toUint8 (parseInt16 (String c1 (String c2 EmptyString))) = b.
Proof.
  pose proof (encodesBack_all b) as H. unfold encodesBack in H.
  destruct (padStart2 (toString16 b)) as [|c1 [|c2 [|? ?]]]; try discriminate.
  apply andb_true_iff in H as [Hx Hb]. exists c1, c2. split; [reflexivity|]. split.
  - intros ->. discriminate.
  - now apply bool_decide_eq_true in Hb.
Qed.

Lemma length_uint8ArrayToHex (bytes : list byte) :
  String.length (uint8ArrayToHex bytes) = (2 * length bytes)%nat.
Proof.
  induction bytes as [|b bytes IH]; [reflexivity|].
  cbn [uint8ArrayToHex foldr]. fold (uint8ArrayToHex bytes).
  destruct (encode_byte_shape b) as (c1 & c2 & -> & _).
  rewrite !append_cons, append_nil. cbn [String.length length]. rewrite IH. lia.
Qed.

Lemma decodePairs_uint8ArrayToHex (bytes : list byte) :
  decodePairs (uint8ArrayToHex bytes) = bytes.
Proof.
  induction bytes as [|b bytes IH]; [reflexivity|].
  cbn [uint8ArrayToHex foldr]. fold (uint8ArrayToHex bytes).
  destruct (encode_byte_shape b) as (c1 & c2 & -> & _ & Hb).
  rewrite !append_cons, append_nil. cbn [decodePairs]. now rewrite Hb, IH.
Qed.

Lemma startsWith_uint8ArrayToHex (bytes : list byte) :
  startsWith (uint8ArrayToHex bytes) "0x" = false.
Proof.
  destruct bytes as [|b bytes]; [reflexivity|].
  cbn [uint8ArrayToHex foldr]. fold (uint8ArrayToHex bytes).
  destruct (encode_byte_shape b) as (c1 & c2 & -> & Hx & _).
  rewrite !append_cons, append_nil. unfold startsWith. cbn [String.prefix].
  destruct (ascii_dec "0" c1); [|reflexivity].
  destruct (ascii_dec "x" c2); [congruence | reflexivity].
Qed.

(** Decoding undoes encoding. *)
Lemma hexToUint8Array_uint8ArrayToHex (bytes : list byte) :
  hexToUint8Array (uint8ArrayToHex bytes) = Ok bytes.
Proof.
  unfold hexToUint8Array. rewrite startsWith_uint8ArrayToHex, length_uint8ArrayToHex.
  rewrite Nat.even_mul. cbn [Nat.even orb negb]. now rewrite decodePairs_uint8ArrayToHex.
Qed.

(** A string of odd length, with no prefix to strip, is refused. *)
Lemma hexToUint8Array_odd (hex : string) :
  startsWith hex "0x" = false -> Nat.even (String.length hex) = false ->
  hexToUint8Array hex = Throw NotHexString.
Proof. intros H0x Hodd. unfold hexToUint8Array. now rewrite H0x, Hodd. Qed.
End HexFacts.

(** ** The secret codec *)

Module CodecFacts.
Import Js Hex SecretCodec HexFacts.

(** Writing [source] right after the part already written fills the next
    [length source] zeroes of a fresh array. *)
Lemma set_fill (written source : list byte) (n : nat) :
  set (written ++ newUint8Array (length source + n)) source (length written)
  = Ok (written ++ source ++ newUint8Array n).
Proof.
  unfold set, newUint8Array.
  rewrite length_app, length_replicate.
  destruct (Nat.ltb_spec (length written + (length source + n))
                         (length written + length source)); [exfalso; lia|].
  rewrite take_app_length, drop_app_add', drop_replicate by reflexivity.
  do 4 f_equal. lia.
Qed.

(** The three [set] calls of encryptSecrets build the concatenation. *)
Lemma set_three (a b c : list byte) :
  bind (set (newUint8Array (length a + length b + length c)) a 0) (fun r =>
  bind (set r b (length a)) (fun r =>
  bind (set r c (length a + length b)) (fun r => Ok (uint8ArrayToHex r))))
  = Ok (uint8ArrayToHex (a ++ b ++ c)).
Proof.
  replace (length a + length b + length c)%nat
    with (length a + (length b + (length c + 0)))%nat by lia.
  pose proof (set_fill [] a (length b + (length c + 0))) as Ha.
  cbn [app length] in Ha. rewrite Ha. cbn [bind].
  rewrite (set_fill a b). cbn [bind].
  replace (length a + length b)%nat with (length (a ++ b)) by now rewrite length_app.
  replace (a ++ b ++ newUint8Array (length c + 0)) with ((a ++ b) ++ newUint8Array (length c + 0))
    by now rewrite <- app_assoc.
  rewrite (set_fill (a ++ b) c). cbn [bind newUint8Array replicate].
  now rewrite app_nil_r, <- app_assoc.
Qed.

(** The nonce has the 12 bytes of the array that encryptSecrets hands to
    getRandomValues. *)
Lemma length_iv (rnd : Entropy) : length (iv rnd) = 12%nat.
Proof.
  unfold iv, getRandomValues, newUint8Array. now rewrite length_imap, length_replicate.
Qed.

(** C4. Let the remote key string decode to the public key of
    [remotePrivateKey], let the ephemeral public key have 32 bytes, let
    X25519 agree on [shared] from both sides and let AES-GCM under [shared]
    seal the serialised secrets into [sealed], 16 bytes longer, and open it
    again. Then encryptSecrets returns a hexadecimal string of length
    (32 + 12 + len(serialize(S)) + 16) * 2 that decodes to ephemeral public
    key, nonce of 12 bytes, ciphertext with tag, in this order, and the
    decoder with the matching private key returns exactly S. The 12 is the
    size of the array that the code fills with random bytes. *)
Theorem encryptSecrets_wire_format (P : Platform) (rnd : Entropy) (secrets : list Env)
    (pubkey : string) (remotePrivateKey shared sealed : list byte) :
  hexToUint8Array pubkey = Ok (getPublicKey P remotePrivateKey) ->
  length (getPublicKey P (privateKey rnd)) = 32%nat ->
  getSharedSecret P (privateKey rnd) (getPublicKey P remotePrivateKey) = Ok shared ->
  getSharedSecret P remotePrivateKey (getPublicKey P (privateKey rnd)) = Ok shared ->
  aesGcmEncrypt P shared (iv rnd) (serialize P secrets) = Ok sealed ->
  length sealed = (length (serialize P secrets) + 16)%nat ->
  aesGcmDecrypt P shared (iv rnd) sealed = Ok (serialize P secrets) ->
  parse P (serialize P secrets) = Ok secrets ->
  exists out,
    encryptSecrets P rnd secrets pubkey = Ok out /\
    String.length out = ((32 + 12 + length (serialize P secrets) + 16) * 2)%nat /\
    hexToUint8Array out = Ok (getPublicKey P (privateKey rnd) ++ iv rnd ++ sealed) /\
    length (iv rnd) = 12%nat /\
    decryptSecrets P remotePrivateKey out = Ok secrets.
Proof.
  intros Hkey Hpub Hdh Hdh' Henc Hlen Hdec Hparse. pose proof (length_iv rnd) as Hiv.
  exists (uint8ArrayToHex (getPublicKey P (privateKey rnd) ++ iv rnd ++ sealed)).
  split; [|split; [|split; [|split]]].
  - unfold encryptSecrets. rewrite Hkey. cbn [bind]. rewrite Hdh. cbn [bind].
    rewrite Henc. cbn [bind]. now rewrite set_three.
  - rewrite length_uint8ArrayToHex, !length_app, Hpub, Hiv, Hlen. lia.
  - apply hexToUint8Array_uint8ArrayToHex.
  - exact Hiv.
  - unfold decryptSecrets. rewrite hexToUint8Array_uint8ArrayToHex. cbn [bind].
    rewrite (take_app_length' _ _ 32) by now rewrite Hpub.
    rewrite (drop_app_length' _ _ 32) by now rewrite Hpub.
    rewrite (take_app_length' _ _ 12) by now rewrite Hiv.
    rewrite app_assoc, (drop_app_length' _ _ 44)
      by (rewrite length_app, Hpub, Hiv; reflexivity).
    rewrite Hdh'. cbn [bind]. rewrite Hdec. cbn [bind]. exact Hparse.
Qed.

Lemma encryptSecrets_wire_format_witness :
  exists out,
    encryptSecrets Toy.platform Toy.entropy Toy.secrets
      (uint8ArrayToHex (Toy.pad32 Toy.remotePrivateKey)) = Ok out /\
    String.length out = ((32 + 12 + length (Toy.encodeEnvs Toy.secrets) + 16) * 2)%nat /\
    hexToUint8Array out
      = Ok (Toy.pad32 (privateKey Toy.entropy) ++ iv Toy.entropy ++ Toy.sealedSecrets) /\
    length (iv Toy.entropy) = 12%nat /\
    decryptSecrets Toy.platform Toy.remotePrivateKey out = Ok Toy.secrets.
Proof.
  apply (encryptSecrets_wire_format Toy.platform Toy.entropy Toy.secrets
           (uint8ArrayToHex (Toy.pad32 Toy.remotePrivateKey))
           Toy.remotePrivateKey Toy.sharedSecret Toy.sealedSecrets);
    vm_compute; reflexivity.
Defined.

(** C2. The decoder does not reject characters that are not hexadecimal
    digits: the 64-character key [nonHexKey], which starts with [zz], is
    decoded without an error, its first pair as the byte 0, so that every
    platform encrypts against it exactly as against the key that starts
    with [00], and the sample platform returns a payload. A key of odd
    length is refused, by the decoder and hence by encryptSecrets. *)
Theorem hexToUint8Array_decodes_non_hex :
  hexToUint8Array nonHexKey = Ok (Byte.x00 :: replicate 31 Byte.x01) /\
  (forall P rnd envs,
      encryptSecrets P rnd envs nonHexKey = encryptSecrets P rnd envs zeroLedKey) /\
  (exists out, encryptSecrets Toy.platform Toy.entropy Toy.secrets nonHexKey = Ok out) /\
  (forall P rnd envs,
      encryptSecrets P rnd envs "abc" = Throw (EncryptFailed NotHexString)).
Proof.
  split; [|split; [|split]].
  - vm_compute. reflexivity.
  - intros P rnd envs. unfold encryptSecrets.
    replace (hexToUint8Array nonHexKey) with (hexToUint8Array zeroLedKey)
      by (vm_compute; reflexivity).
    reflexivity.
  - eexists. vm_compute. reflexivity.
  - intros P rnd envs. unfold encryptSecrets.
    replace (hexToUint8Array "abc") with (@Throw (list byte) NotHexString)
      by (vm_compute; reflexivity).
    reflexivity.
Qed.
End CodecFacts.

(** ** The retrying transport *)

Module RetryFacts.
Import Retry.

Lemma transient_shouldRetry {T} (s : Settled T) :
  transient s <-> exists err, s = Rejected err /\ shouldRetry err = true.
Proof.
  unfold transient, shouldRetry. split; intros (err & -> & H); exists err; split; trivial.
  - destruct H as [-> | (st & -> & Hst)]; [reflexivity | now apply Z.leb_le].
  - destruct (response err) as [st|]; [right | now left].
    exists st. split; [reflexivity | now apply Z.leb_le].
Qed.

Lemma flat_delayBefore_pos (l : list nat) :
  Forall (fun j => (1 <= j)%nat) l ->
  flat_map delayBefore l = map (fun j => delay (Z.of_nat j)) l.
Proof.
  induction 1 as [|j l Hj _ IH]; [reflexivity|].
  cbn [flat_map map]. rewrite IH. unfold delayBefore.
  destruct (Z.ltb_spec 0 (Z.of_nat j)); [reflexivity | lia].
Qed.

Lemma flat_delayBefore (k : nat) : flat_map delayBefore (seq 0 (S k)) = backoff k.
Proof.
  unfold backoff. cbn [seq flat_map]. rewrite flat_delayBefore_pos; [reflexivity|].
  apply Forall_forall. intros j Hj. apply elem_of_seq in Hj. lia.
Qed.

Lemma delay_doubles (n : Z) : 0 <= n -> delay (n + 1) = 2 * delay n /\ delay n < delay (n + 1).
Proof.
  intros Hn. unfold delay. rewrite Z.pow_add_r by lia.
  assert (0 < 2 ^ n) by (apply Z.pow_pos_nonneg; lia). lia.
Qed.

Section Run.
Context {T : Type}.
Variable maxRetries : Z.
Variable reqFunction : nat -> Settled T.

Lemma loop_stops (k : nat) : forall (c fuel : nat) lastError eff,
  calls eff = c -> (k < fuel)%nat -> Z.of_nat (c + k) <= maxRetries ->
  (forall j, (c <= j < c + k)%nat -> transient (reqFunction j)) ->
  (~ transient (reqFunction (c + k)%nat) \/ Z.of_nat (c + k) = maxRetries) ->
  loop maxRetries reqFunction fuel (Z.of_nat c) lastError eff =
    (settle (reqFunction (c + k)%nat),
     {| calls := S (c + k); delays := delays eff ++ flat_map delayBefore (seq c (S k)) |}).
Proof.
  induction k as [|k IH]; intros c fuel lastError eff Hc Hfuel Hmax Hpre Hfin;
    (destruct fuel as [|fuel]; [lia|]); cbn [loop].
  - rewrite Nat.add_0_r in *.
    destruct (Z.leb_spec (Z.of_nat c) maxRetries); [|lia].
    cbn [seq flat_map]. rewrite app_nil_r. fold (delayBefore c).
    assert (Heff : (if 0 <? Z.of_nat c
                    then {| calls := calls eff; delays := delays eff ++ [delay (Z.of_nat c)] |}
                    else eff)
                   = {| calls := c; delays := delays eff ++ delayBefore c |}).
    { unfold delayBefore. destruct (0 <? Z.of_nat c); [now rewrite Hc|].
      rewrite app_nil_r. destruct eff; cbn in *; now subst. }
    rewrite Heff. cbn [calls delays].
    destruct (reqFunction c) as [data|err] eqn:Hreq; [reflexivity|].
    destruct (shouldRetry err && (Z.of_nat c <? maxRetries)) eqn:Hretry; [|reflexivity].
    apply andb_true_iff in Hretry as [Hsr Hlt]. apply Z.ltb_lt in Hlt.
    destruct Hfin as [Hnt | Heq]; [|lia].
    exfalso. apply Hnt. apply transient_shouldRetry. eauto.
  - destruct (Z.leb_spec (Z.of_nat c) maxRetries); [|lia].
    assert (Heff : (if 0 <? Z.of_nat c
                    then {| calls := calls eff; delays := delays eff ++ [delay (Z.of_nat c)] |}
                    else eff)
                   = {| calls := c; delays := delays eff ++ delayBefore c |}).
    { unfold delayBefore. destruct (0 <? Z.of_nat c); [now rewrite Hc|].
      rewrite app_nil_r. destruct eff; cbn in *; now subst. }
    rewrite Heff. cbn [calls delays].
    destruct (proj1 (transient_shouldRetry _) (Hpre c ltac:(lia))) as (err & Hreq & Hsr).
    rewrite Hreq; cbv beta iota; rewrite Hsr. destruct (Z.ltb_spec (Z.of_nat c) maxRetries); [|lia].
    cbn [andb]. replace (Z.of_nat c + 1) with (Z.of_nat (S c)) by lia.
    etransitivity.
    { apply (IH (S c) fuel); cbn [calls];
        [reflexivity | lia | lia | intros j Hj; apply Hpre; lia
        | now replace (S c + k)%nat with (c + S k)%nat by lia]. }
    replace (S c + k)%nat with (c + S k)%nat by lia.
    cbn [delays seq flat_map]. now rewrite <- app_assoc.
Qed.

Lemma run_stops (k : nat) :
  Z.of_nat k <= maxRetries ->
  (forall j, (j < k)%nat -> transient (reqFunction j)) ->
  (~ transient (reqFunction k) \/ Z.of_nat k = maxRetries) ->
  executeWithRetry maxRetries reqFunction =
    (settle (reqFunction k), {| calls := S k; delays := backoff k |}).
Proof.
  intros Hk Hpre Hfin. unfold executeWithRetry.
  rewrite <- flat_delayBefore.
  apply (loop_stops k 0); cbn [calls Nat.add]; [reflexivity | lia | lia | | assumption].
  intros j Hj. apply Hpre. lia.
Qed.

Lemma transient_dec (s : Settled T) : {transient s} + {~ transient s}.
Proof.
  destruct s as [data|err].
  - right. intros (e & He & _). discriminate.
  - destruct (shouldRetry err) eqn:Hsr.
    + left. apply transient_shouldRetry. eauto.
    + right. intros Ht. apply transient_shouldRetry in Ht as (e & He & Hsr').
      injection He as <-. congruence.
Qed.

(** Some attempt within the budget is final. *)
Lemma stop_exists (n : nat) :
  exists k, (k <= n)%nat /\ (forall j, (j < k)%nat -> transient (reqFunction j)) /\
            (~ transient (reqFunction k) \/ k = n).
Proof.
  induction n as [|n (k & Hk & Hpre & Hstop)].
  - exists 0%nat. repeat split; [lia | intros; lia | now right].
  - destruct Hstop as [Hstop | ->].
    + exists k. repeat split; [lia | assumption | now left].
    + destruct (transient_dec (reqFunction n)) as [Ht | Hnt].
      * exists (S n). repeat split; [lia | | now right].
        intros j Hj. destruct (Nat.eq_dec j n) as [-> |]; [assumption | apply Hpre; lia].
      * exists n. repeat split; [lia | assumption | now left].
Qed.
End Run.

(** C5. A rejection that carries a response below 500 (a 404, say) is
    thrown at once, with no retry and no delay. When every attempt fails
    without a response or with a status of 500 or more (a 503, say) the
    request is retried [maxRetries] times and the error of the last attempt
    is thrown as it is. Every run makes [k <= maxRetries] retries, all of
    them after failures of that kind, sleeps [delay 1, ..., delay k] before
    them and ends with the settlement of attempt [k]; each delay is twice
    the one before, hence strictly larger. *)
Theorem executeWithRetry_policy {T} (maxRetries : Z) (reqFunction : nat -> Settled T) :
  0 <= maxRetries ->
  let run := executeWithRetry maxRetries reqFunction in
  (forall err status,
      reqFunction 0%nat = Rejected err -> response err = Some status -> status < 500 ->
      run = (Thrown (Some err), {| calls := 1; delays := [] |})) /\
  ((forall j, (j <= Z.to_nat maxRetries)%nat -> transient (reqFunction j)) ->
   exists last, reqFunction (Z.to_nat maxRetries) = Rejected last /\
     run = (Thrown (Some last),
            {| calls := S (Z.to_nat maxRetries); delays := backoff (Z.to_nat maxRetries) |})) /\
  (exists k, Z.of_nat k <= maxRetries /\
     (forall j, (j < k)%nat -> transient (reqFunction j)) /\
     (~ transient (reqFunction k) \/ Z.of_nat k = maxRetries) /\
     run = (settle (reqFunction k), {| calls := S k; delays := backoff k |})) /\
  (forall i d d', delays run.2 !! i = Some d -> delays run.2 !! S i = Some d' ->
     d' = 2 * d /\ d < d').
Proof.
  intros Hmax run.
  assert (Hgen : exists k, Z.of_nat k <= maxRetries /\
     (forall j, (j < k)%nat -> transient (reqFunction j)) /\
     (~ transient (reqFunction k) \/ Z.of_nat k = maxRetries) /\
     run = (settle (reqFunction k), {| calls := S k; delays := backoff k |})).
  { destruct (stop_exists reqFunction (Z.to_nat maxRetries)) as (k & Hk & Hpre & Hstop).
    exists k. assert (Hfin : ~ transient (reqFunction k) \/ Z.of_nat k = maxRetries).
    { destruct Hstop as [?| ->]; [now left | right; lia]. }
    repeat split; [lia | assumption | assumption |].
    apply run_stops; [lia | assumption | assumption]. }
  split; [|split; [|split]].
  - intros err status Hreq Hresp Hlt.
    subst run. rewrite (run_stops maxRetries reqFunction 0); [now rewrite Hreq | lia | intros; lia |].
    left. intros (e & He & [Hnone | (st & Hst & Hge)]); rewrite Hreq in He; injection He as <-.
    + congruence.
    + rewrite Hresp in Hst. injection Hst as <-. lia.
  - intros Hall. destruct (Hall (Z.to_nat maxRetries)) as (last & Hlast & _); [lia|].
    exists last. split; [assumption|].
    subst run. rewrite (run_stops maxRetries reqFunction (Z.to_nat maxRetries));
      [now rewrite Hlast | lia | intros; apply Hall; lia | right; lia].
  - exact Hgen.
  - destruct Hgen as (k & _ & _ & _ & ->). cbn [snd delays]. unfold backoff.
    intros i d d' Hd Hd'. rewrite list_lookup_fmap in Hd, Hd'.
    destruct (seq 1 k !! i) as [j|] eqn:Hj; [|discriminate].
    destruct (seq 1 k !! S i) as [j'|] eqn:Hj'; [|discriminate].
    apply lookup_seq in Hj as [-> _]. apply lookup_seq in Hj' as [-> _].
    cbn [option_map fmap option_fmap] in Hd, Hd'. injection Hd as <-. injection Hd' as <-.
    assert (H := delay_doubles (Z.of_nat (S i)) ltac:(lia)).
    replace (Z.of_nat (S i) + 1) with (Z.of_nat (S (S i))) in H by lia. exact H.
Qed.

Lemma executeWithRetry_policy_witness :
  executeWithRetry 2 (@always unit err404)
    = (Thrown (Some err404), {| calls := 1; delays := [] |}) /\
  executeWithRetry 2 (@always unit err503)
    = (Thrown (Some err503), {| calls := 3; delays := [2000; 4000] |}).
Proof.
  split.
  - apply (proj1 (executeWithRetry_policy 2 (@always unit err404) ltac:(lia))) with 404;
      [reflexivity | reflexivity | lia].
  - destruct (proj1 (proj2 (executeWithRetry_policy 2 (@always unit err503) ltac:(lia))))
      as (last & Hlast & Hrun).
    + intros j _. exists err503. split; [reflexivity|]. right. exists 503.
      split; [reflexivity | lia].
    + injection Hlast as <-. exact Hrun.
Defined.
End RetryFacts.

(** ** parseEnv *)

Module EnvFacts.
Import Js EnvParser StringFacts TextFacts.

Lemma includes_unit (sep c : ascii) (s : string) :
  includes (String c s) (String sep "") = Ascii.eqb c sep || includes s (String sep "").
Proof.
  cbn [includes String.prefix]. rewrite prefix_empty.
  destruct (ascii_dec sep c) as [<- | Hne]; [now rewrite Ascii.eqb_refl|].
  destruct (Ascii.eqb_spec c sep); [congruence | reflexivity].
Qed.

Lemma includes_cons (c : ascii) (s : string) :
  includes (String c s) "=" = Ascii.eqb c "=" || includes s "=".
Proof. apply includes_unit. Qed.

Lemma includes_empty : includes "" "=" = false.
Proof. reflexivity. Qed.

(** A text without the separator is one piece. *)
Lemma split_without (sep : ascii) (s : string) :
  includes s (String sep "") = false -> split sep s = [s].
Proof.
  induction s as [|c s IH]; [reflexivity|].
  rewrite includes_unit. intros [Hc Hs]%orb_false_iff.
  cbn [split]. rewrite Hc, (IH Hs). reflexivity.
Qed.

Lemma split_none (s : string) : includes s "=" = false -> split "=" s = [s].
Proof. apply split_without. Qed.

(** The first piece ends at the first separator. *)
Lemma split_at (sep : ascii) (k rest : string) :
  includes k (String sep "") = false ->
  split sep (k +:+ String sep rest) = k :: split sep rest.
Proof.
  induction k as [|c k IH].
  - intros _. rewrite append_nil. cbn [split]. now rewrite Ascii.eqb_refl.
  - rewrite includes_unit. intros [Hc Hk]%orb_false_iff.
    rewrite append_cons. cbn [split]. rewrite Hc, (IH Hk). reflexivity.
Qed.

Lemma split_app (k rest : string) :
  includes k "=" = false ->
  split "=" (k +:+ String "=" rest) = k :: split "=" rest.
Proof. apply split_at. Qed.

Lemma split_nonempty (s : string) : split "=" s <> [].
Proof.
  induction s as [|c s IH]; [discriminate|].
  cbn [split]. destruct (Ascii.eqb c "="); [discriminate|].
  destruct (split "=" s); [congruence | discriminate].
Qed.

Lemma includes_app (k rest : string) : includes (k +:+ String "=" rest) "=" = true.
Proof.
  induction k as [|c k IH].
  - rewrite append_nil. now rewrite includes_cons.
  - rewrite append_cons, includes_cons, IH. apply orb_true_r.
Qed.

(** A text with a separator is a first piece, the separator and a rest. *)
Lemma split_first (s : string) :
  includes s "=" = true ->
  exists k rest, s = k +:+ String "=" rest /\ includes k "=" = false.
Proof.
  induction s as [|c s IH]; [discriminate|].
  rewrite includes_cons. destruct (Ascii.eqb_spec c "=") as [-> | Hc].
  - intros _. exists "", s. now rewrite append_nil.
  - cbn [orb]. intros (k & rest & -> & Hk)%IH. exists (String c k), rest.
    rewrite append_cons, includes_cons, Hk. split; [reflexivity|].
    destruct (Ascii.eqb_spec c "="); [congruence | reflexivity].
Qed.

Lemma truthyString_true (s : string) : s <> "" -> truthyString s = true.
Proof. unfold truthyString. destruct (String.eqb_spec s ""); [congruence | reflexivity]. Qed.

(** The pair assigned by an entry of the form K=V1=V2. *)
Lemma binding_two_separators (K V1 V2 : string) :
  includes K "=" = false -> includes V1 "=" = false -> K <> "" -> V1 <> "" ->
  binding (K +:+ String "=" (V1 +:+ String "=" V2)) = Some (K, V1).
Proof.
  intros HK HV1 HK0 HV0. unfold binding, destructure2.
  rewrite includes_app, (split_app K _ HK), (split_app V1 _ HV1).
  cbn [lookup list_lookup]. now rewrite !truthyString_true.
Qed.

Lemma binding_assigns (e K V : string) : Assigns e K V -> binding e = Some (K, V).
Proof.
  intros [K' V' HK0 HV0 HK HV | K' V' rest HK0 HV0 HK HV].
  - unfold binding, destructure2.
    rewrite includes_app, (split_app K' _ HK), (split_none V' HV).
    cbn [lookup list_lookup]. now rewrite !truthyString_true.
  - now apply binding_two_separators.
Qed.

Lemma binding_dropped (e : string) : Dropped e -> binding e = None.
Proof.
  intros [e' He | rest | K HK | K rest HK]; unfold binding, destructure2.
  - now rewrite He.
  - rewrite includes_cons. cbn [Ascii.eqb Bool.eqb orb split andb].
    cbn [lookup list_lookup].
    destruct (split "=" rest) eqn:Hs; [now apply split_nonempty in Hs|]. reflexivity.
  - rewrite includes_app, (split_app K "" HK). cbn [split lookup list_lookup].
    destruct (truthyString K); reflexivity.
  - rewrite includes_app, (split_app K _ HK). cbn [split Ascii.eqb Bool.eqb andb].
    cbn [lookup list_lookup]. destruct (truthyString K); reflexivity.
Qed.

(** An entry that binds [K] starts with [K=]. *)
Lemma binding_startsWith (e K v : string) :
  binding e = Some (K, v) -> startsWith e (K +:+ "=") = true.
Proof.
  unfold binding, destructure2. destruct (includes e "=") eqn:He; [|discriminate].
  destruct (split_first e He) as (k & rest & -> & Hk).
  rewrite (split_app k rest Hk). cbn [lookup list_lookup].
  destruct (split "=" rest !! 0%nat) as [v'|]; [|discriminate].
  destruct (truthyString k && truthyString v'); [|discriminate].
  intros [= <- <-]. unfold startsWith.
  replace (k +:+ String "=" rest) with ((k +:+ "=") +:+ rest)
    by now rewrite append_assoc, append_cons, append_nil.
  apply prefix_append.
Qed.

Lemma unbound_binding (K : string) (lines : list string) :
  unbound K lines -> forall e, e ∈ lines -> forall v, binding e <> Some (K, v).
Proof.
  intros Hfree e He v Hb. unfold unbound in Hfree. rewrite Forall_forall in Hfree.
  apply binding_startsWith in Hb. rewrite (Hfree e He) in Hb. discriminate.
Qed.

(** The lines of a file. *)
Lemma split_joinLines (lines : list string) :
  Forall (fun line => includes line (String lineFeed "") = false) lines -> lines <> [] ->
  split lineFeed (joinLines lines) = lines.
Proof.
  induction lines as [|line lines IH]; [congruence|]. intros Hall _.
  inversion Hall as [|? ? Hline Hlines]; subst.
  destruct lines as [|line' lines]; [now apply split_without|].
  change (joinLines (line :: line' :: lines))
    with (line +:+ String lineFeed (joinLines (line' :: lines))).
  rewrite (split_at lineFeed line _ Hline), IH; [reflexivity | assumption | discriminate].
Qed.

Lemma parseLines_app (l1 l2 : list string) (m : JsObject) :
  parseLines (l1 ++ l2) m = parseLines l2 (parseLines l1 m).
Proof. unfold parseLines. apply foldl_app. Qed.

Lemma parseLines_cons (e : string) (lines : list string) (m : JsObject) :
  parseLines (e :: lines) m
  = parseLines lines (match binding e with
                      | Some (k, v) => assign m k v
                      | None => m
                      end).
Proof. reflexivity. Qed.

(** Parsing the content of a file is parsing its lines. *)
Lemma parseLines_joinLines (lines : list string) (m : JsObject) :
  Forall (fun line => includes line (String lineFeed "") = false) lines ->
  parseLines (split lineFeed (joinLines lines)) m = parseLines lines m.
Proof.
  intros Hall. destruct lines as [|line lines]; [reflexivity|].
  now rewrite split_joinLines.
Qed.

(** An entry that assigns nothing can be taken out of the list. *)
Lemma parseLines_dropped (e : string) (before after : list string) (m : JsObject) :
  binding e = None -> parseLines (before ++ e :: after) m = parseLines (before ++ after) m.
Proof.
  intros He. rewrite !parseLines_app, parseLines_cons. now rewrite He.
Qed.

Lemma get_put (m : JsObject) (k v K : string) :
  get (put m k v) K = if String.eqb k K then Some v else get m K.
Proof.
  induction m as [|[k' v'] m IH]; [reflexivity|].
  cbn [put]. destruct (String.eqb_spec k' k) as [-> | Hne]; cbn [get].
  - now destruct (String.eqb k K).
  - rewrite IH. destruct (String.eqb_spec k' K) as [-> | HK]; [|reflexivity].
    destruct (String.eqb_spec k K); [congruence | reflexivity].
Qed.

Lemma assign_lookup (m : JsObject) (k v K : string) :
  get (assign m k v) K = if bool_decide (k = K) && negb (String.eqb k "__proto__")
                         then Some v else get m K.
Proof.
  unfold assign. destruct (String.eqb k "__proto__").
  - now rewrite andb_false_r.
  - rewrite andb_true_r, get_put.
    now destruct (String.eqb_spec k K), (bool_decide_reflect (k = K)).
Qed.

(** Entries that do not bind [K] leave its value as it is. *)
Lemma parseLines_unbound (after : list string) (K : string) : forall m : JsObject,
  (forall e, e ∈ after -> forall v, binding e <> Some (K, v)) ->
  get (parseLines after m) K = get m K.
Proof.
  induction after as [|e after IH]; intros m Hfree; [reflexivity|].
  rewrite parseLines_cons, IH by (intros e' He'; apply Hfree; now right).
  destruct (binding e) as [[k v]|] eqn:Hb; [|reflexivity].
  rewrite assign_lookup. destruct (bool_decide_reflect (k = K)) as [-> |]; [|reflexivity].
  exfalso. apply (Hfree e ltac:(now left) v). exact Hb.
Qed.

(** The last entry that binds [K] decides its value. *)
Lemma parseLines_bound (before after : list string) (e K V : string) (m : JsObject) :
  binding e = Some (K, V) -> K <> "__proto__" ->
  (forall e', e' ∈ after -> forall v, binding e' <> Some (K, v)) ->
  get (parseLines (before ++ e :: after) m) K = Some V.
Proof.
  intros Hb Hproto Hfree.
  rewrite parseLines_app, parseLines_cons, (parseLines_unbound after K _ Hfree), Hb.
  rewrite assign_lookup. destruct (bool_decide_reflect (K = K)); [|congruence].
  destruct (String.eqb_spec K "__proto__"); [congruence | reflexivity].
Qed.

(** No name is stored twice. *)
Lemma elem_of_put_keys (m : JsObject) (k v x : string) :
  x ∈ (put m k v).*1 -> x = k \/ x ∈ m.*1.
Proof.
  induction m as [|[k' v'] m IH]; cbn [put fmap list_fmap fst].
  - intros ->%list_elem_of_singleton. now left.
  - destruct (String.eqb k' k); cbn [fmap list_fmap fst]; [now right|].
    intros [-> | Hin]%elem_of_cons; [right; now left|].
    destruct (IH Hin) as [-> | Hin']; [now left | right; now right].
Qed.

Lemma NoDup_put (m : JsObject) (k v : string) : NoDup m.*1 -> NoDup (put m k v).*1.
Proof.
  induction m as [|[k' v'] m IH]; cbn [put fmap list_fmap fst].
  - intros _. apply NoDup_singleton.
  - intros [Hnotin Hnodup]%NoDup_cons.
    destruct (String.eqb_spec k' k) as [-> | Hne]; cbn [fmap list_fmap fst];
      apply NoDup_cons; split; try assumption; [|now apply IH].
    intros [-> | Hin]%elem_of_put_keys; [congruence | contradiction].
Qed.

Lemma NoDup_parseLines (lines : list string) : forall m : JsObject,
  NoDup m.*1 -> NoDup (parseLines lines m).*1.
Proof.
  induction lines as [|e lines IH]; intros m Hm; [exact Hm|].
  rewrite parseLines_cons. apply IH. destruct (binding e) as [[k v]|]; [|exact Hm].
  unfold assign. destruct (String.eqb k "__proto__"); [exact Hm | now apply NoDup_put].
Qed.

Lemma NoDup_parseEnvVars (fs : FileSystem) (envs : list string) (envFile : string)
    (m : JsObject) :
  parseEnvVars fs envs envFile = Ok m -> NoDup m.*1.
Proof.
  unfold parseEnvVars.
  assert (H0 : NoDup (parseLines envs []).*1) by apply NoDup_parseLines, NoDup_nil_2.
  destruct (truthyString envFile && existsSync fs envFile).
  - destruct (readFileSync fs envFile) as [content|err]; [|discriminate].
    intros [= <-]. now apply NoDup_parseLines.
  - now intros [= <-].
Qed.

Lemma get_elem_of (m : JsObject) (k v : string) :
  NoDup m.*1 -> ((k, v) ∈ m <-> get m k = Some v).
Proof.
  induction m as [|[k' v'] m IH]; cbn [get fmap list_fmap fst].
  - intros _. split; [intros H; now apply elem_of_nil in H | discriminate].
  - intros [Hnotin Hnodup]%NoDup_cons. rewrite elem_of_cons, (IH Hnodup).
    destruct (String.eqb_spec k' k) as [-> | Hne].
    + split; [|intros [= ->]; now left].
      intros [[= ->] | Hget]; [reflexivity|]. exfalso. apply Hnotin.
      apply (IH Hnodup) in Hget. apply list_elem_of_fmap. now exists (k, v).
    + split; [intros [[= -> ->] | Hget]; [congruence | exact Hget] | now right].
Qed.

(** The order of the properties is an order of the same pairs. *)
Lemma insertByIndex_perm (x : N * (string * string)) (sorted : list (N * (string * string))) :
  insertByIndex x sorted ≡ₚ x :: sorted.
Proof.
  induction sorted as [|y sorted IH]; [reflexivity|].
  cbn [insertByIndex]. destruct (x.1 <=? y.1)%N; [reflexivity|].
  rewrite IH. apply Permutation_swap.
Qed.

Lemma sorted_perm (l : list (N * (string * string))) : foldr insertByIndex [] l ≡ₚ l.
Proof.
  induction l as [|x l IH]; [reflexivity|].
  cbn [foldr]. now rewrite insertByIndex_perm, IH.
Qed.

Lemma ownProperties_perm (m : JsObject) : ownProperties m ≡ₚ m.
Proof.
  unfold ownProperties. rewrite sorted_perm.
  induction m as [|kv m IH]; [reflexivity|].
  unfold indexed, named in *. cbn [omap list_omap List.filter].
  destruct (arrayIndex kv.1) as [n|]; cbn [fmap option_fmap option_map list_fmap snd app].
  - now rewrite IH.
  - rewrite <- Permutation_middle. now rewrite IH.
Qed.

Lemma elem_of_entries (m : JsObject) (k v : string) :
  NoDup m.*1 -> ({| key := k; value := v |} ∈ entries m <-> get m k = Some v).
Proof.
  intros Hnodup. rewrite <- (get_elem_of m k v Hnodup).
  unfold entries. rewrite list_elem_of_fmap. split.
  - intros ([k' v'] & Heq & Hin). cbn in Heq. injection Heq as -> ->.
    now rewrite <- (ownProperties_perm m).
  - intros Hm. exists (k, v). split; [reflexivity | now rewrite (ownProperties_perm m)].
Qed.

(** What parseEnv returns for a name whose value in the object is known. *)
Lemma entries_of_get (m : JsObject) (K V : string) :
  NoDup m.*1 -> get m K = Some V ->
  {| key := K; value := V |} ∈ entries m /\
  (forall v, {| key := K; value := v |} ∈ entries m -> v = V).
Proof.
  intros Hnodup Hget. split; [now apply elem_of_entries|].
  intros v Hv%elem_of_entries; [congruence | assumption].
Qed.

(** The object that parseEnv builds when it reads no file, and when it
    reads a file made of given lines. *)
Lemma parseEnvVars_noFile (fs : FileSystem) (envs : list string) (envFile : string) :
  noFile fs envFile -> parseEnvVars fs envs envFile = Ok (parseLines envs []).
Proof.
  unfold parseEnvVars. intros [-> | ->]; [reflexivity | now rewrite andb_false_r].
Qed.

Lemma parseEnvVars_holdsLines (fs : FileSystem) (envs : list string) (envFile : string)
    (lines : list string) :
  holdsLines fs envFile lines ->
  parseEnvVars fs envs envFile = Ok (parseLines lines (parseLines envs [])).
Proof.
  intros (Hpath & Hexists & Hread & Hlines). unfold parseEnvVars.
  rewrite (truthyString_true envFile Hpath), Hexists, Hread. cbn [andb bind].
  now rewrite parseLines_joinLines.
Qed.

(** C9. An entry K=V or K=V1=V2 assigns to K the text between the first
    separator and the second, or the end, and nothing of what follows the
    second separator. Such an entry of the array decides the value of K in
    the result when no later entry of the array starts with K= and either
    no file is read or no line of the file starts with K=. Such a line of
    the file decides the value of K in the result when no later line of
    the file starts with K=, whatever the array says: the file is parsed
    last, so its value wins. An entry without separator, with nothing
    before the first separator or with nothing after it assigns nothing:
    it can be taken out of the array, or out of the lines of the file,
    without changing the result. Parsed alone, K=V1=V2 yields exactly the
    pair of K and V1 (no pair when K is the accessor name of
    Object.prototype). *)
Theorem parseEnv_entries (fs : FileSystem) :
  (forall before after envFile e K V,
      Assigns e K V -> K <> "__proto__" -> unbound K after ->
      noFile fs envFile
      \/ (exists lines, holdsLines fs envFile lines /\ unbound K lines) ->
      exists result,
        parseEnv fs (before ++ e :: after) envFile = Ok result /\
        {| key := K; value := V |} ∈ result /\
        (forall v, {| key := K; value := v |} ∈ result -> v = V)) /\
  (forall envs envFile before after e K V,
      Assigns e K V -> K <> "__proto__" -> unbound K after ->
      holdsLines fs envFile (before ++ e :: after) ->
      exists result,
        parseEnv fs envs envFile = Ok result /\
        {| key := K; value := V |} ∈ result /\
        (forall v, {| key := K; value := v |} ∈ result -> v = V)) /\
  (forall e, Dropped e ->
      (forall before after envFile,
          parseEnv fs (before ++ e :: after) envFile = parseEnv fs (before ++ after) envFile) /\
      (forall fs' envs envFile before after,
          holdsLines fs envFile (before ++ e :: after) ->
          holdsLines fs' envFile (before ++ after) ->
          parseEnv fs envs envFile = parseEnv fs' envs envFile)) /\
  (forall K V1 V2,
      includes K "=" = false -> includes V1 "=" = false -> K <> "" -> V1 <> "" ->
      parseEnv fs [K +:+ String "=" (V1 +:+ String "=" V2)] ""
        = Ok (if String.eqb K "__proto__" then [] else [{| key := K; value := V1 |}])).
Proof.
  split; [|split; [|split]].
  - intros before after envFile e K V Hb%binding_assigns Hproto Hafter Hfile.
    pose proof (unbound_binding K after Hafter) as Hfree.
    unfold parseEnv. destruct Hfile as [Hnone | (lines & Hlines & Hunbound)].
    + rewrite (parseEnvVars_noFile fs _ envFile Hnone). cbn [bind].
      eexists. split; [reflexivity|].
      apply entries_of_get; [apply NoDup_parseLines, NoDup_nil_2|].
      now apply parseLines_bound.
    + rewrite (parseEnvVars_holdsLines fs _ envFile lines Hlines). cbn [bind].
      eexists. split; [reflexivity|].
      apply entries_of_get; [do 2 apply NoDup_parseLines; apply NoDup_nil_2|].
      rewrite (parseLines_unbound lines K _ (unbound_binding K lines Hunbound)).
      now apply parseLines_bound.
  - intros envs envFile before after e K V Hb%binding_assigns Hproto Hafter Hlines.
    pose proof (unbound_binding K after Hafter) as Hfree.
    unfold parseEnv. rewrite (parseEnvVars_holdsLines fs envs envFile _ Hlines). cbn [bind].
    eexists. split; [reflexivity|].
    apply entries_of_get; [do 2 apply NoDup_parseLines; apply NoDup_nil_2|].
    now apply parseLines_bound.
  - intros e Hb%binding_dropped. split.
    + intros before after envFile. unfold parseEnv, parseEnvVars.
      now rewrite (parseLines_dropped e before after [] Hb).
    + intros fs' envs envFile before after Hlines Hlines'. unfold parseEnv.
      rewrite (parseEnvVars_holdsLines fs envs envFile _ Hlines),
        (parseEnvVars_holdsLines fs' envs envFile _ Hlines').
      now rewrite (parseLines_dropped e before after _ Hb).
  - intros K V1 V2 HK HV1 HK0 HV0.
    pose proof (binding_two_separators K V1 V2 HK HV1 HK0 HV0) as Hb.
    unfold parseEnv, parseEnvVars, parseLines. cbn [foldl truthyString String.eqb negb andb bind].
    rewrite Hb. unfold assign. destruct (String.eqb K "__proto__"); [reflexivity|].
    unfold entries, ownProperties, indexed, named. cbn [put omap list_omap List.filter fst].
    now destruct (arrayIndex K).
Qed.

Lemma parseEnv_entries_witness :
  (exists result,
     parseEnv layeredFs (["B=array"; "A=first"] ++ "A=second=tail" :: ["junk"]) "" = Ok result /\
     {| key := "A"; value := "second" |} ∈ result) /\
  (exists result,
     parseEnv layeredFs ["B=array"; "D=array"] ".env" = Ok result /\
     {| key := "B"; value := "1" |} ∈ result /\
     (forall v, {| key := "B"; value := v |} ∈ result -> v = "1")) /\
  parseEnv layeredFs (["B=array"] ++ "junk" :: ["C="]) ".env"
    = parseEnv layeredFs (["B=array"] ++ ["C="]) ".env".
Proof.
  destruct (parseEnv_entries layeredFs) as (Harray & Hfile & Hdrop & _).
  split; [|split].
  - destruct (Harray ["B=array"; "A=first"] ["junk"] "" "A=second=tail" "A" "second")
      as (result & Hresult & Hin & _).
    + apply (AssignsCut "A" "second" "tail"); [discriminate | discriminate | reflexivity..].
    + discriminate.
    + repeat constructor.
    + left. now left.
    + exists result. split; assumption.
  - apply (Hfile ["B=array"; "D=array"] ".env" ["# staging"; "A=file"] ["C="; "=x"; "D=last"]
             "B=1=2" "B" "1").
    + apply (AssignsCut "B" "1" "2"); [discriminate | discriminate | reflexivity..].
    + discriminate.
    + repeat constructor.
    + split; [discriminate|]. split; [reflexivity|]. split; [reflexivity|].
      repeat constructor.
  - apply (proj1 (Hdrop "junk" (NoSeparator "junk" eq_refl)) ["B=array"] ["C="] ".env").
Defined.
End EnvFacts.

(** ** The submitter *)

Module SubmitterFacts.
Import Js EnvParser Submitter.

(** [options.teepodId || 3] is never falsy. *)
Lemma orNumber_truthy (teepodId : option Z) : truthyNumber (orNumber teepodId 3) = true.
Proof.
  unfold orNumber. destruct teepodId as [z|]; [|reflexivity].
  destruct (truthyNumber z) eqn:Hz; [exact Hz | reflexivity].
Qed.

Ltac not_in_trace :=
  let Hin := fresh "Hin" in
  intros Hin;
  repeat match type of Hin with
         | _ ∈ _ ++ _ => apply elem_of_app in Hin as [Hin | Hin]
         | _ ∈ _ :: _ => apply elem_of_cons in Hin as [Hin | Hin]; [discriminate Hin|]
         | _ ∈ [] => apply elem_of_nil in Hin; contradiction
         end.

(** C1. Slot resolution in deploy. As written, [options.teepodId || 3] is
    never falsy, so the block that queries the teepods is not reached: no
    run of deploy queries the teepods; without a pinned teepod the
    encryption key is requested for teepod 3, both when the service lists
    teepod 7 as available and online and when it lists no usable teepod, and
    deploy does not fail in the latter case. *)
Theorem deploy_skips_slot_resolution :
  (forall fs cloud encryptSecrets options,
      GetTeepods ∉ (run (deploy fs cloud encryptSecrets options)).2) /\
  run (deploy sampleFs (sampleCloud oneOnline) noEncryption unpinned)
    = (Ok {| app_id := "my-app"; created_url := "https://example" |},
       [ReadFile "docker-compose.yml"; PostPubkey unpinnedConfig; PostCreate unpinnedPayload]) /\
  run (deploy sampleFs (sampleCloud noneOnline) noEncryption unpinned)
    = (Ok {| app_id := "my-app"; created_url := "https://example" |},
       [ReadFile "docker-compose.yml"; PostPubkey unpinnedConfig; PostCreate unpinnedPayload]).
Proof.
  split; [|split; vm_compute; reflexivity].
  intros fs cloud encryptSecrets options.
  unfold run, deploy, encryptIf, bindE, call, lift, throw, ret.
  rewrite orNumber_truthy. cbn [negb].
  repeat match goal with
         | |- context [if ?b then _ else _] => destruct b
         | |- context [match ?x with _ => _ end] => destruct x
         end; cbn [snd app]; not_in_trace.
Qed.

Lemma hasPubkey_false (cvm : Cvm) :
  encrypted_env_pubkey cvm = None \/ encrypted_env_pubkey cvm = Some "" ->
  hasPubkey cvm = false.
Proof. unfold hasPubkey. now intros [-> | ->]. Qed.

Lemma encryptIf_skipped encryptSecrets (envs : list Env) (pubkey : string) (t : list Call) :
  encryptIf encryptSecrets false envs pubkey t = (Ok "", t).
Proof. unfold encryptIf. now rewrite andb_false_r. Qed.

(** C10. An upgrade, or an update of the compose file, with a secret set
    that is not empty, for a deployment whose record has no
    [encrypted_env_pubkey] or an empty one: the codec is not called, the
    request is sent with an empty [encrypted_env], and the operation
    settles as that request does, with no error of its own. *)
Theorem upgrade_without_pubkey_drops_secrets (fs : FileSystem) (cloud : Cloud)
    (encryptSecrets : list Env -> string -> Result string) :
  (forall options envs composeContent cvm,
      truthyString (up_name options) = true ->
      truthyString (up_compose options) = true ->
      parseEnv fs (default [] (up_env options)) (orString (up_envFile options) "") = Ok envs ->
      envs <> [] ->
      readFile fs (up_compose options) = Ok composeContent ->
      getCvm cloud (up_name options) = Ok cvm ->
      encrypted_env_pubkey cvm = None \/ encrypted_env_pubkey cvm = Some "" ->
      let payload := {| manifest_name := "app_" +:+ up_name options;
                        docker_compose_file := composeContent;
                        compose_encrypted_env := "";
                        allow_restart := 1 |} in
      run (upgrade fs cloud encryptSecrets options)
        = (postCompose cloud (up_name options) payload,
           [ReadFile (up_compose options); GetCvm (up_name options);
            PostCompose (up_name options) payload])) /\
  (forall options envs composeContent cvm,
      truthyString (identifier options) = true ->
      truthyString (uc_compose options) = true ->
      parseEnv fs (default [] (uc_env options)) (orString (uc_envFile options) "") = Ok envs ->
      envs <> [] ->
      readFile fs (uc_compose options) = Ok composeContent ->
      getCvm cloud (removeFirst "app_" (identifier options)) = Ok cvm ->
      encrypted_env_pubkey cvm = None \/ encrypted_env_pubkey cvm = Some "" ->
      let target := if startsWith (identifier options) "app_" then identifier options
                    else "app_" +:+ identifier options in
      let payload := {| manifest_name := target;
                        docker_compose_file := composeContent;
                        compose_encrypted_env := "";
                        allow_restart := match allowRestart options with
                                         | Some false => 0
                                         | _ => 1
                                         end |} in
      run (updateCompose fs cloud encryptSecrets options)
        = (putCompose cloud target payload,
           [ReadFile (uc_compose options);
            GetCvm (removeFirst "app_" (identifier options));
            PutCompose target payload])).
Proof.
  split.
  - intros options envs composeContent cvm Hname Hcompose Henvs _ Hread Hcvm Hkey payload.
    unfold run, upgrade. rewrite Hname, Hcompose. cbn [negb].
    unfold bindE, lift, call at 1 2. rewrite Henvs, Hread, Hcvm.
    rewrite (hasPubkey_false cvm Hkey), encryptIf_skipped. reflexivity.
  - intros options envs composeContent cvm Hid Hcompose Henvs _ Hread Hcvm Hkey target payload.
    unfold run, updateCompose. rewrite Hid, Hcompose. cbn [negb].
    unfold bindE, lift, call at 1 2. rewrite Henvs, Hread, Hcvm.
    rewrite (hasPubkey_false cvm Hkey), encryptIf_skipped. reflexivity.
Qed.

Lemma upgrade_without_pubkey_drops_secrets_witness :
  run (upgrade sampleFs (sampleCloud oneOnline) noEncryption sampleUpgrade)
    = (Ok "accepted",
       [ReadFile "docker-compose.yml"; GetCvm "my-app";
        PostCompose "my-app" {| manifest_name := "app_my-app";
                                docker_compose_file := "services: {}";
                                compose_encrypted_env := "";
                                allow_restart := 1 |}]) /\
  run (updateCompose sampleFs (sampleCloud oneOnline) noEncryption sampleUpdate)
    = (Ok "accepted",
       [ReadFile "docker-compose.yml"; GetCvm "my-app";
        PutCompose "app_my-app" {| manifest_name := "app_my-app";
                                   docker_compose_file := "services: {}";
                                   compose_encrypted_env := "";
                                   allow_restart := 1 |}]).
Proof.
  destruct (upgrade_without_pubkey_drops_secrets sampleFs (sampleCloud oneOnline) noEncryption)
    as [Hupgrade Hupdate].
  split.
  - apply (Hupgrade sampleUpgrade [{| key := "KEY"; value := "new" |}] "services: {}"
             (Monitor.snapshot "my-app" "running"));
      [reflexivity | reflexivity | vm_compute; reflexivity | discriminate
      | reflexivity | reflexivity | left; reflexivity].
  - apply (Hupdate sampleUpdate [{| key := "KEY"; value := "new" |}] "services: {}"
             (Monitor.snapshot "my-app" "running"));
      [reflexivity | reflexivity | vm_compute; reflexivity | discriminate
      | reflexivity | reflexivity | left; reflexivity].
Defined.
End SubmitterFacts.

(** ** The status poller *)

Module MonitorFacts.
Import Js Monitor.

Section Run.
Variable options : Options.
Variable remote : Remote.

(** An iteration whose query is rejected. *)
Lemma iteration_rejected (s : PollingSession) (error : JsError) :
  getCvmByAppId remote (queries s) = Throw error ->
  iteration options remote s =
    ({| retryCount := retryCount s + 1;
        deploymentSuccessful := deploymentSuccessful s;
        lastStatus := lastStatus s;
        finalCvm := finalCvm s;
        consecutiveErrors :=
          if maxConsecutiveErrors <=? consecutiveErrors s + 1
          then Z.max 0 (consecutiveErrors s + 1 - 1)
          else consecutiveErrors s + 1;
        queries := S (queries s);
        clockReads := S (S (clockReads s));
        trace := trace s ++ [StatusQuery (queryTimeout' options)]
                   ++ (if onError options then [Error error] else [])
                   ++ (if maxConsecutiveErrors <=? consecutiveErrors s + 1
                       then [Sleep (inject_Z (interval' options * 2))] else [])
                   ++ waitOf options remote s true |}, Falls).
Proof.
  intros Hq. unfold iteration. rewrite Hq.
  unfold afterTry, onRejected, waitOf, emit. cbn [retryCount deploymentSuccessful lastStatus
    finalCvm consecutiveErrors queries clockReads trace].
  do 2 f_equal.
  destruct (onError options), (maxConsecutiveErrors <=? consecutiveErrors s + 1),
    ((retryCount s + 1 <? maxRetries' options) && negb (deploymentSuccessful s));
    cbn [app]; rewrite <- ?app_assoc; reflexivity.
Qed.

Lemma lastStatus_after (s : PollingSession) (cvm : Cvm) :
  (if negb (String.eqb (lastStatus s) (status cvm)) then status cvm else lastStatus s)
  = status cvm.
Proof. destruct (String.eqb_spec (lastStatus s) (status cvm)); cbn [negb]; congruence. Qed.

(** An iteration whose query resolves with a running instance. *)
Lemma iteration_running (s : PollingSession) (cvm : Cvm) :
  getCvmByAppId remote (queries s) = Ok cvm -> isRunning cvm = true ->
  iteration options remote s =
    ({| retryCount := retryCount s;
        deploymentSuccessful := true;
        lastStatus := status cvm;
        finalCvm := Some (enrich cvm (getCvmNetwork remote));
        consecutiveErrors := 0;
        queries := S (queries s);
        clockReads := S (clockReads s);
        trace := trace s ++ [StatusQuery (queryTimeout' options)]
                   ++ changeOf options s cvm ++ [NetworkQuery]
                   ++ (if onSuccess options
                       then [Success (enrich cvm (getCvmNetwork remote))] else []) |},
     Breaks).
Proof.
  intros Hq Hrun. unfold iteration, isRunning in *. rewrite Hq.
  unfold onResolved. rewrite Hrun.
  cbn [retryCount deploymentSuccessful lastStatus finalCvm consecutiveErrors queries
       clockReads trace].
  rewrite lastStatus_after. unfold changeOf, emit. do 2 f_equal.
  destruct (negb (String.eqb (lastStatus s) (status cvm))), (onStatusChange options),
    (onSuccess options); cbn [andb app]; rewrite <- ?app_assoc; reflexivity.
Qed.

(** An iteration whose query resolves with a failed instance. *)
Lemma iteration_failed (s : PollingSession) (cvm : Cvm) :
  getCvmByAppId remote (queries s) = Ok cvm -> isRunning cvm = false -> isFailed cvm = true ->
  iteration options remote s =
    ({| retryCount := retryCount s;
        deploymentSuccessful := deploymentSuccessful s;
        lastStatus := status cvm;
        finalCvm := Some cvm;
        consecutiveErrors := 0;
        queries := S (queries s);
        clockReads := S (clockReads s);
        trace := trace s ++ [StatusQuery (queryTimeout' options)]
                   ++ changeOf options s cvm
                   ++ (if onFailure options then [Failure (status cvm) cvm] else []) |},
     Breaks).
Proof.
  intros Hq Hrun Hfail. unfold iteration, isRunning, isFailed in *. rewrite Hq.
  unfold onResolved. rewrite Hrun, Hfail.
  cbn [retryCount deploymentSuccessful lastStatus finalCvm consecutiveErrors queries
       clockReads trace].
  rewrite lastStatus_after. unfold changeOf, emit. do 2 f_equal.
  destruct (negb (String.eqb (lastStatus s) (status cvm))), (onStatusChange options),
    (onFailure options); cbn [andb app]; rewrite <- ?app_assoc; reflexivity.
Qed.

(** An iteration whose query resolves with any other status. *)
Lemma iteration_pending (s : PollingSession) (cvm : Cvm) :
  getCvmByAppId remote (queries s) = Ok cvm -> isRunning cvm = false -> isFailed cvm = false ->
  iteration options remote s =
    ({| retryCount := retryCount s + 1;
        deploymentSuccessful := deploymentSuccessful s;
        lastStatus := status cvm;
        finalCvm := Some cvm;
        consecutiveErrors := 0;
        queries := S (queries s);
        clockReads := S (S (clockReads s));
        trace := trace s ++ [StatusQuery (queryTimeout' options)]
                   ++ changeOf options s cvm ++ waitOf options remote s false |},
     Falls).
Proof.
  intros Hq Hrun Hfail. unfold iteration, isRunning, isFailed in *. rewrite Hq.
  unfold onResolved. rewrite Hrun, Hfail. unfold afterTry.
  cbn [retryCount deploymentSuccessful lastStatus finalCvm consecutiveErrors queries
       clockReads trace].
  rewrite lastStatus_after. unfold changeOf, waitOf, emit. do 2 f_equal.
  destruct (negb (String.eqb (lastStatus s) (status cvm))), (onStatusChange options),
    ((retryCount s + 1 <? maxRetries' options) && negb (deploymentSuccessful s));
    cbn [andb app]; rewrite <- ?app_assoc; reflexivity.
Qed.

(** An iteration that falls through has counted one attempt and has
    left the success flag as it was. *)
Lemma iteration_falls (s s' : PollingSession) :
  iteration options remote s = (s', Falls) ->
  retryCount s' = retryCount s + 1 /\ deploymentSuccessful s' = deploymentSuccessful s.
Proof.
  destruct (getCvmByAppId remote (queries s)) as [cvm|error] eqn:Hq.
  - destruct (isRunning cvm) eqn:Hrun.
    { rewrite (iteration_running s cvm Hq Hrun). discriminate. }
    destruct (isFailed cvm) eqn:Hfail.
    { rewrite (iteration_failed s cvm Hq Hrun Hfail). discriminate. }
    rewrite (iteration_pending s cvm Hq Hrun Hfail). intros [= <-]. now split.
  - rewrite (iteration_rejected s error Hq). intros [= <-]. now split.
Qed.

(** The loop ends within [maxRetries - retryCount] iterations. *)
Lemma loop_total (fuel : nat) : forall s,
  maxRetries' options - retryCount s <= Z.of_nat fuel ->
  exists s', loop options remote fuel s = Some s'.
Proof.
  induction fuel as [|fuel IH]; intros s Hfuel.
  - cbn [loop]. destruct (Z.ltb_spec (retryCount s) (maxRetries' options)); [lia|].
    cbn [andb]. eauto.
  - cbn [loop].
    destruct ((retryCount s <? maxRetries' options) && negb (deploymentSuccessful s));
      [|eauto].
    destruct (iteration options remote s) as [s' [|]] eqn:Hit; [|eauto].
    apply iteration_falls in Hit as [Hrc _]. apply IH. lia.
Qed.

(** monitorDeploymentStatus returns. *)
Lemma monitorDeploymentStatus_total :
  exists result, monitorDeploymentStatus options remote = Some result.
Proof.
  unfold monitorDeploymentStatus.
  destruct (loop_total (Z.to_nat (maxRetries' options)) initial) as (s' & ->);
    [cbn [retryCount initial]; lia | cbn; eauto].
Qed.

Lemma loop_enter (fuel : nat) (s : PollingSession) :
  retryCount s < maxRetries' options -> deploymentSuccessful s = false ->
  loop options remote (S fuel) s =
    match iteration options remote s with
    | (s', Breaks) => Some s'
    | (s', Falls) => loop options remote fuel s'
    end.
Proof.
  intros Hrc Hds. cbn [loop]. rewrite Hds.
  destruct (Z.ltb_spec (retryCount s) (maxRetries' options)); [reflexivity | lia].
Qed.

Lemma loop_exit (fuel : nat) (s : PollingSession) :
  maxRetries' options <= retryCount s -> loop options remote fuel s = Some s.
Proof.
  intros Hrc. destruct fuel; cbn [loop];
    destruct (Z.ltb_spec (retryCount s) (maxRetries' options)); try lia; reflexivity.
Qed.

(** The waits are no sink invocations and no queries. *)
Lemma waitOf_silent (s : PollingSession) (hadError : bool) :
  statusChangesOf (waitOf options remote s hadError) = [] /\
  successesOf (waitOf options remote s hadError) = [] /\
  failuresOf (waitOf options remote s hadError) = [] /\
  timeoutsOf (waitOf options remote s hadError) = [] /\
  errorsOf (waitOf options remote s hadError) = [] /\
  queriesOf (waitOf options remote s hadError) = [].
Proof. unfold waitOf. now destruct (_ && _). Qed.

Lemma changeOf_silent (s : PollingSession) (cvm : Cvm) :
  successesOf (changeOf options s cvm) = [] /\
  failuresOf (changeOf options s cvm) = [] /\
  timeoutsOf (changeOf options s cvm) = [] /\
  errorsOf (changeOf options s cvm) = [] /\
  queriesOf (changeOf options s cvm) = [].
Proof. unfold changeOf. now destruct (_ && _). Qed.
End Run.

(** Projections of a trace that grows. *)
Lemma statusChangesOf_app (t u : list Event) :
  statusChangesOf (t ++ u) = statusChangesOf t ++ statusChangesOf u.
Proof. apply omap_app. Qed.
Lemma successesOf_app (t u : list Event) : successesOf (t ++ u) = successesOf t ++ successesOf u.
Proof. apply omap_app. Qed.
Lemma failuresOf_app (t u : list Event) : failuresOf (t ++ u) = failuresOf t ++ failuresOf u.
Proof. apply omap_app. Qed.
Lemma timeoutsOf_app (t u : list Event) : timeoutsOf (t ++ u) = timeoutsOf t ++ timeoutsOf u.
Proof. apply omap_app. Qed.
Lemma errorsOf_app (t u : list Event) : errorsOf (t ++ u) = errorsOf t ++ errorsOf u.
Proof. apply omap_app. Qed.
Lemma queriesOf_app (t u : list Event) : queriesOf (t ++ u) = queriesOf t ++ queriesOf u.
Proof. apply omap_app. Qed.

Ltac project :=
  rewrite ?statusChangesOf_app, ?successesOf_app, ?failuresOf_app, ?timeoutsOf_app,
    ?errorsOf_app, ?queriesOf_app.

Section AllRejected.
Variable options : Options.
Variable remote : Remote.
Variable err : nat -> JsError.
Hypothesis always : forall k, getCvmByAppId remote k = Throw (err k).

(** The session and the trace after the loop when every query is
    rejected. *)
Lemma loop_all_rejected (fuel : nat) : forall s,
  maxRetries' options - retryCount s <= Z.of_nat fuel ->
  deploymentSuccessful s = false ->
  exists s',
    loop options remote fuel s = Some s' /\
    retryCount s' = Z.max (retryCount s) (maxRetries' options) /\
    deploymentSuccessful s' = false /\
    finalCvm s' = finalCvm s /\
    errorsOf (trace s') =
      errorsOf (trace s) ++
      (if onError options
       then map err (seq (queries s) (Z.to_nat (maxRetries' options - retryCount s)))
       else []) /\
    queriesOf (trace s') =
      queriesOf (trace s) ++
      replicate (Z.to_nat (maxRetries' options - retryCount s)) (queryTimeout' options) /\
    timeoutsOf (trace s') = timeoutsOf (trace s) /\
    successesOf (trace s') = successesOf (trace s) /\
    failuresOf (trace s') = failuresOf (trace s) /\
    statusChangesOf (trace s') = statusChangesOf (trace s).
Proof.
  induction fuel as [|fuel IH]; intros s Hfuel Hds.
  - exists s. rewrite loop_exit by lia.
    replace (Z.to_nat (maxRetries' options - retryCount s)) with 0%nat by lia.
    cbn [seq map replicate]. destruct (onError options); rewrite !app_nil_r;
      repeat split; try reflexivity; try assumption; lia.
  - destruct (Z.lt_ge_cases (retryCount s) (maxRetries' options)) as [Hlt | Hge].
    + rewrite (loop_enter options remote fuel s Hlt Hds),
        (iteration_rejected options remote s (err (queries s)) (always _)).
      match goal with |- context [loop _ _ _ ?s1] => set (next := s1) end.
      destruct (IH next) as (s' & Hloop & Hrc & Hds' & Hfin & Herr & Hq & Hto & Hsu & Hfa & Hsc);
        [cbn [next retryCount]; lia | exact Hds |].
      exists s'. cbn [next retryCount finalCvm queries trace] in *.
      destruct (waitOf_silent options remote s true) as (W1 & W2 & W3 & W4 & W5 & W6).
      rewrite Herr, Hq, Hto, Hsu, Hfa, Hsc. project.
      rewrite W1, W2, W3, W4, W5, W6.
      replace (Z.to_nat (maxRetries' options - retryCount s))
        with (S (Z.to_nat (maxRetries' options - (retryCount s + 1)))) by lia.
      cbn [seq map replicate].
      repeat split; try assumption; try lia;
        destruct (onError options), (maxConsecutiveErrors <=? consecutiveErrors s + 1);
        cbn; rewrite ?app_nil_r, <- ?app_assoc; reflexivity.
    + exists s. rewrite loop_exit by lia.
      replace (Z.to_nat (maxRetries' options - retryCount s)) with 0%nat by lia.
      cbn [seq map replicate]. destruct (onError options); rewrite !app_nil_r;
        repeat split; try reflexivity; try assumption; lia.
Qed.
End AllRejected.

(** C6. When every status query is rejected, with [maxRetries] attempts
    allowed (5 in the scenario) and the sinks for errors and for the
    timeout present: the run returns, and returns null; onError has been
    invoked once per attempt, with the errors in order; every attempt has
    issued one query; onTimeout has been invoked exactly once, as the last
    event, with null; no other sink has been invoked. *)
Theorem monitor_query_always_fails (options : Options) (remote : Remote)
    (err : nat -> JsError) :
  (forall k, getCvmByAppId remote k = Throw (err k)) ->
  0 <= maxRetries' options ->
  onError options = true -> onTimeout options = true ->
  exists events,
    monitorDeploymentStatus options remote = Some (None, events ++ [Timeout None]) /\
    errorsOf events = map err (seq 0 (Z.to_nat (maxRetries' options))) /\
    queriesOf events = replicate (Z.to_nat (maxRetries' options)) (queryTimeout' options) /\
    timeoutsOf events = [] /\ successesOf events = [] /\
    failuresOf events = [] /\ statusChangesOf events = [].
Proof.
  intros Halways Hmax HonError HonTimeout.
  destruct (loop_all_rejected options remote err Halways (Z.to_nat (maxRetries' options)) initial)
    as (s' & Hloop & Hrc & Hds & Hfin & Herr & Hq & Hto & Hsu & Hfa & Hsc);
    [cbn [initial retryCount]; lia | reflexivity |].
  cbn [initial retryCount finalCvm queries trace] in *.
  rewrite Z.sub_0_r, HonError in *. cbn [app errorsOf queriesOf omap] in *.
  exists (trace s'). unfold monitorDeploymentStatus. rewrite Hloop. cbn [fmap option_fmap option_map].
  unfold finish. rewrite Hds, Hfin, HonTimeout.
  destruct (Z.leb_spec (maxRetries' options) (retryCount s')); [|lia].
  cbn [andb negb emit]. repeat split; assumption.
Qed.

Lemma monitor_query_always_fails_witness :
  exists events,
    monitorDeploymentStatus (recording 5) (scripted alwaysFails)
      = Some (None, events ++ [Timeout None]) /\
    length (errorsOf events) = 5%nat /\ timeoutsOf events = [].
Proof.
  destruct (monitor_query_always_fails (recording 5) (scripted alwaysFails)
              (fun _ => External "ECONNABORTED"))
    as (events & Hrun & Herr & _ & Hto & _);
    [reflexivity | cbn; lia | reflexivity | reflexivity |].
  exists events. split; [exact Hrun|]. split; [|exact Hto].
  rewrite Herr. reflexivity.
Defined.

(** The count of consecutive errors stays between 0 and 2 at every test of
    the loop condition. *)
Lemma consecutiveErrors_bounds (options : Options) (remote : Remote) (s : PollingSession) :
  Reachable options remote s -> 0 <= consecutiveErrors s <= 2.
Proof.
  induction 1 as [|s s' _ IH _ Hit]; [cbn; lia|].
  destruct (getCvmByAppId remote (queries s)) as [cvm|error] eqn:Hq.
  - destruct (isRunning cvm) eqn:Hrun.
    { rewrite (iteration_running _ _ s cvm Hq Hrun) in Hit. discriminate. }
    destruct (isFailed cvm) eqn:Hfail.
    { rewrite (iteration_failed _ _ s cvm Hq Hrun Hfail) in Hit. discriminate. }
    rewrite (iteration_pending _ _ s cvm Hq Hrun Hfail) in Hit.
    injection Hit as <-. cbn. lia.
  - rewrite (iteration_rejected _ _ s error Hq) in Hit. injection Hit as <-.
    cbn [consecutiveErrors]. unfold maxConsecutiveErrors.
    destruct (Z.leb_spec 3 (consecutiveErrors s + 1)); lia.
Qed.

(** C7. In every run, at every iteration: a query that resolves resets the
    count of consecutive errors to 0; a query that is rejected increments
    it, and when the incremented count is 3 the iteration sleeps exactly
    once for twice the interval that the caller configured (twice 5000 ms
    when none was), after the error has been reported and before the
    closing wait, and leaves the count at 3 - 1; below 3 there is no such
    pause. The events of the iteration are given in full: the query, the
    report of the error, the pause, the closing wait. *)
Theorem consecutiveErrors_step (options : Options) (remote : Remote) (s : PollingSession) :
  Reachable options remote s ->
  let s' := (iteration options remote s).1 in
  let configured := match interval options with Some i => i | None => 5000 end in
  let limit := match maxRetries options with Some m => m | None => 36 end in
  let timeout := match queryTimeout options with Some t => t | None => 8000 end in
  let elapsed := now remote (S (clockReads s)) - now remote (clockReads s) in
  let closing := if (retryCount s + 1 <? limit) && negb (deploymentSuccessful s)
                 then [Sleep (Qmax 0 (inject_Z configured * (1 # 2) - inject_Z elapsed))]
                 else [] in
  match getCvmByAppId remote (queries s) with
  | Ok _ => consecutiveErrors s' = 0
  | Throw error =>
    let report := if onError options then [Error error] else [] in
    if consecutiveErrors s + 1 =? 3
    then consecutiveErrors s' = 3 - 1 /\
         trace s' = trace s ++ [StatusQuery timeout] ++ report
                      ++ [Sleep (inject_Z (configured * 2))] ++ closing
    else consecutiveErrors s' = consecutiveErrors s + 1 /\
         consecutiveErrors s' < 3 /\
         trace s' = trace s ++ [StatusQuery timeout] ++ report ++ closing
  end.
Proof.
  intros Hreach s' configured limit timeout elapsed closing.
  pose proof (consecutiveErrors_bounds options remote s Hreach) as Hb.
  subst s'. destruct (getCvmByAppId remote (queries s)) as [cvm|error] eqn:Hq.
  - destruct (isRunning cvm) eqn:Hrun.
    { now rewrite (iteration_running _ _ s cvm Hq Hrun). }
    destruct (isFailed cvm) eqn:Hfail.
    { now rewrite (iteration_failed _ _ s cvm Hq Hrun Hfail). }
    now rewrite (iteration_pending _ _ s cvm Hq Hrun Hfail).
  - rewrite (iteration_rejected _ _ s error Hq). cbn [fst consecutiveErrors trace].
    assert (Hclosing : waitOf options remote s true = closing).
    { subst closing configured limit elapsed.
      unfold waitOf, remainingWaitTime, targetWaitTime, maxRetries', interval'.
      now destruct (maxRetries options), (interval options). }
    assert (Hpause : interval' options * 2 = configured * 2)
      by (subst configured; unfold interval'; now destruct (interval options)).
    assert (Htimeout : queryTimeout' options = timeout)
      by (subst timeout; unfold queryTimeout'; now destruct (queryTimeout options)).
    rewrite Hclosing, Hpause, Htimeout. unfold maxConsecutiveErrors.
    destruct (Z.eqb_spec (consecutiveErrors s + 1) 3) as [H3 | H3];
      destruct (Z.leb_spec 3 (consecutiveErrors s + 1)); try lia.
    + split; [lia | reflexivity].
    + split; [reflexivity|]. split; [lia | reflexivity].
Qed.

Lemma consecutiveErrors_step_witness :
  let o := every 1000 5 in
  let r := scripted alwaysFails in
  let s2 := (iteration o r (iteration o r initial).1).1 in
  consecutiveErrors s2 = 2 /\
  consecutiveErrors (iteration o r s2).1 = 2 /\
  trace (iteration o r s2).1
    = trace s2 ++ [StatusQuery 8000; Error (External "ECONNABORTED");
                   Sleep (inject_Z 2000);
                   Sleep (Qmax 0 (inject_Z 1000 * (1 # 2) - inject_Z 0))].
Proof.
  intros o r s2.
  assert (Hreach : Reachable o r s2).
  { apply ReachNext with (s := (iteration o r initial).1);
      [apply ReachNext with (s := initial); [apply ReachInitial | reflexivity | reflexivity]
      | reflexivity | reflexivity]. }
  pose proof (consecutiveErrors_step o r s2 Hreach) as Hstep.
  change (getCvmByAppId r (queries s2)) with (@Throw Cvm (External "ECONNABORTED")) in Hstep.
  change (consecutiveErrors s2 + 1 =? 3) with true in Hstep.
  cbv beta iota zeta in Hstep. destruct Hstep as [Hcount Htrace].
  split; [reflexivity|]. split; [exact Hcount|].
  rewrite Htrace. reflexivity.
Defined.

(** C8. An iteration after which the loop goes on ends with a wait of
    max(0, targetInterval - elapsedTime) milliseconds, where elapsedTime
    is the clock at the end of the iteration minus the clock at its start
    and targetInterval is half the interval that the caller configured
    (5000 ms when none was) when the query of this iteration was rejected,
    and that interval otherwise. *)
Theorem wait_before_next_iteration (options : Options) (remote : Remote)
    (s s' : PollingSession) :
  let configured := match interval options with Some i => i | None => 5000 end in
  let limit := match maxRetries options with Some m => m | None => 36 end in
  iteration options remote s = (s', Falls) ->
  (retryCount s' <? limit) && negb (deploymentSuccessful s') = true ->
  let hadError := match getCvmByAppId remote (queries s) with
                  | Throw _ => true
                  | Ok _ => false
                  end in
  let elapsedTime := now remote (S (clockReads s)) - now remote (clockReads s) in
  exists earlier targetInterval,
    trace s' = earlier ++ [Sleep (Qmax 0 (targetInterval - inject_Z elapsedTime))] /\
    targetInterval == (if hadError then inject_Z configured / 2 else inject_Z configured).
Proof.
  intros configured limit Hit Hgo hadError elapsedTime.
  assert (Hlimit : maxRetries' options = limit)
    by (subst limit; unfold maxRetries'; now destruct (maxRetries options)).
  assert (Hconfigured : interval' options = configured)
    by (subst configured; unfold interval'; now destruct (interval options)).
  pose proof (iteration_falls options remote s s' Hit) as [Hrc Hds].
  assert (Hwait : forall e, waitOf options remote s e
                    = [Sleep (remainingWaitTime options e elapsedTime)]).
  { intros e. unfold waitOf. rewrite <- Hrc, <- Hds, Hlimit, Hgo. reflexivity. }
  subst hadError. destruct (getCvmByAppId remote (queries s)) as [cvm|error] eqn:Hq.
  - destruct (isRunning cvm) eqn:Hrun.
    { rewrite (iteration_running _ _ s cvm Hq Hrun) in Hit. discriminate. }
    destruct (isFailed cvm) eqn:Hfail.
    { rewrite (iteration_failed _ _ s cvm Hq Hrun Hfail) in Hit. discriminate. }
    rewrite (iteration_pending _ _ s cvm Hq Hrun Hfail) in Hit. injection Hit as <-.
    cbn [trace]. rewrite Hwait.
    exists (trace s ++ [StatusQuery (queryTimeout' options)] ++ changeOf options s cvm),
      (targetWaitTime options false).
    split; [now rewrite <- !app_assoc|].
    unfold targetWaitTime. rewrite Hconfigured. ring.
  - rewrite (iteration_rejected _ _ s error Hq) in Hit. injection Hit as <-.
    cbn [trace]. rewrite Hwait.
    exists (trace s ++ [StatusQuery (queryTimeout' options)]
              ++ (if onError options then [Error error] else [])
              ++ (if maxConsecutiveErrors <=? consecutiveErrors s + 1
                  then [Sleep (inject_Z (interval' options * 2))] else [])),
      (targetWaitTime options true).
    split; [now rewrite <- !app_assoc|].
    unfold targetWaitTime. rewrite Hconfigured. field.
Qed.

Lemma wait_before_next_iteration_witness :
  let o := every 1000 3 in
  let r := ticking failsThenStarting in
  let s1 := (iteration o r initial).1 in
  (exists earlier targetInterval,
     trace s1 = earlier ++ [Sleep (Qmax 0 (targetInterval - inject_Z (300 - 0)))] /\
     targetInterval == 500) /\
  (exists earlier targetInterval,
     trace (iteration o r s1).1
       = earlier ++ [Sleep (Qmax 0 (targetInterval - inject_Z (900 - 600)))] /\
     targetInterval == 1000).
Proof.
  intros o r s1. split.
  - destruct (wait_before_next_iteration o r initial s1 eq_refl eq_refl)
      as (earlier & targetInterval & Htrace & Htarget).
    exists earlier, targetInterval. split; [exact Htrace|].
    apply (Qeq_trans _ _ _ Htarget). reflexivity.
  - destruct (wait_before_next_iteration o r s1 (iteration o r s1).1 eq_refl eq_refl)
      as (earlier & targetInterval & Htrace & Htarget).
    exists earlier, targetInterval. split; [exact Htrace|].
    apply (Qeq_trans _ _ _ Htarget). reflexivity.
Defined.

(** The scripted run starting, starting, running, as it is in the code:
    onStatusChange is invoked for the first status seen as well. *)
Lemma scripted_run_reports_first_status :
  exists final events,
    monitorDeploymentStatus (recording 3) (scripted startingStartingRunning)
      = Some (final, events) /\
    statusChangesOf events
      = [("starting", snapshot "poll-1" "starting"); ("running", snapshot "poll-3" "running")] /\
    length (statusChangesOf events) <> 1%nat.
Proof.
  eexists _, _. split; [vm_compute; reflexivity|]. split; [reflexivity | discriminate].
Qed.

(** What the enrichment does to a running snapshot: with a network answer
    that lists at least one public URL, the [app] of the first one becomes
    the [app_url] and nothing else changes; with any other answer, or with
    a network query that fails, the snapshot is left as it is. *)
Lemma enrich_cases (cvm : Cvm) (net : Result (option NetworkInfo)) :
  (forall app rest,
      net = Ok (Some {| public_urls := Some (app :: rest) |}) ->
      enrich cvm net = {| id := id cvm; status := status cvm; app_url := app;
                          encrypted_env_pubkey := encrypted_env_pubkey cvm |}) /\
  (net = Ok None \/ net = Ok (Some {| public_urls := None |})
   \/ net = Ok (Some {| public_urls := Some [] |}) \/ (exists e, net = Throw e) ->
   enrich cvm net = cvm).
Proof.
  split.
  - now intros app rest ->.
  - now intros [-> | [-> | [-> | [e ->]]]].
Qed.

Lemma sinkCallsOf_app (t u : list Event) : sinkCallsOf (t ++ u) = sinkCallsOf t ++ sinkCallsOf u.
Proof. apply omap_app. Qed.

Lemma sinkCallsOf_waitOf (options : Options) (remote : Remote) (s : PollingSession)
    (hadError : bool) :
  sinkCallsOf (waitOf options remote s hadError) = [].
Proof. unfold waitOf. now destruct (_ && _). Qed.

(** C3, amended. When the first three queries resolve with the statuses
    starting, starting, running, at least three attempts are allowed and
    the sinks for changes and for success are present, the run makes three
    status queries and invokes the sinks three times, in this order:
    onStatusChange for the first status seen (which differs from the
    initial empty status) with the first snapshot, onStatusChange for the
    change to running with the third snapshot, then onSuccess with the
    value that the run returns. The second poll reports nothing and no
    other sink is invoked. The value returned is the third snapshot, with
    its [app_url] replaced by the first public URL when the network query
    lists one, and unchanged when the network query lists none or
    fails. *)
Theorem monitor_starting_starting_running (options : Options) (remote : Remote)
    (c1 c2 c3 : Cvm) :
  getCvmByAppId remote 0 = Ok c1 -> getCvmByAppId remote 1 = Ok c2 ->
  getCvmByAppId remote 2 = Ok c3 ->
  status c1 = "starting" -> status c2 = "starting" -> status c3 = "running" ->
  3 <= match maxRetries options with Some m => m | None => 36 end ->
  onStatusChange options = true -> onSuccess options = true ->
  exists final events,
    monitorDeploymentStatus options remote = Some (Some final, events) /\
    sinkCallsOf events
      = [StatusChange "starting" c1; StatusChange "running" c3; Success final] /\
    length (queriesOf events) = 3%nat /\
    (forall app rest,
        getCvmNetwork remote = Ok (Some {| public_urls := Some (app :: rest) |}) ->
        final = {| id := id c3; status := "running"; app_url := app;
                   encrypted_env_pubkey := encrypted_env_pubkey c3 |}) /\
    (getCvmNetwork remote = Ok None
     \/ getCvmNetwork remote = Ok (Some {| public_urls := None |})
     \/ getCvmNetwork remote = Ok (Some {| public_urls := Some [] |})
     \/ (exists e, getCvmNetwork remote = Throw e) ->
     final = c3).
Proof.
  intros Hq1 Hq2 Hq3 Hs1 Hs2 Hs3 Hmax HonChange HonSuccess.
  assert (Hmax' : 3 <= maxRetries' options)
    by (unfold maxRetries'; now destruct (maxRetries options)).
  assert (Hp1 : isRunning c1 = false /\ isFailed c1 = false)
    by (unfold isRunning, isFailed; rewrite Hs1; split; reflexivity).
  assert (Hp2 : isRunning c2 = false /\ isFailed c2 = false)
    by (unfold isRunning, isFailed; rewrite Hs2; split; reflexivity).
  assert (Hp3 : isRunning c3 = true) by (unfold isRunning; rewrite Hs3; reflexivity).
  destruct Hp1 as [Hr1 Hf1], Hp2 as [Hr2 Hf2].
  exists (enrich c3 (getCvmNetwork remote)).
  unfold monitorDeploymentStatus.
  destruct (Z.to_nat (maxRetries' options)) as [|[|[|fuel]]] eqn:Hfuel; try lia.
  rewrite loop_enter by (cbn; lia || reflexivity).
  rewrite (iteration_pending options remote initial c1 Hq1 Hr1 Hf1).
  rewrite loop_enter by (cbn; lia || reflexivity).
  match goal with
  | |- context [iteration _ _ ?s] => rewrite (iteration_pending options remote s c2 Hq2 Hr2 Hf2)
  end.
  rewrite loop_enter by (cbn; lia || reflexivity).
  match goal with
  | |- context [iteration _ _ ?s] => rewrite (iteration_running options remote s c3 Hq3 Hp3)
  end.
  cbn [fmap option_fmap option_map]. unfold finish.
  cbn [retryCount deploymentSuccessful lastStatus finalCvm queries clockReads trace initial
       negb andb app].
  rewrite andb_false_r. eexists. split; [reflexivity|].
  unfold changeOf. cbn [lastStatus initial]. rewrite HonChange, HonSuccess, Hs1, Hs2, Hs3.
  cbn [String.eqb Ascii.eqb Bool.eqb negb andb].
  destruct (enrich_cases c3 (getCvmNetwork remote)) as [Hurl Hnone]. rewrite Hs3 in Hurl.
  repeat match goal with
         | |- context [waitOf ?o ?r ?s ?e] =>
           pose proof (sinkCallsOf_waitOf o r s e);
           destruct (waitOf_silent o r s e) as (_ & _ & _ & _ & _ & ?);
           generalize dependent (waitOf o r s e); intros
         end.
  unfold queriesOf, sinkCallsOf in *.
  split; [|split; [|split; [exact Hurl | exact Hnone]]];
    repeat first
      [ rewrite omap_app
      | progress cbn [omap list_omap app length]
      | match goal with H : omap _ ?l = [] |- context [omap _ ?l] => rewrite H end ];
    reflexivity.
Qed.

Lemma monitor_starting_starting_running_witness :
  exists final events,
    monitorDeploymentStatus (recording 3) (published startingStartingRunning)
      = Some (Some final, events) /\
    sinkCallsOf events
      = [StatusChange "starting" (snapshot "poll-1" "starting");
         StatusChange "running" (snapshot "poll-3" "running");
         Success final] /\
    final = {| id := "poll-3"; status := "running"; app_url := Some "https://app.example";
               encrypted_env_pubkey := None |}.
Proof.
  destruct (monitor_starting_starting_running (recording 3) (published startingStartingRunning)
              (snapshot "poll-1" "starting") (snapshot "poll-2" "starting")
              (snapshot "poll-3" "running"))
    as (final & events & Hrun & Hcalls & _ & Hurl & _);
    [reflexivity | reflexivity | reflexivity | reflexivity | reflexivity | reflexivity
    | cbn; lia | reflexivity | reflexivity |].
  exists final, events. split; [exact Hrun|]. split; [exact Hcalls|].
  exact (Hurl (Some "https://app.example") [] eq_refl).
Defined.
End MonitorFacts.

(** ** The hexadecimal codec: round trips and failures *)

Module HexCodecFacts.
Import Js Hex HexText StringFacts TextFacts HexFacts.

Lemma encodesLower_all (b : byte) : encodesLower b = true.
Proof. destruct b; vm_compute; reflexivity. Qed.

Lemma allChars_append (p : ascii -> bool) (s t : string) :
  allChars p (s +:+ t) = allChars p s && allChars p t.
Proof.
  induction s as [|c s IH]; [reflexivity|].
  rewrite append_cons. cbn [allChars]. now rewrite IH, andb_assoc.
Qed.

Lemma allChars_uint8ArrayToHex (bytes : list byte) :
  allChars isLowerHex (uint8ArrayToHex bytes) = true.
Proof.
  induction bytes as [|b bytes IH]; [reflexivity|].
  cbn [uint8ArrayToHex foldr]. fold (uint8ArrayToHex bytes).
  rewrite allChars_append, IH, andb_true_r. apply encodesLower_all.
Qed.

(** What the decoder does with a text that carries the prefix. *)
Lemma hexToUint8Array_prefixed (h : string) :
  hexToUint8Array ("0x" +:+ h)
  = if Nat.even (String.length h) then Ok (decodePairs h) else Throw NotHexString.
Proof.
  unfold hexToUint8Array. rewrite !append_cons, append_nil.
  unfold startsWith. cbn [String.prefix]. rewrite prefix_empty.
  destruct (ascii_dec "0" "0"); [|congruence]. destruct (ascii_dec "x" "x"); [|congruence].
  cbn [String.length Nat.sub String.substring]. rewrite Nat.sub_0_r, substring_all.
  now destruct (Nat.even (String.length h)).
Qed.

Lemma length_decodePairs (n : nat) : forall h,
  String.length h = (2 * n)%nat -> length (decodePairs h) = n.
Proof.
  induction n as [|n IH]; intros h Hlen.
  - destruct h; [reflexivity | discriminate].
  - destruct h as [|c1 [|c2 h]]; try (cbn in Hlen; lia).
    cbn [decodePairs length]. f_equal. apply IH. cbn in Hlen. lia.
Qed.

(** X1. The codec round trip. Every byte array, encoded by
    uint8ArrayToHex and decoded by hexToUint8Array, comes back unchanged,
    with or without the prefix 0x before the encoding; the encoding has two
    characters for each byte and uses the digits 0-9 and a-f only. *)
Theorem hex_round_trip (bytes : list byte) :
  hexToUint8Array (uint8ArrayToHex bytes) = Ok bytes /\
  hexToUint8Array ("0x" +:+ uint8ArrayToHex bytes) = Ok bytes /\
  String.length (uint8ArrayToHex bytes) = (2 * length bytes)%nat /\
  allChars isLowerHex (uint8ArrayToHex bytes) = true.
Proof.
  split; [apply hexToUint8Array_uint8ArrayToHex|]. split; [|split].
  - rewrite hexToUint8Array_prefixed, length_uint8ArrayToHex, Nat.even_mul.
    cbn [Nat.even orb]. now rewrite decodePairs_uint8ArrayToHex.
  - apply length_uint8ArrayToHex.
  - apply allChars_uint8ArrayToHex.
Qed.

(** X2. When hexToUint8Array fails. For a text that does not itself start
    with 0x, the decoder gives the same outcome with the prefix 0x as
    without it; it throws, and then its one error, exactly when the length
    is odd; and every result has half as many bytes as the text has
    characters. *)
Theorem hexToUint8Array_fails_iff_odd (h : string) :
  startsWith h "0x" = false ->
  hexToUint8Array ("0x" +:+ h) = hexToUint8Array h /\
  (hexToUint8Array h = Throw NotHexString <-> Nat.odd (String.length h) = true) /\
  (forall bytes, hexToUint8Array h = Ok bytes -> String.length h = (2 * length bytes)%nat).
Proof.
  intros H0x. rewrite hexToUint8Array_prefixed. unfold hexToUint8Array. rewrite H0x.
  rewrite <- Nat.negb_even. destruct (Nat.even (String.length h)) eqn:Heven; cbn [negb].
  - split; [reflexivity|]. split; [split; discriminate|].
    intros bytes [= <-]. apply Nat.even_spec in Heven as [n Hn].
    now rewrite (length_decodePairs n h Hn).
  - split; [reflexivity|]. split; [split; reflexivity | discriminate].
Qed.

Lemma hexToUint8Array_fails_iff_odd_witness :
  hexToUint8Array "0x0aff" = hexToUint8Array "0aff" /\
  (hexToUint8Array "0aff" = Throw NotHexString <-> Nat.odd 4 = true).
Proof.
  destruct (hexToUint8Array_fails_iff_odd "0aff" eq_refl) as (Hprefix & Hfail & _).
  split; [exact Hprefix | exact Hfail].
Defined.

Lemma isHexDigit_listed (c : ascii) :
  implb (isHexDigit c) (existsb (Ascii.eqb c) hexChars) = true.
Proof. destruct c as [[] [] [] [] [] [] [] []]; vm_compute; reflexivity. Qed.

Lemma isHexDigit_in (c : ascii) : isHexDigit c = true -> In c hexChars.
Proof.
  intros Hc. pose proof (isHexDigit_listed c) as H. rewrite Hc in H. cbn [implb] in H.
  apply existsb_exists in H as (c' & Hin & Heq). apply Ascii.eqb_eq in Heq. now subst.
Qed.

Lemma pairNormalises_all :
  forallb (fun c1 => forallb (pairNormalises c1) hexChars) hexChars = true.
Proof. vm_compute. reflexivity. Qed.

Lemma pair_normalises (c1 c2 : ascii) :
  isHexDigit c1 = true -> isHexDigit c2 = true ->
  padStart2 (toString16 (toUint8 (parseInt16 (String c1 (String c2 EmptyString)))))
  = String (lowerUnit c1) (String (lowerUnit c2) EmptyString).
Proof.
  intros H1%isHexDigit_in H2%isHexDigit_in.
  pose proof pairNormalises_all as Hall.
  rewrite forallb_forall in Hall. specialize (Hall c1 H1).
  rewrite forallb_forall in Hall. specialize (Hall c2 H2).
  now apply String.eqb_eq in Hall.
Qed.

Lemma isHexDigit_not_x (c : ascii) : isHexDigit c = true -> c <> "x"%char.
Proof. intros Hc ->. discriminate. Qed.

Lemma normalise_pairs (n : nat) : forall h,
  String.length h = (2 * n)%nat -> allChars isHexDigit h = true ->
  startsWith h "0x" = false /\ uint8ArrayToHex (decodePairs h) = toLowerCase h.
Proof.
  induction n as [|n IH]; intros h Hlen Hall.
  - destruct h; [now split | discriminate].
  - destruct h as [|c1 [|c2 h]]; try (cbn in Hlen; lia).
    cbn [allChars] in Hall. apply andb_true_iff in Hall as [H1 [H2 Hall]%andb_true_iff].
    destruct (IH h) as [_ IHh]; [cbn in Hlen; lia | assumption |].
    split.
    + unfold startsWith. cbn [String.prefix]. destruct (ascii_dec "0" c1); [|reflexivity].
      destruct (ascii_dec "x" c2) as [<- |]; [discriminate | reflexivity].
    + cbn [decodePairs uint8ArrayToHex foldr toLowerCase]. fold (uint8ArrayToHex (decodePairs h)).
      rewrite (pair_normalises c1 c2 H1 H2), IHh. reflexivity.
Qed.

(** X3. Decoding then encoding normalises the case. A text of even length
    made of hexadecimal digits decodes without error, the encoding of the
    decoded bytes is the text in lower case, and the text in lower case
    decodes to the same bytes. *)
Theorem hex_decode_encode_normalises (h : string) :
  allChars isHexDigit h = true -> Nat.even (String.length h) = true ->
  exists bytes,
    hexToUint8Array h = Ok bytes /\
    uint8ArrayToHex bytes = toLowerCase h /\
    hexToUint8Array (toLowerCase h) = Ok bytes.
Proof.
  intros Hall Heven. apply Nat.even_spec in Heven as Hn. destruct Hn as [n Hn].
  destruct (normalise_pairs n h Hn Hall) as [H0x Hnorm].
  exists (decodePairs h). split; [|split].
  - unfold hexToUint8Array. now rewrite H0x, Heven.
  - exact Hnorm.
  - rewrite <- Hnorm. apply hexToUint8Array_uint8ArrayToHex.
Qed.

Lemma hex_decode_encode_normalises_witness :
  exists bytes,
    hexToUint8Array "0AfF10" = Ok bytes /\
    uint8ArrayToHex bytes = "0aff10" /\
    hexToUint8Array "0aff10" = Ok bytes.
Proof. exact (hex_decode_encode_normalises "0AfF10" eq_refl eq_refl). Defined.
End HexCodecFacts.

(** ** The secret codec: outcomes *)

Module CodecOutcomes.
Import Js Hex SecretCodec HexFacts CodecFacts.

(** X4. The outcomes of encryptSecrets. The call fails in exactly three
    places, tried in this order: the decoding of the remote key, the key
    agreement, the cipher; each error is rethrown wrapped by the catch
    clause. Otherwise the three calls of set never go out of range and the
    result is the encoding of the local public key followed by the nonce and
    the ciphertext. *)
Theorem encryptSecrets_outcome (P : Platform) (rnd : Entropy) (envs : list Env)
    (pubkey : string) :
  encryptSecrets P rnd envs pubkey =
    match hexToUint8Array pubkey with
    | Throw e => Throw (EncryptFailed e)
    | Ok remotePubkey =>
      match getSharedSecret P (privateKey rnd) remotePubkey with
      | Throw e => Throw (EncryptFailed e)
      | Ok shared =>
        match aesGcmEncrypt P shared (iv rnd) (serialize P envs) with
        | Throw e => Throw (EncryptFailed e)
        | Ok encrypted =>
          Ok (uint8ArrayToHex (getPublicKey P (privateKey rnd) ++ iv rnd ++ encrypted))
        end
      end
    end.
Proof.
  unfold encryptSecrets.
  destruct (hexToUint8Array pubkey) as [remotePubkey|e]; [|reflexivity]. cbn [bind].
  destruct (getSharedSecret P (privateKey rnd) remotePubkey) as [shared|e]; [|reflexivity].
  cbn [bind].
  destruct (aesGcmEncrypt P shared (iv rnd) (serialize P envs)) as [encrypted|e]; [|reflexivity].
  cbn [bind]. now rewrite set_three.
Qed.

(** X5. The payload that encryptSecrets returns. A returned payload decodes
    again, by hexToUint8Array, to the local public key followed by the nonce
    and some ciphertext; it has two characters for each of these bytes and
    does not start with 0x. *)
Theorem encryptSecrets_payload_length (P : Platform) (rnd : Entropy) (envs : list Env)
    (pubkey payload : string) :
  encryptSecrets P rnd envs pubkey = Ok payload ->
  exists encrypted,
    hexToUint8Array payload = Ok (getPublicKey P (privateKey rnd) ++ iv rnd ++ encrypted) /\
    String.length payload
    = (2 * (length (getPublicKey P (privateKey rnd)) + length (iv rnd) + length encrypted))%nat /\
    startsWith payload "0x" = false.
Proof.
  unfold encryptSecrets.
  destruct (hexToUint8Array pubkey) as [remotePubkey|e]; [|discriminate]. cbn [bind].
  destruct (getSharedSecret P (privateKey rnd) remotePubkey) as [shared|e]; [|discriminate].
  cbn [bind].
  destruct (aesGcmEncrypt P shared (iv rnd) (serialize P envs)) as [encrypted|e]; [|discriminate].
  cbn [bind]. rewrite set_three. cbn [bind rethrow]. intros Hout. exists encrypted.
  assert (payload = uint8ArrayToHex (getPublicKey P (privateKey rnd) ++ iv rnd ++ encrypted))
    as -> by congruence.
  split; [apply hexToUint8Array_uint8ArrayToHex|]. split.
  - rewrite length_uint8ArrayToHex, !length_app. lia.
  - apply startsWith_uint8ArrayToHex.
Qed.

Lemma encryptSecrets_payload_length_witness :
  exists encrypted,
    hexToUint8Array
      (uint8ArrayToHex
         (Toy.pad32 (privateKey Toy.entropy) ++ iv Toy.entropy ++ Toy.sealedSecrets))
    = Ok (getPublicKey Toy.platform (privateKey Toy.entropy) ++ iv Toy.entropy ++ encrypted) /\
    String.length
      (uint8ArrayToHex
         (Toy.pad32 (privateKey Toy.entropy) ++ iv Toy.entropy ++ Toy.sealedSecrets))
    = (2 * (length (getPublicKey Toy.platform (privateKey Toy.entropy))
            + length (iv Toy.entropy) + length encrypted))%nat /\
    startsWith
      (uint8ArrayToHex
         (Toy.pad32 (privateKey Toy.entropy) ++ iv Toy.entropy ++ Toy.sealedSecrets))
      "0x" = false.
Proof.
  apply (encryptSecrets_payload_length Toy.platform Toy.entropy Toy.secrets
           (uint8ArrayToHex (Toy.pad32 Toy.remotePrivateKey))).
  vm_compute. reflexivity.
Defined.
End CodecOutcomes.

(** ** The retrying transport: successes and budgets *)

Module RetryBounds.
Import Retry RetryBudget RetryFacts.

(** X6. Transient failures are hidden from the caller. When the first k
    attempts fail with a network error or a status of 500 and above, k is
    at most maxRetries and the next attempt resolves, executeWithRetry
    returns the data of that attempt after k + 1 calls and the delays 2000,
    4000, ..., 2^k * 1000. *)
Theorem retry_hides_transient_failures {T} (maxRetries : Z) (reqFunction : nat -> Settled T)
    (k : nat) (data : T) :
  Z.of_nat k <= maxRetries ->
  (forall j, (j < k)%nat -> transient (reqFunction j)) ->
  reqFunction k = Resolved data ->
  executeWithRetry maxRetries reqFunction
  = (Returned data, {| calls := S k; delays := backoff k |}).
Proof.
  intros Hk Hpre Hres.
  rewrite (run_stops maxRetries reqFunction k Hk Hpre); [now rewrite Hres|].
  left. rewrite Hres. intros (err & Herr & _). discriminate.
Qed.

Lemma retry_hides_transient_failures_witness :
  executeWithRetry 2 (fun n => match n with
                               | 0%nat => Rejected err503
                               | _ => Resolved "body"
                               end)
  = (Returned "body", {| calls := 2; delays := [2000] |}).
Proof.
  apply (retry_hides_transient_failures 2 _ 1 "body"); [lia | | reflexivity].
  intros j Hj. assert (j = 0%nat) as -> by lia.
  exists err503. split; [reflexivity|]. right. exists 503. split; [reflexivity | lia].
Defined.

Lemma totalDelay_app (l l' : list Z) : totalDelay (l ++ l') = totalDelay l + totalDelay l'.
Proof. unfold totalDelay. induction l as [|d l IH]; cbn [app foldr]; lia. Qed.

Lemma backoff_S (k : nat) : backoff (S k) = backoff k ++ [delay (Z.of_nat (S k))].
Proof. unfold backoff. now rewrite seq_S, map_app. Qed.

Lemma totalDelay_backoff (k : nat) :
  totalDelay (backoff k) = 1000 * (2 ^ (Z.of_nat k + 1) - 2).
Proof.
  induction k as [|k IH]; [reflexivity|].
  rewrite backoff_S, totalDelay_app, IH. unfold totalDelay, delay. cbn [foldr].
  replace (Z.of_nat (S k) + 1) with (Z.of_nat (S k) + 1 * 1) by lia.
  replace (Z.of_nat k + 1) with (Z.of_nat (S k)) by lia.
  rewrite Z.pow_add_r by lia. lia.
Qed.

(** X7. The budget of executeWithRetry. With a negative maxRetries no
    request is made and the undefined lastError is thrown. Otherwise the
    loop ends, after at least one and at most maxRetries + 1 calls, having
    waited once between two calls, in all 1000 * (2^calls - 2) milliseconds,
    which is at most 1000 * (2^(maxRetries + 1) - 2). *)
Theorem executeWithRetry_budget {T} (maxRetries : Z) (reqFunction : nat -> Settled T) :
  let run := executeWithRetry maxRetries reqFunction in
  (maxRetries < 0 -> run = (Thrown None, {| calls := 0; delays := [] |})) /\
  (0 <= maxRetries ->
   run.1 <> OutOfFuel /\
   (1 <= Z.of_nat (calls run.2) <= maxRetries + 1) /\
   length (delays run.2) = (calls run.2 - 1)%nat /\
   totalDelay (delays run.2) = 1000 * (2 ^ Z.of_nat (calls run.2) - 2) /\
   totalDelay (delays run.2) <= 1000 * (2 ^ (maxRetries + 1) - 2)).
Proof.
  intros run. split.
  - intros Hneg. subst run. unfold executeWithRetry. cbn [loop].
    destruct (Z.leb_spec 0 maxRetries); [lia | reflexivity].
  - intros Hmax.
    destruct (stop_exists reqFunction (Z.to_nat maxRetries)) as (k & Hk & Hpre & Hstop).
    assert (Hrun : run = (settle (reqFunction k), {| calls := S k; delays := backoff k |})).
    { apply run_stops; [lia | assumption |]. destruct Hstop as [? | ->]; [now left | right; lia]. }
    rewrite Hrun. cbn [fst snd calls delays].
    split; [destruct (reqFunction k); discriminate|].
    split; [lia|]. split; [unfold backoff; rewrite length_map, length_seq; lia|].
    rewrite totalDelay_backoff. split; [f_equal; f_equal; f_equal; lia|].
    assert (2 ^ (Z.of_nat k + 1) <= 2 ^ (maxRetries + 1)) by (apply Z.pow_le_mono_r; lia).
    lia.
Qed.

Lemma executeWithRetry_budget_witness :
  executeWithRetry (-1) (@always unit err503) = (Thrown None, {| calls := 0; delays := [] |}) /\
  totalDelay (delays (executeWithRetry 2 (@always unit err503)).2) <= 6000.
Proof.
  destruct (executeWithRetry_budget (-1) (@always unit err503)) as [Hneg _].
  destruct (executeWithRetry_budget 2 (@always unit err503)) as [_ Hpos].
  split; [apply Hneg; lia|].
  destruct (Hpos ltac:(lia)) as (_ & _ & _ & _ & Hle). exact Hle.
Defined.
End RetryBounds.

(** ** The requests: timeouts and identifiers *)

Module ApiClientFacts.
Import Js ApiClient StringFacts TextFacts.

Lemma startsWith_normalizeId (identifier : string) :
  startsWith (normalizeId identifier) "app_" = true.
Proof.
  unfold normalizeId. destruct (startsWith identifier "app_") eqn:H; [exact H|].
  apply prefix_append.
Qed.

(** The path of a request on a normalised identifier is a status path. *)
Lemma includes_normalized (identifier suffix : string) :
  includes ("/api/v1/cvms/" +:+ normalizeId identifier +:+ suffix) "/api/v1/cvms/app_" = true.
Proof.
  destruct (startsWith_split _ _ (startsWith_normalizeId identifier)) as (rest & ->).
  rewrite append_assoc. change ("/api/v1/cvms/" +:+ "app_" +:+ rest +:+ suffix)
    with ("" +:+ "/api/v1/cvms/app_" +:+ (rest +:+ suffix)).
  apply includes_middle.
Qed.

Lemma orNumber_timeoutConfig (timeout : option Z) (d : Z) :
  orNumber (timeoutConfig timeout) d = effective timeout d.
Proof.
  unfold orNumber, timeoutConfig, effective, truthyNumber.
  destruct timeout as [t|]; [|reflexivity].
  destruct (t =? 0) eqn:H; cbn [negb]; [reflexivity | now rewrite H].
Qed.

(** X8. The timeout of each request. A query of a deployment by app id, of
    its stats or of its composition runs with the timeout of the caller
    when that is given and not 0, and with 15000 ms otherwise; the queries
    of the attestation, the network and the key run with 15000 ms; the
    upgrade and the creation are posted with 60000 ms, the key request of
    deploy with 30000 ms; the PUT of updateCompose carries no timeout of its
    own, so the default of the axios instance applies. *)
Theorem request_timeouts :
  (forall appId t, timeout (getCvmByAppId appId t) = Some (effective t 15000)) /\
  (forall identifier t, timeout (getCvmStats identifier t) = Some (effective t 15000)) /\
  (forall identifier t, timeout (getCvmComposition identifier t) = Some (effective t 15000)) /\
  (forall identifier, timeout (getCvmAttestation identifier) = Some 15000) /\
  (forall appId, timeout (getCvmNetwork appId) = Some 15000) /\
  (forall appId, timeout (getPubkeyFromCvm appId) = Some 15000) /\
  (forall name, timeout (requestUpgrade name) = Some 60000) /\
  timeout requestCreate = Some 60000 /\
  timeout requestPubkey = Some 30000 /\
  (forall identifier, timeout (requestUpdateCompose identifier) = None).
Proof.
  repeat split.
  - intros appId t. unfold getCvmByAppId, get. cbn [timeout].
    change ("/api/v1/cvms/app_" +:+ appId) with ("" +:+ "/api/v1/cvms/app_" +:+ appId).
    now rewrite includes_middle, orNumber_timeoutConfig.
  - intros identifier t. unfold getCvmStats, get. cbn [timeout].
    now rewrite includes_normalized, orNumber_timeoutConfig.
  - intros identifier t. unfold getCvmComposition, get. cbn [timeout].
    now rewrite includes_normalized, orNumber_timeoutConfig.
  - intros identifier. unfold getCvmAttestation, get. cbn [timeout].
    now rewrite includes_normalized.
  - intros appId. unfold getCvmNetwork, get. cbn [timeout].
    change ("/api/v1/cvms/app_" +:+ appId +:+ "/network")
      with ("" +:+ "/api/v1/cvms/app_" +:+ (appId +:+ "/network")).
    now rewrite includes_middle.
  - intros appId. unfold getPubkeyFromCvm, get. cbn [timeout].
    change ("/api/v1/cvms/app_" +:+ appId +:+ "/pubkey")
      with ("" +:+ "/api/v1/cvms/app_" +:+ (appId +:+ "/pubkey")).
    now rewrite includes_middle.
  - intros name. unfold requestUpgrade, post. cbn [timeout].
    replace ("/api/v1/cvms/app_" +:+ name +:+ "/compose")
      with (("/api/v1/cvms/app_" +:+ name) +:+ "/compose" +:+ "") by now rewrite append_assoc.
    now rewrite includes_middle, orb_true_r.
Qed.

Lemma normalizeId_idempotent (identifier : string) :
  normalizeId (normalizeId identifier) = normalizeId identifier.
Proof. unfold normalizeId at 1. now rewrite startsWith_normalizeId. Qed.

(** X9. The two forms of an identifier. Adding the prefix app_ where it is
    missing is idempotent and leaves a prefixed identifier alone, so the
    queries of attestation, stats and composition, start, stop and the PUT
    of updateCompose send the same request for an identifier and for its
    prefixed form. getCvmByAppId adds the prefix without looking: given a
    prefixed identifier, its path carries the prefix twice. *)
Theorem identifier_forms (identifier : string) (t : option Z) :
  normalizeId (normalizeId identifier) = normalizeId identifier /\
  normalizeId ("app_" +:+ identifier) = "app_" +:+ identifier /\
  getCvmAttestation (normalizeId identifier) = getCvmAttestation identifier /\
  getCvmStats (normalizeId identifier) t = getCvmStats identifier t /\
  getCvmComposition (normalizeId identifier) t = getCvmComposition identifier t /\
  startCvm (normalizeId identifier) t = startCvm identifier t /\
  stopCvm (normalizeId identifier) t = stopCvm identifier t /\
  requestUpdateCompose (normalizeId identifier) = requestUpdateCompose identifier /\
  path (getCvmByAppId (normalizeId identifier) t)
    = "/api/v1/cvms/app_" +:+ normalizeId identifier /\
  startsWith (path (getCvmByAppId (normalizeId identifier) t)) "/api/v1/cvms/app_app_" = true.
Proof.
  unfold getCvmAttestation, getCvmStats, getCvmComposition, startCvm, stopCvm,
    requestUpdateCompose.
  rewrite !normalizeId_idempotent. repeat split.
  - unfold normalizeId at 1. unfold startsWith. now rewrite prefix_append.
  - unfold getCvmByAppId, get. cbn [path].
    destruct (startsWith_split _ _ (startsWith_normalizeId identifier)) as (rest & ->).
    change ("/api/v1/cvms/app_" +:+ "app_" +:+ rest) with ("/api/v1/cvms/app_app_" +:+ rest).
    apply prefix_append.
Qed.
End ApiClientFacts.

(** ** parseEnv: the shape of the result *)

Module EnvResultFacts.
Import Js EnvParser EnvShape StringFacts TextFacts EnvFacts.

(** No piece of a split contains the separator. *)
Lemma split_pieces (s : string) : Forall (fun piece => includes piece "=" = false) (split "=" s).
Proof.
  induction s as [|c s IH]; [now repeat constructor|].
  cbn [split]. destruct (Ascii.eqb c "=") eqn:Hc; [now constructor|].
  destruct (split "=" s) as [|piece pieces]; [repeat constructor; now rewrite includes_cons, Hc|].
  inversion IH as [|? ? Hpiece Hpieces]; subst. constructor; [|assumption].
  now rewrite includes_cons, Hc.
Qed.

Lemma binding_wellFormed (e k v : string) : binding e = Some (k, v) -> wellFormed k v.
Proof.
  unfold binding, destructure2. destruct (includes e "="); [|discriminate].
  pose proof (split_pieces e) as Hpieces.
  destruct (split "=" e !! 0%nat) as [k'|] eqn:Hk; [|discriminate].
  destruct (split "=" e !! 1%nat) as [v'|] eqn:Hv; [|discriminate].
  destruct (truthyString k') eqn:Htk; [|discriminate].
  destruct (truthyString v') eqn:Htv; [|discriminate].
  intros [= <- <-]. rewrite Forall_lookup in Hpieces.
  repeat split; [now apply truthyString_nonempty | now apply truthyString_nonempty
                | exact (Hpieces _ _ Hk) | exact (Hpieces _ _ Hv)].
Qed.

Lemma Forall_put (P : string * string -> Prop) (m : JsObject) (k v : string) :
  Forall P m -> P (k, v) -> Forall P (put m k v).
Proof.
  intros Hm Hkv. induction Hm as [|[k' v'] m Hx Hm IH]; cbn [put]; [now repeat constructor|].
  destruct (String.eqb_spec k' k) as [-> | Hne]; constructor; assumption.
Qed.

Lemma parseLines_wellFormed (lines : list string) : forall m : JsObject,
  Forall (fun kv => wellFormed kv.1 kv.2 /\ kv.1 <> "__proto__") m ->
  Forall (fun kv => wellFormed kv.1 kv.2 /\ kv.1 <> "__proto__") (parseLines lines m).
Proof.
  induction lines as [|e lines IH]; intros m Hm; [exact Hm|].
  rewrite parseLines_cons.
  apply IH. destruct (binding e) as [[k v]|] eqn:Hb; [|exact Hm].
  unfold assign. destruct (String.eqb_spec k "__proto__") as [|Hne]; [exact Hm|].
  apply Forall_put; [exact Hm|]. split; [now apply (binding_wellFormed e) | exact Hne].
Qed.

Lemma parseEnvVars_wellFormed (fs : FileSystem) (envs : list string) (envFile : string)
    (m : JsObject) :
  parseEnvVars fs envs envFile = Ok m ->
  Forall (fun kv => wellFormed kv.1 kv.2 /\ kv.1 <> "__proto__") m.
Proof.
  unfold parseEnvVars.
  assert (H0 : Forall (fun kv => wellFormed kv.1 kv.2 /\ kv.1 <> "__proto__")
                 (parseLines envs [])) by (apply parseLines_wellFormed; constructor).
  destruct (truthyString envFile && existsSync fs envFile).
  - destruct (readFileSync fs envFile) as [content|err]; [|discriminate].
    intros [= <-]. now apply parseLines_wellFormed.
  - now intros [= <-].
Qed.

(** X10. The shape of what parseEnv returns. No key occurs twice; every key
    and every value is non-empty and free of the separator =; the key
    __proto__ does not occur. *)
Theorem parseEnv_result_shape (fs : FileSystem) (envs : list string) (envFile : string)
    (result : list Env) :
  parseEnv fs envs envFile = Ok result ->
  NoDup (key <$> result) /\
  (forall e, e ∈ result -> wellFormed (key e) (value e) /\ key e <> "__proto__").
Proof.
  unfold parseEnv. destruct (parseEnvVars fs envs envFile) as [m|err] eqn:Hm; [|discriminate].
  intros [= <-]. pose proof (NoDup_parseEnvVars fs envs envFile m Hm) as Hnodup.
  apply parseEnvVars_wellFormed in Hm. split.
  - unfold entries. rewrite <- list_fmap_compose.
    replace (key ∘ (fun kv : string * string => {| key := kv.1; value := kv.2 |}))
      with (@fst string string) by reflexivity.
    now rewrite (ownProperties_perm m).
  - intros [k v] ([k' v'] & Heq & Hin)%list_elem_of_fmap. cbn in Heq. injection Heq as -> ->.
    rewrite (ownProperties_perm m) in Hin. rewrite Forall_forall in Hm.
    exact (Hm (k', v') Hin).
Qed.

Lemma parseEnv_result_shape_witness :
  NoDup (key <$> [{| key := "A"; value := "file" |}]) /\
  (forall e, e ∈ [{| key := "A"; value := "file" |}] ->
             wellFormed (key e) (value e) /\ key e <> "__proto__").
Proof.
  apply (parseEnv_result_shape sampleFs ["A=array"; "=x"; "B="] ".env").
  vm_compute. reflexivity.
Defined.

(** X11. The last binding of a key wins. When an entry of the array binds
    K to V and no later entry binds K, parseEnv without a file returns V
    for K, and no second pair for K, whatever earlier entries bound. *)
Theorem parseEnv_last_binding_wins (fs : FileSystem) (before after : list string)
    (e K V : string) :
  binding e = Some (K, V) -> K <> "__proto__" ->
  (forall e', e' ∈ after -> forall v, binding e' <> Some (K, v)) ->
  exists result,
    parseEnv fs (before ++ e :: after) "" = Ok result /\
    {| key := K; value := V |} ∈ result /\
    (forall v, {| key := K; value := v |} ∈ result -> v = V).
Proof.
  intros Hb Hproto Hfree. unfold parseEnv, parseEnvVars.
  cbn [truthyString String.eqb negb andb bind].
  eexists. split; [reflexivity|].
  apply entries_of_get; [apply NoDup_parseLines, NoDup_nil_2|].
  now apply parseLines_bound.
Qed.

Lemma parseEnv_last_binding_wins_witness :
  exists result,
    parseEnv sampleFs (["A=1"; "B=2"] ++ "A=3" :: ["C=4"]) "" = Ok result /\
    {| key := "A"; value := "3" |} ∈ result.
Proof.
  destruct (parseEnv_last_binding_wins sampleFs ["A=1"; "B=2"] ["C=4"] "A=3" "A" "3")
    as (result & Hresult & Hin & _).
  - reflexivity.
  - discriminate.
  - intros e' He' v. apply list_elem_of_singleton in He' as ->. vm_compute. discriminate.
  - exists result. split; assumption.
Defined.
End EnvResultFacts.

(** ** The submitter: validation, order of the calls, keys *)

Module SubmitterProtocol.
Import Js EnvParser Submitter SubmitterShape StringFacts TextFacts EnvFacts SubmitterFacts.

Lemma substring_append (p r : string) :
  String.substring (String.length p) (String.length (p +:+ r) - String.length p) (p +:+ r) = r.
Proof.
  rewrite length_append. replace (String.length p + String.length r - String.length p)%nat
    with (String.length r) by lia.
  induction p as [|c p IH]; [apply substring_all|].
  rewrite append_cons. cbn [String.length String.substring]. exact IH.
Qed.

Lemma removeFirst_unfold (p s : string) :
  removeFirst p s
  = if String.prefix p s
    then String.substring (String.length p) (String.length s - String.length p) s
    else match s with
         | EmptyString => EmptyString
         | String c s' => String c (removeFirst p s')
         end.
Proof. now destruct s. Qed.

(** [s.replace(p, '')] on a text that starts with [p] removes that prefix. *)
Lemma removeFirst_prefix (p r : string) : removeFirst p (p +:+ r) = r.
Proof.
  rewrite removeFirst_unfold, prefix_append. apply substring_append.
Qed.

(** A text that does not include [p] is left as it is. *)
Lemma removeFirst_absent (p s : string) : includes s p = false -> removeFirst p s = s.
Proof.
  induction s as [|c s IH]; cbn [includes removeFirst]; intros H;
    apply orb_false_elim in H as [Hp Hs]; rewrite Hp; [reflexivity|]. now rewrite IH.
Qed.

(** A text that includes [p] loses as many code units as [p] has. *)
Lemma removeFirst_length (p s : string) :
  includes s p = true ->
  (String.length (removeFirst p s) + String.length p = String.length s)%nat.
Proof.
  assert (forall t, String.prefix p t = true ->
            (String.length (removeFirst p t) + String.length p = String.length t)%nat) as Hpre.
  { intros t H. destruct (startsWith_split t p H) as (r & ->).
    rewrite removeFirst_prefix, length_append. lia. }
  induction s as [|c s IH]; cbn [includes]; intros H.
  - rewrite orb_false_r in H. now apply Hpre.
  - destruct (String.prefix p (String c s)) eqn:Hp.
    + now apply Hpre.
    + cbn [orb] in H. cbn [removeFirst]. rewrite Hp. cbn [String.length].
      specialize (IH H). lia.
Qed.

(** The deployment that updateCompose asks about is the one it updates
    exactly when the identifier starts with [app_] or does not contain it. *)
Lemma removeFirst_normalizeId (identifier : string) :
  "app_" +:+ removeFirst "app_" identifier = ApiClient.normalizeId identifier
  <-> startsWith identifier "app_" = true \/ includes identifier "app_" = false.
Proof.
  unfold ApiClient.normalizeId. destruct (startsWith identifier "app_") eqn:Hs.
  - destruct (startsWith_split _ _ Hs) as (r & ->).
    rewrite removeFirst_prefix. split; [now left | reflexivity].
  - destruct (includes identifier "app_") eqn:Hi.
    + split; [|intros [H | H]; discriminate]. intros E. exfalso.
      apply (f_equal String.length) in E. rewrite !length_append in E.
      pose proof (removeFirst_length "app_" identifier Hi) as Hl. cbn [String.length] in *. lia.
    + rewrite (removeFirst_absent _ _ Hi). split; [now right | reflexivity].
Qed.

Section Operations.
Variable fs : FileSystem.
Variable cloud : Cloud.
Variable encryptSecrets : list Env -> string -> Result string.

(** X12. Validation comes first. deploy rejects a type other than phala,
    then a mode other than docker-compose, then an empty name, then an empty
    compose path; upgrade rejects an empty name, then an empty compose
    path; updateCompose rejects an empty identifier, then an empty compose
    path. In each case nothing has been read, requested or encrypted. *)
Theorem operations_validate_before_any_call :
  (forall o, type o <> "phala" ->
             run (deploy fs cloud encryptSecrets o) = (Throw TypeRequired, [])) /\
  (forall o, type o = "phala" -> mode o <> "docker-compose" ->
             run (deploy fs cloud encryptSecrets o) = (Throw ModeRequired, [])) /\
  (forall o, type o = "phala" -> mode o = "docker-compose" -> name o = "" ->
             run (deploy fs cloud encryptSecrets o) = (Throw NameRequired, [])) /\
  (forall o, type o = "phala" -> mode o = "docker-compose" -> name o <> "" -> compose o = "" ->
             run (deploy fs cloud encryptSecrets o) = (Throw ComposeRequired, [])) /\
  (forall o, up_name o = "" ->
             run (upgrade fs cloud encryptSecrets o) = (Throw NameRequired, [])) /\
  (forall o, up_name o <> "" -> up_compose o = "" ->
             run (upgrade fs cloud encryptSecrets o) = (Throw ComposeRequired, [])) /\
  (forall o, identifier o = "" ->
             run (updateCompose fs cloud encryptSecrets o) = (Throw IdentifierRequired, [])) /\
  (forall o, identifier o <> "" -> uc_compose o = "" ->
             run (updateCompose fs cloud encryptSecrets o) = (Throw ComposeRequired, [])).
Proof.
  repeat split; intros o.
  - intros H. unfold run, deploy. rewrite (eqb_false _ _ H). cbn [negb]. now rewrite orb_true_r.
  - intros Ht H. unfold run, deploy. rewrite Ht, (eqb_false _ _ H). cbn. now rewrite orb_true_r.
  - intros Ht Hm Hn. unfold run, deploy. now rewrite Ht, Hm, Hn.
  - intros Ht Hm Hn Hc. unfold run, deploy. rewrite Ht, Hm, Hc. cbn.
    destruct (truthyString (name o)) eqn:Hs; [reflexivity|].
    now apply truthyString_false in Hs.
  - intros Hn. unfold run, upgrade. now rewrite Hn.
  - intros Hn Hc. unfold run, upgrade. rewrite Hc.
    destruct (truthyString (up_name o)) eqn:Hs; [reflexivity|].
    now apply truthyString_false in Hs.
  - intros Hn. unfold run, updateCompose. now rewrite Hn.
  - intros Hn Hc. unfold run, updateCompose. rewrite Hc.
    destruct (truthyString (identifier o)) eqn:Hs; [reflexivity|].
    now apply truthyString_false in Hs.
Qed.

(** X13. The protocol of deploy. A run either fails without having posted
    the creation, or went through these steps in this order: the compose
    file was read, the key request was posted with the configuration built
    from the options and the file (teepod 3, image dstack-dev-0.3.5, 1 vcpu,
    2048 MB and 40 GB where the options say nothing), it answered with a
    non-empty key, the environment was encrypted with that key if and only
    if it is not empty, and the creation was posted with that
    configuration, the ciphertext (empty without environment), the key and
    the salt of the answer. The run then settles as the creation request. *)
Theorem deploy_protocol (options : DeployOptions) (result : Result CreateCvmResponse)
    (calls : list Call) :
  run (deploy fs cloud encryptSecrets options) = (result, calls) ->
  (exists composeContent envs pubkey salt encrypted,
    let config := vmConfigOf options composeContent in
    let payload := {| vm_config := config; encrypted_env := encrypted;
                      payload_pubkey := pubkey; payload_salt := salt |} in
    parseEnv fs (default [] (env options)) (orString (envFile options) "") = Ok envs /\
    readFile fs (compose options) = Ok composeContent /\
    postPubkey cloud config
      = Ok (Some {| app_env_encrypt_pubkey := Some pubkey; app_id_salt := salt |}) /\
    pubkey <> "" /\
    result = postCreate cloud payload /\
    ((envs = [] /\ encrypted = "" /\
      calls = [ReadFile (compose options); PostPubkey config; PostCreate payload]) \/
     (envs <> [] /\ encryptSecrets envs pubkey = Ok encrypted /\
      calls = [ReadFile (compose options); PostPubkey config; Encrypt envs pubkey;
               PostCreate payload]))) \/
  (exists error, result = Throw error /\ forall payload, PostCreate payload ∉ calls).
Proof.
  unfold run, deploy.
  destruct (negb (truthyString (type options)) || negb (String.eqb (type options) "phala"));
    [intros [= <- <-]; right; eexists; split; [reflexivity | intros p; not_in_trace]|].
  destruct (negb (truthyString (mode options))
            || negb (String.eqb (mode options) "docker-compose"));
    [intros [= <- <-]; right; eexists; split; [reflexivity | intros p; not_in_trace]|].
  destruct (negb (truthyString (name options)));
    [intros [= <- <-]; right; eexists; split; [reflexivity | intros p; not_in_trace]|].
  destruct (negb (truthyString (compose options)));
    [intros [= <- <-]; right; eexists; split; [reflexivity | intros p; not_in_trace]|].
  unfold bindE, lift, call.
  destruct (parseEnv fs (default [] (env options)) (orString (envFile options) ""))
    as [envs|] eqn:Henvs;
    [|intros [= <- <-]; right; eexists; split; [reflexivity | intros p; not_in_trace]].
  destruct (readFile fs (compose options)) as [composeContent|] eqn:Hread;
    [|intros [= <- <-]; right; eexists; split; [reflexivity | intros p; not_in_trace]].
  rewrite orNumber_truthy. cbn [negb]. unfold ret. fold (vmConfigOf options composeContent).
  destruct (postPubkey cloud (vmConfigOf options composeContent))
    as [[[[pubkey|] salt]|]|] eqn:Hkey;
    try (intros [= <- <-]; right; eexists; split; [reflexivity | intros p; not_in_trace]).
  destruct (truthyString pubkey) eqn:Hpk;
    [|intros [= <- <-]; right; eexists; split; [reflexivity | intros p; not_in_trace]].
  unfold encryptIf. rewrite andb_true_r.
  destruct envs as [|e envs].
  - cbn [length Nat.ltb Nat.leb ret].
    intros [= <- <-]. left. exists composeContent, [], pubkey, salt, "".
    repeat split; try assumption; [now apply truthyString_nonempty | left; now repeat split].
  - cbn [length Nat.ltb Nat.leb call]. unfold call.
    destruct (encryptSecrets (e :: envs) pubkey) as [encrypted|] eqn:Henc;
      [|intros [= <- <-]; right; eexists; split; [reflexivity | intros p; not_in_trace]].
    intros [= <- <-]. left. exists composeContent, (e :: envs), pubkey, salt, encrypted.
    repeat split; try assumption; [now apply truthyString_nonempty|].
    right. now repeat split.
Qed.

(** X14. Upgrading a deployment that has a key. For upgrade and
    updateCompose, with a non-empty environment and a record whose
    encrypted_env_pubkey is not empty: the environment is encrypted with
    that key after the record was fetched; when the encryption fails the
    operation throws its error and no compose request is sent; otherwise
    the request carries the ciphertext and the operation settles as the
    request does. *)
Theorem upgrade_encrypts_with_record_key :
  (forall options envs composeContent cvm pubkey,
      up_name options <> "" -> up_compose options <> "" ->
      parseEnv fs (default [] (up_env options)) (orString (up_envFile options) "") = Ok envs ->
      envs <> [] ->
      readFile fs (up_compose options) = Ok composeContent ->
      getCvm cloud (up_name options) = Ok cvm ->
      encrypted_env_pubkey cvm = Some pubkey -> pubkey <> "" ->
      let payload encrypted := {| manifest_name := "app_" +:+ up_name options;
                                  docker_compose_file := composeContent;
                                  compose_encrypted_env := encrypted;
                                  allow_restart := 1 |} in
      let calls := [ReadFile (up_compose options); GetCvm (up_name options);
                    Encrypt envs pubkey] in
      run (upgrade fs cloud encryptSecrets options)
        = match encryptSecrets envs pubkey with
          | Ok encrypted =>
            (postCompose cloud (up_name options) (payload encrypted),
             calls ++ [PostCompose (up_name options) (payload encrypted)])
          | Throw error => (Throw error, calls)
          end) /\
  (forall options envs composeContent cvm pubkey,
      identifier options <> "" -> uc_compose options <> "" ->
      parseEnv fs (default [] (uc_env options)) (orString (uc_envFile options) "") = Ok envs ->
      envs <> [] ->
      readFile fs (uc_compose options) = Ok composeContent ->
      getCvm cloud (removeFirst "app_" (identifier options)) = Ok cvm ->
      encrypted_env_pubkey cvm = Some pubkey -> pubkey <> "" ->
      let target := ApiClient.normalizeId (identifier options) in
      let payload encrypted := {| manifest_name := target;
                                  docker_compose_file := composeContent;
                                  compose_encrypted_env := encrypted;
                                  allow_restart := match allowRestart options with
                                                   | Some false => 0
                                                   | _ => 1
                                                   end |} in
      let calls := [ReadFile (uc_compose options);
                    GetCvm (removeFirst "app_" (identifier options));
                    Encrypt envs pubkey] in
      run (updateCompose fs cloud encryptSecrets options)
        = match encryptSecrets envs pubkey with
          | Ok encrypted =>
            (putCompose cloud target (payload encrypted),
             calls ++ [PutCompose target (payload encrypted)])
          | Throw error => (Throw error, calls)
          end).
Proof.
  split.
  - intros options envs composeContent cvm pubkey Hname Hcompose Henvs Hne Hread Hcvm Hkey Hpk
      payload calls.
    unfold run, upgrade. rewrite !(truthyString_true _) by assumption. cbn [negb].
    unfold bindE, lift, call at 1 2. rewrite Henvs, Hread, Hcvm.
    unfold encryptIf, hasPubkey. rewrite Hkey. cbn [truthy default from_option]. unfold id.
    rewrite (truthyString_true pubkey Hpk), andb_true_r.
    destruct envs as [|e envs]; [congruence|]. cbn [length Nat.ltb Nat.leb]. unfold call.
    now destruct (encryptSecrets (e :: envs) pubkey).
  - intros options envs composeContent cvm pubkey Hname Hcompose Henvs Hne Hread Hcvm Hkey Hpk
      target payload calls.
    unfold run, updateCompose. rewrite !(truthyString_true _) by assumption. cbn [negb].
    unfold bindE, lift, call at 1 2. rewrite Henvs, Hread, Hcvm.
    unfold encryptIf, hasPubkey. rewrite Hkey. cbn [truthy default from_option]. unfold id.
    rewrite (truthyString_true pubkey Hpk), andb_true_r.
    destruct envs as [|e envs]; [congruence|]. cbn [length Nat.ltb Nat.leb]. unfold call.
    now destruct (encryptSecrets (e :: envs) pubkey).
Qed.

(** X15. Which deployment updateCompose asks about. In a run that both
    fetches a record and sends the PUT, the record fetched is that of the
    identifier with its first app_ removed, the PUT goes to the identifier
    with app_ put in front where it does not start with it, the manifest is
    named like the target, and the run settles as the PUT. The record
    fetched (its path is app_ followed by the id) is that of the target
    exactly when the identifier starts with app_ or does not contain it. *)
Theorem updateCompose_addressing (options : UpdateComposeOptions) (result : Result string)
    (calls : list Call) (appId target : string) (payload : ComposePayload) :
  run (updateCompose fs cloud encryptSecrets options) = (result, calls) ->
  GetCvm appId ∈ calls ->
  PutCompose target payload ∈ calls ->
  appId = removeFirst "app_" (identifier options) /\
  target = ApiClient.normalizeId (identifier options) /\
  manifest_name payload = target /\
  result = putCompose cloud target payload /\
  ("app_" +:+ appId = target
   <-> startsWith (identifier options) "app_" = true
       \/ includes (identifier options) "app_" = false).
Proof.
  intros Hrun Hget Hput.
  assert (appId = removeFirst "app_" (identifier options) /\
          target = ApiClient.normalizeId (identifier options) /\
          manifest_name payload = target /\
          result = putCompose cloud target payload) as (-> & -> & Hm & Hr).
  { revert Hrun Hget Hput. unfold run, updateCompose, encryptIf, bindE, call, lift, throw, ret.
    fold (ApiClient.normalizeId (identifier options)).
    repeat match goal with
           | |- context [if ?b then _ else _] => destruct b
           | |- context [match ?x with _ => _ end] => destruct x
           end; intros [= <- <-] Hget Hput; cbn [app] in Hget, Hput;
    repeat match goal with
           | H : _ ∈ _ :: _ |- _ => apply elem_of_cons in H as [H | H]; try discriminate H
           | H : _ ∈ [] |- _ => apply elem_of_nil in H; contradiction
           end;
    injection Hget as ->; injection Hput as -> ->; now repeat split. }
  repeat split; try assumption; apply removeFirst_normalizeId.
Qed.

End Operations.

Lemma operations_validate_before_any_call_witness :
  run (deploy sampleFs (sampleCloud oneOnline) noEncryption
         {| type := "docker"; mode := "docker-compose"; name := "my-app";
            compose := "docker-compose.yml"; env := None; envFile := None;
            vcpu := None; memory := None; diskSize := None; teepodId := None;
            image := None |})
    = (Throw TypeRequired, []) /\
  run (upgrade sampleFs (sampleCloud oneOnline) noEncryption
         {| up_name := "my-app"; up_compose := ""; up_env := None; up_envFile := None |})
    = (Throw ComposeRequired, []) /\
  run (updateCompose sampleFs (sampleCloud oneOnline) noEncryption
         {| identifier := ""; uc_compose := "docker-compose.yml"; uc_env := None;
            uc_envFile := None; allowRestart := None |})
    = (Throw IdentifierRequired, []).
Proof.
  destruct (operations_validate_before_any_call sampleFs (sampleCloud oneOnline) noEncryption)
    as (Htype & _ & _ & _ & _ & Hcompose & Hid & _).
  split; [|split].
  - apply Htype. discriminate.
  - apply Hcompose; [discriminate | reflexivity].
  - apply Hid. reflexivity.
Defined.

Lemma deploy_protocol_witness :
  (exists composeContent envs pubkey salt encrypted,
    let config := vmConfigOf unpinned composeContent in
    let payload := {| vm_config := config; encrypted_env := encrypted;
                      payload_pubkey := pubkey; payload_salt := salt |} in
    parseEnv sampleFs (default [] (env unpinned)) (orString (envFile unpinned) "") = Ok envs /\
    readFile sampleFs (compose unpinned) = Ok composeContent /\
    postPubkey (sampleCloud oneOnline) config
      = Ok (Some {| app_env_encrypt_pubkey := Some pubkey; app_id_salt := salt |}) /\
    pubkey <> "" /\
    Ok {| app_id := "my-app"; created_url := "https://example" |}
      = postCreate (sampleCloud oneOnline) payload /\
    ((envs = [] /\ encrypted = "" /\
      [ReadFile "docker-compose.yml"; PostPubkey unpinnedConfig; PostCreate unpinnedPayload]
      = [ReadFile (compose unpinned); PostPubkey config; PostCreate payload]) \/
     (envs <> [] /\ noEncryption envs pubkey = Ok encrypted /\
      [ReadFile "docker-compose.yml"; PostPubkey unpinnedConfig; PostCreate unpinnedPayload]
      = [ReadFile (compose unpinned); PostPubkey config; Encrypt envs pubkey;
         PostCreate payload]))) \/
  (exists error,
    Ok {| app_id := "my-app"; created_url := "https://example" |} = Throw error /\
    forall payload,
      PostCreate payload
      ∉ [ReadFile "docker-compose.yml"; PostPubkey unpinnedConfig; PostCreate unpinnedPayload]).
Proof.
  apply (deploy_protocol sampleFs (sampleCloud oneOnline) noEncryption unpinned).
  vm_compute. reflexivity.
Defined.

Lemma upgrade_encrypts_with_record_key_witness :
  run (upgrade sampleFs (keyedCloud Hex.zeroLedKey) sampleEncryption sampleUpgrade)
    = (Ok "accepted",
       [ReadFile "docker-compose.yml"; GetCvm "my-app";
        Encrypt [{| key := "KEY"; value := "new" |}] Hex.zeroLedKey;
        PostCompose "my-app" {| manifest_name := "app_my-app";
                                docker_compose_file := "services: {}";
                                compose_encrypted_env := "c0ffee";
                                allow_restart := 1 |}]) /\
  run (updateCompose sampleFs (keyedCloud Hex.zeroLedKey) sampleEncryption sampleUpdate)
    = (Ok "accepted",
       [ReadFile "docker-compose.yml"; GetCvm "my-app";
        Encrypt [{| key := "KEY"; value := "new" |}] Hex.zeroLedKey;
        PutCompose "app_my-app" {| manifest_name := "app_my-app";
                                   docker_compose_file := "services: {}";
                                   compose_encrypted_env := "c0ffee";
                                   allow_restart := 1 |}]).
Proof.
  destruct (upgrade_encrypts_with_record_key sampleFs (keyedCloud Hex.zeroLedKey)
              sampleEncryption) as [Hupgrade Hupdate].
  split.
  - apply (Hupgrade sampleUpgrade [{| key := "KEY"; value := "new" |}] "services: {}"
             {| Monitor.id := "my-app"; Monitor.status := "running"; Monitor.app_url := None;
                encrypted_env_pubkey := Some Hex.zeroLedKey |} Hex.zeroLedKey);
      [discriminate | discriminate | vm_compute; reflexivity | discriminate
      | reflexivity | reflexivity | reflexivity | discriminate].
  - apply (Hupdate sampleUpdate [{| key := "KEY"; value := "new" |}] "services: {}"
             {| Monitor.id := "my-app"; Monitor.status := "running"; Monitor.app_url := None;
                encrypted_env_pubkey := Some Hex.zeroLedKey |} Hex.zeroLedKey);
      [discriminate | discriminate | vm_compute; reflexivity | discriminate
      | reflexivity | reflexivity | reflexivity | discriminate].
Defined.

Lemma updateCompose_addressing_witness :
  "my-app" = removeFirst "app_" "app_my-app" /\
  "app_my-app" = ApiClient.normalizeId "app_my-app" /\
  "app_my-app" = "app_my-app" /\
  Ok "accepted" = Ok "accepted" /\
  ("app_" +:+ "my-app" = "app_my-app"
   <-> startsWith "app_my-app" "app_" = true \/ includes "app_my-app" "app_" = false).
Proof.
  apply (updateCompose_addressing sampleFs (sampleCloud oneOnline) noEncryption sampleUpdate
           (Ok "accepted")
           [ReadFile "docker-compose.yml"; GetCvm "my-app";
            PutCompose "app_my-app" {| manifest_name := "app_my-app";
                                       docker_compose_file := "services: {}";
                                       compose_encrypted_env := "";
                                       allow_restart := 1 |}]
           "my-app" "app_my-app"
           {| manifest_name := "app_my-app"; docker_compose_file := "services: {}";
              compose_encrypted_env := ""; allow_restart := 1 |}).
  - vm_compute. reflexivity.
  - apply elem_of_cons. right. apply elem_of_cons. now left.
  - do 2 (apply elem_of_cons; right). apply elem_of_cons. now left.
Defined.
End SubmitterProtocol.

(** ** The status poller: whole runs *)

Module MonitorRunFacts.
Import Js Monitor MonitorRuns MonitorFacts.

(** Normalises the projections of a trace that is given by its parts. *)
Ltac omaps :=
  unfold reported, statusChangesOf, successesOf, failuresOf, timeoutsOf, errorsOf, queriesOf in *;
  repeat first
    [ rewrite omap_app
    | progress cbn [omap list_omap app]
    | match goal with H : omap ?f ?l = _ |- context [omap ?f ?l] => rewrite H end ].

Section Run.
Variable options : Options.
Variable remote : Remote.

(** The rule of the loop: when a property holds at the start and is kept by
    every iteration that falls through, the loop ends either at a session
    with the property where the condition is false, or by a break out of an
    iteration begun at a session with the property. *)
Lemma loop_rule (I : PollingSession -> Prop) :
  (forall s s', I s -> looping options s = true ->
                iteration options remote s = (s', Falls) -> I s') ->
  forall fuel s s', I s -> loop options remote fuel s = Some s' ->
    (I s' /\ looping options s' = false) \/
    (exists s0, I s0 /\ looping options s0 = true /\
                iteration options remote s0 = (s', Breaks)).
Proof.
  intros Hkeep. induction fuel as [|fuel IH]; intros s s' HI Hloop; cbn [loop] in Hloop;
    fold (looping options s) in Hloop; destruct (looping options s) eqn:Hcond;
    try discriminate.
  - injection Hloop as <-. now left.
  - destruct (iteration options remote s) as [s1 [|]] eqn:Hit.
    + apply (IH s1 s'); [now apply (Hkeep s) | exact Hloop].
    + injection Hloop as <-. right. now exists s.
  - injection Hloop as <-. now left.
Qed.

Lemma last_cons_default (l : list string) : forall a prev,
  List.last (a :: l) prev = List.last l a.
Proof.
  induction l as [|b l IH]; intros a prev; [reflexivity|].
  change (List.last (a :: b :: l) prev) with (List.last (b :: l) prev).
  now rewrite (IH b prev), (IH b a).
Qed.

Lemma noRepeat_snoc (l : list string) : forall prev x,
  noRepeat prev (l ++ [x]) = noRepeat prev l && negb (String.eqb (List.last l prev) x).
Proof.
  induction l as [|a l IH]; intros prev x.
  - cbn. now rewrite andb_true_r.
  - cbn [app noRepeat]. rewrite IH, last_cons_default. now rewrite andb_assoc.
Qed.

Lemma reported_app (t u : list Event) : reported (t ++ u) = reported t ++ reported u.
Proof. unfold reported. now rewrite statusChangesOf_app, fmap_app. Qed.

Lemma statusChangesOf_changeOf (s : PollingSession) (cvm : Cvm) :
  statusChangesOf (changeOf options s cvm)
  = if negb (String.eqb (lastStatus s) (status cvm)) && onStatusChange options
    then [(status cvm, cvm)] else [].
Proof. unfold changeOf. now destruct (_ && _). Qed.

(** The reports stay free of repetitions when a poll resolves. *)
Lemma reports_after_poll (s : PollingSession) (cvm : Cvm) (rest : list Event) :
  statusChangesOf rest = [] ->
  noRepeat "" (reported (trace s)) = true ->
  (onStatusChange options = true -> List.last (reported (trace s)) "" = lastStatus s) ->
  Forall (fun p => p.1 = status p.2) (statusChangesOf (trace s)) ->
  let t' := trace s ++ [StatusQuery (queryTimeout' options)] ++ changeOf options s cvm ++ rest in
  noRepeat "" (reported t') = true /\
  (onStatusChange options = true -> List.last (reported t') "" = status cvm) /\
  Forall (fun p => p.1 = status p.2) (statusChangesOf t').
Proof.
  intros Hrest Hnr Hlast Hpairs t'. subst t'.
  unfold reported in *. rewrite !statusChangesOf_app, Hrest, statusChangesOf_changeOf, app_nil_r.
  cbn [statusChangesOf omap list_omap app].
  destruct (String.eqb_spec (lastStatus s) (status cvm)) as [Heq | Hne]; cbn [negb andb].
  - rewrite app_nil_r. repeat split; try assumption. intros Hon. rewrite <- Heq. now apply Hlast.
  - destruct (onStatusChange options) eqn:Hon.
    + rewrite fmap_app. cbn [fmap list_fmap fst]. repeat split.
      * rewrite noRepeat_snoc, Hnr, (Hlast eq_refl). cbn [andb].
        destruct (String.eqb_spec (lastStatus s) (status cvm)); [congruence | reflexivity].
      * intros _. apply last_last.
      * apply Forall_app. split; [assumption|]. now constructor.
    + rewrite app_nil_r. repeat split; try assumption. discriminate.
Qed.

Lemma tracked_initial : Tracked options remote initial.
Proof. split; try reflexivity. constructor. Qed.

Lemma replicate_snoc {A} (n : nat) (x : A) : replicate n x ++ [x] = replicate (S n) x.
Proof. induction n as [|n IH]; [reflexivity|]. cbn [replicate app]. now rewrite IH. Qed.

(** An iteration that falls through keeps the session tracked; its poll was
    not a terminal one. *)
Lemma tracked_falls (s s' : PollingSession) :
  Tracked options remote s -> iteration options remote s = (s', Falls) ->
  Tracked options remote s' /\
  nonTerminal (getCvmByAppId remote (queries s)) = true /\
  queries s' = S (queries s).
Proof.
  intros [T1 T2 T3 T4 T5 T6 T7 T8 T9 T10] Hit.
  destruct (waitOf_silent options remote s false) as (W1 & W2 & W3 & W4 & W5 & W6).
  destruct (waitOf_silent options remote s true) as (V1 & V2 & V3 & V4 & V5 & V6).
  destruct (getCvmByAppId remote (queries s)) as [cvm|error] eqn:Hq.
  - destruct (isRunning cvm) eqn:Hrun.
    { rewrite (iteration_running _ _ s cvm Hq Hrun) in Hit. discriminate. }
    destruct (isFailed cvm) eqn:Hfail.
    { rewrite (iteration_failed _ _ s cvm Hq Hrun Hfail) in Hit. discriminate. }
    rewrite (iteration_pending _ _ s cvm Hq Hrun Hfail) in Hit. injection Hit as <-.
    destruct (changeOf_silent options s cvm) as (C2 & C3 & C4 & C5 & C6).
    destruct (reports_after_poll s cvm (waitOf options remote s false) W1 T8 T9 T10)
      as (R1 & R2 & R3).
    split; [|split; [cbn [nonTerminal]; now rewrite Hrun, Hfail | reflexivity]].
    split; cbn [deploymentSuccessful retryCount finalCvm queries trace lastStatus];
      try assumption; try lia; try (cbn [lastSnapshot]; now rewrite Hq);
      omaps; rewrite ?replicate_snoc; reflexivity.
  - rewrite (iteration_rejected _ _ s error Hq) in Hit. injection Hit as <-.
    split; [|split; reflexivity].
    split; cbn [deploymentSuccessful retryCount finalCvm queries trace lastStatus];
      try assumption; try lia; try (cbn [lastSnapshot]; now rewrite Hq);
      destruct (onError options), (maxConsecutiveErrors <=? consecutiveErrors s + 1);
      omaps; rewrite ?replicate_snoc, ?app_nil_r; try reflexivity; try assumption.
Qed.

(** The session after an iteration that breaks out of the loop. *)
Lemma tracked_breaks (s s' : PollingSession) :
  Tracked options remote s -> iteration options remote s = (s', Breaks) ->
  exists cvm,
    getCvmByAppId remote (queries s) = Ok cvm /\
    retryCount s' = retryCount s /\
    timeoutsOf (trace s') = [] /\
    queriesOf (trace s') = replicate (S (queries s)) (queryTimeout' options) /\
    noRepeat "" (reported (trace s')) = true /\
    Forall (fun p => p.1 = status p.2) (statusChangesOf (trace s')) /\
    ((isRunning cvm = true /\ deploymentSuccessful s' = true /\
      finalCvm s' = Some (enrich cvm (getCvmNetwork remote)) /\
      successesOf (trace s')
        = (if onSuccess options then [enrich cvm (getCvmNetwork remote)] else []) /\
      failuresOf (trace s') = []) \/
     (isRunning cvm = false /\ isFailed cvm = true /\ deploymentSuccessful s' = false /\
      finalCvm s' = Some cvm /\
      failuresOf (trace s') = (if onFailure options then [(status cvm, cvm)] else []) /\
      successesOf (trace s') = [])).
Proof.
  intros [T1 T2 T3 T4 T5 T6 T7 T8 T9 T10] Hit.
  destruct (getCvmByAppId remote (queries s)) as [cvm|error] eqn:Hq.
  2: { rewrite (iteration_rejected _ _ s error Hq) in Hit. discriminate. }
  exists cvm. split; [reflexivity|].
  destruct (changeOf_silent options s cvm) as (C2 & C3 & C4 & C5 & C6).
  destruct (isRunning cvm) eqn:Hrun.
  - rewrite (iteration_running _ _ s cvm Hq Hrun) in Hit. injection Hit as <-.
    destruct (reports_after_poll s cvm
                ([NetworkQuery] ++ (if onSuccess options
                                    then [Success (enrich cvm (getCvmNetwork remote))] else []))
                ltac:(now destruct (onSuccess options)) T8 T9 T10) as (R1 & _ & R3).
    cbn [deploymentSuccessful retryCount finalCvm queries trace lastStatus].
    repeat split; try assumption.
    + destruct (onSuccess options); omaps; reflexivity.
    + destruct (onSuccess options); omaps; now rewrite replicate_snoc.
    + left. repeat split; destruct (onSuccess options); omaps; reflexivity.
  - destruct (isFailed cvm) eqn:Hfail.
    2: { rewrite (iteration_pending _ _ s cvm Hq Hrun Hfail) in Hit. discriminate. }
    rewrite (iteration_failed _ _ s cvm Hq Hrun Hfail) in Hit. injection Hit as <-.
    destruct (reports_after_poll s cvm
                (if onFailure options then [Failure (status cvm) cvm] else [])
                ltac:(now destruct (onFailure options)) T8 T9 T10) as (R1 & _ & R3).
    cbn [deploymentSuccessful retryCount finalCvm queries trace lastStatus].
    repeat split; try assumption.
    + destruct (onFailure options); omaps; reflexivity.
    + destruct (onFailure options); omaps; now rewrite replicate_snoc.
    + right. repeat split; try assumption; destruct (onFailure options); omaps; reflexivity.
Qed.


(** Every run returns, and ends in one of the three ways. *)
Lemma run_ending :
  exists final events,
    monitorDeploymentStatus options remote = Some (final, events) /\
    Ending options remote final events /\
    noRepeat "" (reported events) = true /\
    Forall (fun p => p.1 = status p.2) (statusChangesOf events).
Proof.
  set (I := fun s => Tracked options remote s /\
                     retryCount s <= Z.max 0 (maxRetries' options) /\
                     forall j, (j < queries s)%nat -> nonTerminal (getCvmByAppId remote j) = true).
  assert (Hkeep : forall s s', I s -> looping options s = true ->
                    iteration options remote s = (s', Falls) -> I s').
  { intros s s' (HT & Hle & Hpre) Hcond Hit.
    destruct (tracked_falls s s' HT Hit) as (HT' & Hnt & Hq).
    pose proof (iteration_falls options remote s s' Hit) as [Hrc _].
    unfold looping in Hcond. apply andb_true_iff in Hcond as [Hlt%Z.ltb_lt _].
    split; [exact HT'|]. split; [lia|].
    intros j Hj. rewrite Hq in Hj.
    destruct (Nat.eq_dec j (queries s)) as [-> |]; [exact Hnt | apply Hpre; lia]. }
  assert (HI0 : I initial).
  { split; [apply tracked_initial|]. split; [cbn; lia|]. cbn. intros j Hj. lia. }
  destruct (loop_total options remote (Z.to_nat (maxRetries' options)) initial) as (s' & Hloop);
    [cbn [initial retryCount]; lia|].
  exists (finish options s').1, (finish options s').2.
  split.
  { unfold monitorDeploymentStatus. rewrite Hloop. cbn [fmap option_fmap option_map].
    now destruct (finish options s'). }
  destruct (loop_rule I Hkeep _ _ _ HI0 Hloop)
    as [((HT & Hle & Hpre) & Hcond) | (s0 & (HT0 & Hle0 & Hpre0) & Hcond & Hit)].
  - destruct HT as [T1 T2 T3 T4 T5 T6 T7 T8 T9 T10].
    unfold looping in Hcond. rewrite T1, andb_true_r in Hcond. apply Z.ltb_ge in Hcond.
    assert (Hn : queries s' = Z.to_nat (maxRetries' options)) by lia.
    unfold finish. rewrite T1. destruct (Z.leb_spec (maxRetries' options) (retryCount s')); [|lia].
    cbn [andb negb fst snd]. unfold emit.
    split; [|split].
    + apply EndsTimedOut with (before := trace s'); rewrite <- ?Hn; try assumption.
      now destruct (onTimeout options); [|rewrite app_nil_r].
    + destruct (onTimeout options); [|assumption].
      unfold reported in *. rewrite statusChangesOf_app. cbn. now rewrite app_nil_r.
    + destruct (onTimeout options); [|assumption].
      rewrite statusChangesOf_app. cbn. now rewrite app_nil_r.
  - unfold looping in Hcond. apply andb_true_iff in Hcond as [Hlt%Z.ltb_lt _].
    destruct (tracked_breaks s0 s' HT0 Hit)
      as (cvm & Hq & Hrc & Hto & Hqs & Hnr & Hpairs & Hcase).
    pose proof (tracked_count _ _ _ HT0) as Hcount.
    destruct Hcase as [(Hrun & Hds & Hfin & Hsu & Hfa) | (Hrun & Hfail & Hds & Hfin & Hfa & Hsu)];
      unfold finish; rewrite Hds, ?andb_false_r;
      [|destruct (Z.leb_spec (maxRetries' options) (retryCount s')); [lia|]];
      cbn [andb negb fst snd]; (split; [|split; assumption]).
    + apply EndsRunning with (k := queries s0) (cvm := cvm); try assumption. lia.
    + apply EndsFailed with (k := queries s0) (cvm := cvm); try assumption. lia.
Qed.
End Run.

Lemma terminal_running (cvm : Cvm) : isRunning cvm = true -> nonTerminal (Ok cvm) = false.
Proof. intros H. cbn [nonTerminal]. now rewrite H. Qed.

Lemma terminal_failed (cvm : Cvm) : isFailed cvm = true -> nonTerminal (Ok cvm) = false.
Proof. intros H. cbn [nonTerminal]. rewrite H. apply andb_false_r. Qed.

(** Two first terminal polls of one script are the same poll. *)
Lemma first_terminal_unique (answers : nat -> Result Cvm) (k k' : nat) :
  (forall j, (j < k)%nat -> nonTerminal (answers j) = true) ->
  (forall j, (j < k')%nat -> nonTerminal (answers j) = true) ->
  nonTerminal (answers k) = false -> nonTerminal (answers k') = false -> k = k'.
Proof.
  intros Hk Hk' Ht Ht'. destruct (Nat.lt_trichotomy k k') as [Hlt | [Heq | Hgt]]; [|exact Heq|].
  - rewrite (Hk' k Hlt) in Ht. discriminate.
  - rewrite (Hk k' Hgt) in Ht'. discriminate.
Qed.

Lemma enrich_keeps (cvm : Cvm) (net : Result (option NetworkInfo)) :
  status (enrich cvm net) = status cvm /\ id (enrich cvm net) = id cvm /\
  (forall e, net = Throw e -> enrich cvm net = cvm).
Proof.
  unfold enrich. destruct net as [[[[[|app urls]|]]|]|e]; cbn; repeat split; try reflexivity;
    intros; discriminate.
Qed.

(** X16. The monitor returns at the first running status. When query
    number k (from 0, k below maxRetries) is the first to answer with a
    terminal status and that status is running in any letter case, the
    monitor returns its snapshot enriched once with the network query,
    hands the same value to onSuccess exactly once, calls neither onFailure
    nor onTimeout, and has made k + 1 status queries, each with
    queryTimeout. The enrichment: when the network query lists at least
    one public URL, the value returned is the snapshot with the [app] of
    the first URL as its [app_url] and every other field as it was; when
    the network query answers nothing, lists no URL or fails, the value
    returned is the snapshot itself. *)
Theorem monitor_returns_first_running (options : Options) (remote : Remote)
    (k : nat) (cvm : Cvm) :
  Z.of_nat k < maxRetries' options ->
  (forall j, (j < k)%nat -> nonTerminal (getCvmByAppId remote j) = true) ->
  getCvmByAppId remote k = Ok cvm -> isRunning cvm = true ->
  onSuccess options = true ->
  exists final events,
    monitorDeploymentStatus options remote = Some (Some final, events) /\
    successesOf events = [final] /\ failuresOf events = [] /\ timeoutsOf events = [] /\
    queriesOf events = replicate (S k) (queryTimeout' options) /\
    status final = status cvm /\
    (forall app rest,
        getCvmNetwork remote = Ok (Some {| public_urls := Some (app :: rest) |}) ->
        final = {| id := id cvm; status := status cvm; app_url := app;
                   encrypted_env_pubkey := encrypted_env_pubkey cvm |}) /\
    (getCvmNetwork remote = Ok None
     \/ getCvmNetwork remote = Ok (Some {| public_urls := None |})
     \/ getCvmNetwork remote = Ok (Some {| public_urls := Some [] |})
     \/ (exists e, getCvmNetwork remote = Throw e) ->
     final = cvm).
Proof.
  intros Hk Hpre Hq Hrun Hon.
  pose proof (terminal_running cvm Hrun) as Hterm. rewrite <- Hq in Hterm.
  destruct (run_ending options remote) as (f & events & Hmon & Hend & _).
  exists (enrich cvm (getCvmNetwork remote)), events.
  destruct Hend as [k' c' Hk' Hpre' Hq' Hrun' Hf Hsu Hfa Hto Hqs
                   |k' c' Hk' Hpre' Hq' Hrun' Hfail' Hf Hfa Hsu Hto Hqs
                   |before Hall Hf Hev Hsu Hfa Hto Hqs].
  - assert (k = k') as <-.
    { apply (first_terminal_unique (getCvmByAppId remote)); try assumption.
      rewrite Hq'. now apply terminal_running. }
    rewrite Hq in Hq'. injection Hq' as <-. rewrite Hon in Hsu. subst f.
    destruct (enrich_keeps cvm (getCvmNetwork remote)) as (Hst & _ & _).
    destruct (enrich_cases cvm (getCvmNetwork remote)) as [Hurl Hnone].
    repeat split; assumption.
  - assert (k = k') as <-.
    { apply (first_terminal_unique (getCvmByAppId remote)); try assumption.
      rewrite Hq'. now apply terminal_failed. }
    rewrite Hq in Hq'. injection Hq' as <-. congruence.
  - rewrite (Hall k) in Hterm by lia. discriminate.
Qed.

Lemma monitor_returns_first_running_witness :
  exists final events,
    monitorDeploymentStatus (recording 3) (published startingStartingRunning)
      = Some (Some final, events) /\
    successesOf events = [final] /\
    length (queriesOf events) = 3%nat /\
    final = {| id := "poll-3"; status := "running"; app_url := Some "https://app.example";
               encrypted_env_pubkey := None |}.
Proof.
  destruct (monitor_returns_first_running (recording 3) (published startingStartingRunning)
              2 (snapshot "poll-3" "running"))
    as (final & events & Hmon & Hsu & _ & _ & Hqs & _ & Hurl & _).
  - cbn. lia.
  - intros [|[|j]] Hj; [reflexivity | reflexivity | lia].
  - reflexivity.
  - reflexivity.
  - reflexivity.
  - exists final, events. split; [exact Hmon|]. split; [exact Hsu|].
    split; [now rewrite Hqs|]. exact (Hurl (Some "https://app.example") [] eq_refl).
Defined.

(** X17. The monitor stops at the first failed status. When query number k
    (from 0, k below maxRetries) is the first with a terminal status and
    that status is not running but contains error or fail, in any letter
    case, the monitor returns that snapshot, calls
    onFailure exactly once with its status and the snapshot, calls neither
    onSuccess nor onTimeout, and has made k + 1 status queries. *)
Theorem monitor_stops_at_first_failure (options : Options) (remote : Remote)
    (k : nat) (cvm : Cvm) :
  Z.of_nat k < maxRetries' options ->
  (forall j, (j < k)%nat -> nonTerminal (getCvmByAppId remote j) = true) ->
  getCvmByAppId remote k = Ok cvm -> isRunning cvm = false -> isFailed cvm = true ->
  onFailure options = true ->
  exists events,
    monitorDeploymentStatus options remote = Some (Some cvm, events) /\
    failuresOf events = [(status cvm, cvm)] /\ successesOf events = [] /\
    timeoutsOf events = [] /\
    queriesOf events = replicate (S k) (queryTimeout' options).
Proof.
  intros Hk Hpre Hq Hrun Hfail Hon.
  pose proof (terminal_failed cvm Hfail) as Hterm. rewrite <- Hq in Hterm.
  destruct (run_ending options remote) as (f & events & Hmon & Hend & _).
  exists events.
  destruct Hend as [k' c' Hk' Hpre' Hq' Hrun' Hf Hsu Hfa Hto Hqs
                   |k' c' Hk' Hpre' Hq' Hrun' Hfail' Hf Hfa Hsu Hto Hqs
                   |before Hall Hf Hev Hsu Hfa Hto Hqs].
  - assert (k = k') as <-.
    { apply (first_terminal_unique (getCvmByAppId remote)); try assumption.
      rewrite Hq'. now apply terminal_running. }
    rewrite Hq in Hq'. injection Hq' as <-. congruence.
  - assert (k = k') as <-.
    { apply (first_terminal_unique (getCvmByAppId remote)); try assumption.
      rewrite Hq'. now apply terminal_failed. }
    rewrite Hq in Hq'. injection Hq' as <-. rewrite Hon in Hfa. subst f.
    repeat split; assumption.
  - rewrite (Hall k) in Hterm by lia. discriminate.
Qed.

Lemma monitor_stops_at_first_failure_witness :
  exists events,
    monitorDeploymentStatus (recording 36) (scripted startingFailed)
      = Some (Some (snapshot "poll-2" "failed"), events) /\
    failuresOf events = [("failed", snapshot "poll-2" "failed")] /\
    length (queriesOf events) = 2%nat.
Proof.
  destruct (monitor_stops_at_first_failure (recording 36) (scripted startingFailed)
              1 (snapshot "poll-2" "failed"))
    as (events & Hmon & Hfa & _ & _ & Hqs).
  - cbn. lia.
  - intros [|j] Hj; [reflexivity | lia].
  - reflexivity.
  - reflexivity.
  - reflexivity.
  - reflexivity.
  - exists events. split; [exact Hmon|]. split; [exact Hfa|]. now rewrite Hqs.
Defined.

(** X18. The monitor times out with the last snapshot. When none of the
    maxRetries queries gives a terminal status, the monitor returns the
    snapshot of the last query that resolved (null when none did), calls
    onTimeout once, last, with that same value, calls neither onSuccess nor
    onFailure, and has made maxRetries status queries. *)
Theorem monitor_times_out_with_last_snapshot (options : Options) (remote : Remote) :
  (forall j, (j < Z.to_nat (maxRetries' options))%nat ->
             nonTerminal (getCvmByAppId remote j) = true) ->
  onTimeout options = true ->
  let final := lastSnapshot (getCvmByAppId remote) (Z.to_nat (maxRetries' options)) in
  exists before,
    monitorDeploymentStatus options remote = Some (final, before ++ [Timeout final]) /\
    successesOf before = [] /\ failuresOf before = [] /\ timeoutsOf before = [] /\
    queriesOf before = replicate (Z.to_nat (maxRetries' options)) (queryTimeout' options).
Proof.
  intros Hall Hon final.
  destruct (run_ending options remote) as (f & events & Hmon & Hend & _).
  destruct Hend as [k' c' Hk' Hpre' Hq' Hrun' Hf Hsu Hfa Hto Hqs
                   |k' c' Hk' Hpre' Hq' Hrun' Hfail' Hf Hfa Hsu Hto Hqs
                   |before Hall' Hf Hev Hsu Hfa Hto Hqs].
  - exfalso. pose proof (terminal_running c' Hrun') as Ht. rewrite <- Hq', Hall in Ht by lia.
    discriminate.
  - exfalso. pose proof (terminal_failed c' Hfail') as Ht. rewrite <- Hq', Hall in Ht by lia.
    discriminate.
  - exists before. rewrite Hon in Hev. subst f events. repeat split; assumption.
Qed.

Lemma monitor_times_out_with_last_snapshot_witness :
  exists before,
    monitorDeploymentStatus (recording 4) (scripted flaky)
      = Some (Some (snapshot "poll" "starting"),
              before ++ [Timeout (Some (snapshot "poll" "starting"))]) /\
    length (queriesOf before) = 4%nat.
Proof.
  destruct (monitor_times_out_with_last_snapshot (recording 4) (scripted flaky))
    as (before & Hmon & _ & _ & _ & Hqs).
  - intros [|[|[|[|j]]]] Hj; try reflexivity. cbn in Hj. lia.
  - reflexivity.
  - exists before. split; [exact Hmon | now rewrite Hqs].
Defined.

(** X19. One ending per run. With the three handlers installed, every run of
    the monitor returns and calls exactly one of onSuccess, onFailure and
    onTimeout, exactly once; the value handed to it is the value returned,
    a running snapshot for onSuccess and a failed one, with its status, for
    onFailure. *)
Theorem monitor_notifies_exactly_one_ending (options : Options) (remote : Remote) :
  onSuccess options = true -> onFailure options = true -> onTimeout options = true ->
  exists final events,
    monitorDeploymentStatus options remote = Some (final, events) /\
    (length (successesOf events) + length (failuresOf events) + length (timeoutsOf events)
     = 1)%nat /\
    (forall cvm, cvm ∈ successesOf events -> final = Some cvm /\ isRunning cvm = true) /\
    (forall st cvm, (st, cvm) ∈ failuresOf events ->
                    final = Some cvm /\ st = status cvm /\ isFailed cvm = true) /\
    (forall cvm, cvm ∈ timeoutsOf events -> final = cvm).
Proof.
  intros HonS HonF HonT.
  destruct (run_ending options remote) as (final & events & Hmon & Hend & _).
  exists final, events. split; [exact Hmon|].
  destruct Hend as [k c Hk Hpre Hq Hrun Hf Hsu Hfa Hto Hqs
                   |k c Hk Hpre Hq Hrun Hfail Hf Hfa Hsu Hto Hqs
                   |before Hall Hf Hev Hsu Hfa Hto Hqs].
  - rewrite HonS in Hsu. rewrite Hsu, Hfa, Hto. split; [reflexivity|].
    split; [|split]; [|intros ? ? Hin; now apply elem_of_nil in Hin
                      |intros ? Hin; now apply elem_of_nil in Hin].
    intros cvm Hin%list_elem_of_singleton. subst cvm final. split; [reflexivity|].
    unfold isRunning in *. now rewrite (proj1 (enrich_keeps c (getCvmNetwork remote))).
  - rewrite HonF in Hfa. rewrite Hsu, Hfa, Hto. split; [reflexivity|].
    split; [|split]; [intros ? Hin; now apply elem_of_nil in Hin|
                      |intros ? Hin; now apply elem_of_nil in Hin].
    intros st cvm Hin%list_elem_of_singleton. injection Hin as -> ->. now subst final.
  - rewrite HonT in Hev. subst events.
    rewrite successesOf_app, failuresOf_app, timeoutsOf_app, Hsu, Hfa, Hto.
    split; [reflexivity|].
    split; [|split]; [intros ? Hin; now apply elem_of_nil in Hin
                     |intros ? ? Hin; now apply elem_of_nil in Hin|].
    intros cvm Hin. cbn in Hin. now apply list_elem_of_singleton in Hin.
Qed.

Lemma monitor_notifies_exactly_one_ending_witness :
  exists final events,
    monitorDeploymentStatus (recording 4) (scripted flaky) = Some (final, events) /\
    (length (successesOf events) + length (failuresOf events) + length (timeoutsOf events)
     = 1)%nat.
Proof.
  destruct (monitor_notifies_exactly_one_ending (recording 4) (scripted flaky)
              eq_refl eq_refl eq_refl) as (final & events & Hmon & Hone & _).
  exists final, events. split; assumption.
Defined.

(** X20. The query budget of the monitor. Every run returns after at most
    maxRetries status queries, all with the same queryTimeout; with
    maxRetries of 0 or less it makes none, reports a timeout with null if a
    handler is installed and returns null. *)
Theorem monitor_query_budget (options : Options) (remote : Remote) :
  (exists final events n,
      monitorDeploymentStatus options remote = Some (final, events) /\
      queriesOf events = replicate n (queryTimeout' options) /\
      (n <= Z.to_nat (maxRetries' options))%nat) /\
  (maxRetries' options <= 0 ->
   monitorDeploymentStatus options remote
   = Some (None, if onTimeout options then [Timeout None] else [])).
Proof.
  split.
  - destruct (run_ending options remote) as (final & events & Hmon & Hend & _).
    exists final, events.
    destruct Hend as [k c Hk Hpre Hq Hrun Hf Hsu Hfa Hto Hqs
                     |k c Hk Hpre Hq Hrun Hfail Hf Hfa Hsu Hto Hqs
                     |before Hall Hf Hev Hsu Hfa Hto Hqs].
    + exists (S k). repeat split; [assumption.. | lia].
    + exists (S k). repeat split; [assumption.. | lia].
    + exists (Z.to_nat (maxRetries' options)). repeat split; [assumption | | lia].
      subst events. rewrite queriesOf_app, Hqs. destruct (onTimeout options); cbn;
        now rewrite app_nil_r.
  - intros Hmax. unfold monitorDeploymentStatus.
    rewrite loop_exit by (cbn [initial retryCount]; lia).
    cbn [fmap option_fmap option_map]. unfold finish. cbn [initial retryCount deploymentSuccessful
      finalCvm trace negb]. destruct (Z.leb_spec (maxRetries' options) 0); [|lia].
    cbn [andb]. unfold emit. now destruct (onTimeout options).
Qed.

Lemma monitor_query_budget_witness :
  monitorDeploymentStatus (recording 0) (scripted startingStartingRunning)
  = Some (None, [Timeout None]).
Proof.
  exact (proj2 (monitor_query_budget (recording 0) (scripted startingStartingRunning))
               ltac:(cbn; lia)).
Defined.

Lemma noRepeat_lookup (l : list string) : forall prev,
  noRepeat prev l = true ->
  (forall x, l !! 0%nat = Some x -> x <> prev) /\
  (forall i x y, l !! i = Some x -> l !! S i = Some y -> y <> x).
Proof.
  induction l as [|a l IH]; intros prev H; [split; intros; discriminate|].
  cbn [noRepeat] in H. apply andb_true_iff in H as [Ha Hl].
  destruct (IH a Hl) as [Hfirst Hnext]. split.
  - intros x [= <-]. destruct (String.eqb_spec prev a); [discriminate | congruence].
  - intros [|i] x y Hx Hy.
    + injection Hx as <-. now apply Hfirst.
    + now apply (Hnext i x y).
Qed.

(** X21. onStatusChange reports changes only. In every run the first status
    reported is not the empty string, no status reported equals the one
    reported before it, and each report carries the status of the snapshot
    it comes with. *)
Theorem monitor_reports_changes_only (options : Options) (remote : Remote) :
  exists final events,
    monitorDeploymentStatus options remote = Some (final, events) /\
    (forall status, reported events !! 0%nat = Some status -> status <> "") /\
    (forall i earlier later,
        reported events !! i = Some earlier -> reported events !! S i = Some later ->
        later <> earlier) /\
    (forall st cvm, (st, cvm) ∈ statusChangesOf events -> st = status cvm).
Proof.
  destruct (run_ending options remote) as (final & events & Hmon & _ & Hnr & Hpairs).
  exists final, events. split; [exact Hmon|].
  destruct (noRepeat_lookup _ _ Hnr) as [Hfirst Hnext].
  split; [exact Hfirst|]. split; [exact Hnext|].
  intros st cvm Hin. rewrite Forall_forall in Hpairs. exact (Hpairs _ Hin).
Qed.
End MonitorRunFacts.
